(** * polkadot-profit-transformer: sync driver, task processor, era aggregation

    A shallow embedding of
    - [BlockMetadataProcessorService] (the fencing task processor),
    - [StakingService] (era payout aggregation and the payout job),
    - [BlocksService] (the block sync driver),
    - the settings object of the main application,
    together with the properties their specification states about them.

    Asynchronous code is modelled in a promise monad over an explicit world:
    a call either resolves with a value, rejects with an error, or stays
    pending (blocked on the sync mutex, or a loop that has not finished
    within the given fuel).  The block jobs of a chunk, which are in flight
    together, are modelled piece by piece, from one [await] to the next, in
    whatever order the event loop takes the pieces. *)

From stdpp Require Import base option list gmap strings pretty.
From Stdlib Require Import ZArith Lia.

Open Scope Z_scope.

(* ===================================================================== *)
(** ** Promises *)
(* ===================================================================== *)

Module Async.

(** A JavaScript [Error] object; it is always truthy. *)
Record Error := MkError { message : string }.

Inductive outcome (A : Type) : Type :=
| Resolved (a : A)
| Rejected (e : Error)
| Pending.
Arguments Resolved {A} a.
Arguments Rejected {A} e.
Arguments Pending {A}.

(** An async function over a world [W]. *)
Definition M (W A : Type) : Type := W -> outcome A * W.

Definition ret {W A} (a : A) : M W A := fun w => (Resolved a, w).

Definition bind {W A B} (m : M W A) (k : A -> M W B) : M W B :=
  fun w =>
    match m w with
    | (Resolved a, w') => k a w'
    | (Rejected e, w') => (Rejected e, w')
    | (Pending, w') => (Pending, w')
    end.

Definition throw {W A} (e : Error) : M W A := fun w => (Rejected e, w).

Definition pending {W A} : M W A := fun w => (Pending, w).

(** [p.catch(h)] and [try { p } catch (e) { h e }]. *)
Definition catch {W A} (m : M W A) (h : Error -> M W A) : M W A :=
  fun w =>
    match m w with
    | (Rejected e, w') => h e w'
    | r => r
    end.

Definition gets {W A} (f : W -> A) : M W A := fun w => (Resolved (f w), w).

Definition modify {W} (f : W -> W) : M W unit := fun w => (Resolved tt, f w).

(** What a collaborator (chain node, broker, store) answers to one
    request: a value or an exception. *)
Inductive response (A : Type) : Type :=
| Returns (a : A)
| Throws (e : Error).
Arguments Returns {A} a.
Arguments Throws {A} e.

(** [await] on the answer of a collaborator. *)
Definition await {W A} (r : response A) : M W A :=
  fun w => (match r with Returns a => Resolved a | Throws e => Rejected e end, w).

(** [for (const x of xs) { ... }] over the variables [acc] the body updates. *)
Fixpoint for_of {W A B} (xs : list A) (body : B -> A -> M W B) (acc : B) : M W B :=
  match xs with
  | [] => ret acc
  | x :: xs' => bind (body acc x) (for_of xs' body)
  end.

(** How the outcomes of two promises that are both in flight join. *)
Definition join {A} (r : outcome A) (rs : outcome (list A)) : outcome (list A) :=
  match r, rs with
  | Rejected e, _ => Rejected e
  | _, Rejected e => Rejected e
  | Pending, _ => Pending
  | _, Pending => Pending
  | Resolved a, Resolved l => Resolved (a :: l)
  end.

(** [Promise.all([p, q])] with the two results destructured. *)
Definition Promise_all2 {W A B} (p : M W A) (q : M W B) : M W (A * B) :=
  fun w =>
    let '(r, w1) := p w in
    let '(r', w2) := q w1 in
    (match r, r' with
     | Rejected e, _ => Rejected e
     | _, Rejected e => Rejected e
     | Pending, _ => Pending
     | _, Pending => Pending
     | Resolved a, Resolved b => Resolved (a, b)
     end, w2).

(** *** Calls that run side by side

    An [async] function runs up to its first [await] when it is called, and
    from one [await] to the next each time the event loop gets back to it;
    between two such pieces the pieces of other calls may run. *)

(** A call that has been made: it has settled, or it waits at an [await],
    and [resume] is the piece that runs when the event loop gets back to it
    (up to the next [await], or to the end). *)
#[warnings="-register-all"]
Inductive Task (W A : Type) : Type :=
| Settled (r : outcome A)
| Awaiting (resume : W -> Task W A * W).
Arguments Settled {W A} r.
Arguments Awaiting {W A} resume.

(** Induction on a call in flight. *)
Fixpoint Task_induction {W A} (P : Task W A -> Prop)
    (HS : forall r, P (Settled r))
    (HA : forall resume, (forall w, P (resume w).1) -> P (Awaiting resume))
    (t : Task W A) {struct t} : P t :=
  match t with
  | Settled r => HS r
  | Awaiting resume => HA resume (fun w => Task_induction P HS HA (resume w).1)
  end.

(** An async function about to be called. *)
Definition Job (W A : Type) : Type := W -> Task W A * W.

Module Jobs.

Definition ret {W A} (a : A) : Job W A := fun w => (Settled (Resolved a), w).

Definition throw {W A} (e : Error) : Job W A := fun w => (Settled (Rejected e), w).

(** Code that has no [await] of its own. *)
Definition sync {W A} (m : M W A) : Job W A :=
  fun w => let '(r, w') := m w in (Settled r, w').

(** What follows a call once it has resolved. *)
Fixpoint then_ {W A B} (t : Task W A) (k : A -> Job W B) {struct t} : Job W B :=
  match t with
  | Settled (Resolved a) => k a
  | Settled (Rejected e) => fun w => (Settled (Rejected e), w)
  | Settled Pending => fun w => (Settled Pending, w)
  | Awaiting resume =>
      fun w => (Awaiting (fun w1 => let '(t', w2) := resume w1 in then_ t' k w2), w)
  end.

Definition bind {W A B} (j : Job W A) (k : A -> Job W B) : Job W B :=
  fun w => let '(t, w') := j w in then_ t k w'.

(** [p.catch(h)]: the handler is a reaction to the rejection of [p], so it
    runs when the event loop gets back to the call, not in the piece that
    rejected. *)
Fixpoint caught {W A} (t : Task W A) (h : Error -> Job W A) {struct t} : Job W A :=
  match t with
  | Settled (Rejected e) => fun w => (Awaiting (h e), w)
  | Settled r => fun w => (Settled r, w)
  | Awaiting resume =>
      fun w => (Awaiting (fun w1 => let '(t', w2) := resume w1 in caught t' h w2), w)
  end.

Definition catch {W A} (j : Job W A) (h : Error -> Job W A) : Job W A :=
  fun w => let '(t, w') := j w in caught t h w'.

(** [await p]: the caller waits, and goes on when the event loop gets back
    to it after [p] has settled. *)
Fixpoint after {W A} (t : Task W A) {struct t} : Task W A :=
  match t with
  | Settled r => Awaiting (fun w => (Settled r, w))
  | Awaiting resume => Awaiting (fun w => let '(t', w') := resume w in (after t', w'))
  end.

Definition await {W A} (j : Job W A) : Job W A :=
  fun w => let '(t, w') := j w in (after t, w').

(** A call with nothing beside it: every time it waits, it is the one the
    event loop gets back to. *)
Fixpoint run {W A} (t : Task W A) {struct t} : M W A :=
  fun w =>
    match t with
    | Settled r => (r, w)
    | Awaiting resume => let '(t', w') := resume w in run t' w'
    end.

Definition alone {W A} (j : Job W A) : M W A :=
  fun w => let '(t, w') := j w in run t w'.

End Jobs.

(** [xs.map(x => f(x))] for an async [f]: the calls are made one after the
    other, each running up to its first [await]. *)
Fixpoint calls {W A} (jobs : list (Job W A)) : M W (list (Task W A)) :=
  fun w =>
    match jobs with
    | [] => (Resolved [], w)
    | j :: jobs' =>
        let '(t, w1) := j w in
        match calls jobs' w1 with
        | (Resolved ts, w2) => (Resolved (t :: ts), w2)
        | r => r
        end
    end.

(** One call beside the calls after it in the array.  When the call and
    one of the later calls both wait, the event loop resumes the call if
    [first n] and one of the later calls otherwise, where [n] counts the
    pieces these calls have run since they are awaited; a call that has
    settled is passed over. *)
Fixpoint beside {W A} (first : nat -> bool) (t : Task W A) {struct t}
    : nat -> Task W (list A) -> Task W (list A) :=
  fix later_calls (n : nat) (ts : Task W (list A)) {struct ts} : Task W (list A) :=
    match t, ts with
    | Settled r, Settled rs => Settled (join r rs)
    | Awaiting resume, Settled _ =>
        Awaiting (fun w => let '(t', w') := resume w in (beside first t' (S n) ts, w'))
    | Settled _, Awaiting resume' =>
        Awaiting (fun w => let '(ts', w') := resume' w in (later_calls (S n) ts', w'))
    | Awaiting resume, Awaiting resume' =>
        Awaiting (fun w =>
          if first n
          then let '(t', w') := resume w in (beside first t' (S n) ts, w')
          else let '(ts', w') := resume' w in (later_calls (S n) ts', w'))
    end.

(** The calls of an array, all in flight; [first i] decides for the call at
    index [i]. *)
Fixpoint in_flight {W A} (first : nat -> nat -> bool) (i : nat) (ts : list (Task W A))
    : Task W (list A) :=
  match ts with
  | [] => Settled (Resolved [])
  | t :: ts' => beside (first i) t 0 (in_flight first (S i) ts')
  end.

(** [await Promise.all(ps)]: the calls of [ps] have all been made; their
    pieces run in the order the event loop takes them, which [first] stands
    for (it may depend on the moment [Promise.all] is awaited), until every
    call has settled, and the outcomes join as for [Promise.all([p, q])].
    JavaScript lets the caller go on as soon as one call rejects, while the
    others still run; here the caller sees the rejection once they have
    settled too.  The calls this is used for, the jobs of a chunk, never
    reject ([BlocksSpec.runBlocksWorker_for_job_calm]). *)
Definition Promise_all {W A} (first : W -> nat -> nat -> bool) (ps : list (Task W A))
    : M W (list A) :=
  fun w => Jobs.run (in_flight (first w) 0 ps) w.

Declare Scope async_scope.
Delimit Scope async_scope with async.

Notation "'let*' x ':=' c1 'in' c2" := (bind c1 (fun x => c2))
  (at level 10, x pattern, c1 at level 100, c2 at level 200) : async_scope.
Notation "c1 ';;' c2" := (bind c1 (fun _ => c2))
  (at level 100, c2 at level 200, right associativity) : async_scope.

Declare Scope job_scope.
Delimit Scope job_scope with job.

Notation "'let*' x ':=' c1 'in' c2" := (Jobs.bind c1 (fun x => c2))
  (at level 10, x pattern, c1 at level 100, c2 at level 200) : job_scope.
Notation "c1 ';;' c2" := (Jobs.bind c1 (fun _ => c2))
  (at level 100, c2 at level 200, right associativity) : job_scope.

End Async.

Import Async.
Open Scope async_scope.

(* ===================================================================== *)
(** ** BlockMetadataProcessorService *)
(* ===================================================================== *)

Module BlockMetadataProcessor.

(** Modelled from the spec: the enums of [@/models/processing_task.model]
    are not part of the sources at hand.  A Work Item has an entity kind
    and a status in {NOT_PROCESSED, PROCESSED}; the only kind this service
    names is [BLOCK_METADATA]. *)
Inductive ENTITY := BLOCK_METADATA | OTHER_ENTITY (name : string).
Inductive PROCESSING_STATUS := NOT_PROCESSED | PROCESSED.

#[global] Instance ENTITY_eq_dec : EqDecision ENTITY.
Proof. solve_decision. Defined.
#[global] Instance PROCESSING_STATUS_eq_dec : EqDecision PROCESSING_STATUS.
Proof. solve_decision. Defined.

#[global] Instance ENTITY_countable : Countable ENTITY.
Proof.
  refine (inj_countable'
            (fun e => match e with
                      | BLOCK_METADATA => None
                      | OTHER_ENTITY n => Some n
                      end)
            (fun o => match o with
                      | None => BLOCK_METADATA
                      | Some n => OTHER_ENTITY n
                      end) _).
  now intros [|n].
Defined.

(** A row of the processing-tasks table (the Work Item). *)
Record ProcessingTask := {
  entity : ENTITY;
  entity_id : Z;
  status : PROCESSING_STATUS;
  attempts : Z;
  collect_uid : string
}.

(** [TaskMessage<QUEUES.BlocksMetadata>]: the fields the processor reads. *)
Record TaskMessage := {
  message_entity_id : Z;
  message_collect_uid : string
}.

Record TotalIssuanceRow := {
  block_id : Z;
  total_issuance : string;
  network_id : Z;
  row_time : Z
}.

(** The relational store: at most one Work Item per (kind, id). *)
Record Database := {
  processing_tasks : gmap (ENTITY * Z) ProcessingTask;
  total_issuance_rows : list TotalIssuanceRow
}.

(** A knex transaction: while open it owns a working copy of the store,
    which [commit] installs and [rollback] drops. *)
Inductive Transaction :=
| NoTransaction
| Open (work : Database)
| Completed.

Inductive Warning :=
| TaskRecordNotFound
| MaxAttemptsReached (blockId : Z)
| PossibleDuplication (blockId : Z) (expected found : string)
| AlreadyProcessed (blockId : Z).

Inductive LogBody :=
| warning (w : Warning)
| StartProcessing (blockId : Z)
| ProcessedAndCommitted (blockId : Z)
| error (msg : string).

Inductive Level := warn | info | error_level.

(** [{ event: 'BlockProcessor.processTaskMessage', blockId, ..., collect_uid }] *)
Record LogRecord := {
  level : Level;
  log_blockId : Z;
  body : LogBody;
  log_collect_uid : string
}.

Record World := {
  db : Database;
  trx : Transaction;
  logs : list LogRecord
}.

Definition set_db (d : Database) (w : World) : World :=
  {| db := d; trx := trx w; logs := logs w |}.
Definition set_trx (t : Transaction) (w : World) : World :=
  {| db := db w; trx := t; logs := logs w |}.
Definition logger (l : Level) (blockId : Z) (b : LogBody) (uid : string) : M World unit :=
  modify (fun w => {| db := db w; trx := trx w;
                      logs := logs w ++ [ {| level := l; log_blockId := blockId;
                                             body := b; log_collect_uid := uid |} ] |}).

(** The chain connector and the configuration the service is built with. *)
Record HistoricalApi := {
  totalIssuance : response Z   (* query.balances.totalIssuance() *)
}.

Record Environment := {
  MAX_ATTEMPTS : Z;
  NETWORK_ID : Z;
  getBlockHash : Z -> response string;         (* rpc.chain.getBlockHash *)
  at_ : string -> response HistoricalApi;      (* polkadotApi.at(blockHash) *)
  now : Z                                      (* new Date() *)
}.

Definition completed_error : Error :=
  MkError "Transaction query already complete".

(** *** knex *)

(** [trx.rollback()]: drop the working copy. *)
Definition rollback : M World unit :=
  fun w =>
    match trx w with
    | Open _ => (Resolved tt, set_trx Completed w)
    | _ => (Rejected completed_error, w)
    end.

(** [trx.commit()]: install the working copy. *)
Definition commit : M World unit :=
  fun w =>
    match trx w with
    | Open work => (Resolved tt, set_trx Completed (set_db work w))
    | _ => (Rejected completed_error, w)
    end.

(** A query run with [.transacting(trx)]. *)
Definition transacting {A} (q : Database -> A * Database) : M World A :=
  fun w =>
    match trx w with
    | Open work => let '(a, work') := q work in (Resolved a, set_trx (Open work') w)
    | _ => (Rejected completed_error, w)
    end.

(** [knex.transaction(handler)]: BEGIN, run the handler, then COMMIT if it
    resolved and ROLLBACK if it rejected, unless the handler completed the
    transaction itself; an explicit [trx.rollback()] followed by a normal
    return resolves (knex's doNotRejectOnRollback). *)
Definition transaction {A} (handler : M World A) : M World A :=
  fun w =>
    let '(r, w1) := handler (set_trx (Open (db w)) w) in
    match r, trx w1 with
    | Resolved a, Open work => (Resolved a, set_trx NoTransaction (set_db work w1))
    | _, _ => (r, set_trx NoTransaction w1)
    end.

(** *** TasksRepository *)

Definition bump (t : ProcessingTask) : ProcessingTask :=
  {| entity := entity t; entity_id := entity_id t; status := status t;
     attempts := attempts t + 1; collect_uid := collect_uid t |}.

Definition mark_processed (t : ProcessingTask) : ProcessingTask :=
  {| entity := entity t; entity_id := entity_id t; status := PROCESSED;
     attempts := attempts t; collect_uid := collect_uid t |}.

Definition set_tasks (m : gmap (ENTITY * Z) ProcessingTask) (d : Database) : Database :=
  {| processing_tasks := m; total_issuance_rows := total_issuance_rows d |}.

(** Modelled from the spec: [TasksRepository.increaseAttempts] is not part
    of the sources at hand.  "Unconditionally increment attempts for the
    Work Item identified by (entity_kind, entity_id)"; it runs outside any
    transaction, directly on the store, and touches no row when there is
    none. *)
Definition increaseAttempts (e : ENTITY) (id : Z) : M World unit :=
  modify (fun w => set_db (set_tasks (alter bump (e, id) (processing_tasks (db w))) (db w)) w).

(** Modelled from the spec: [TasksRepository.readTaskAndLockRow] is not part
    of the sources at hand.  "Read-and-lock the Work Item row" inside the
    transaction; the row lock has no effect on a single processor. *)
Definition readTaskAndLockRow (e : ENTITY) (id : Z) : M World (option ProcessingTask) :=
  transacting (fun work => (processing_tasks work !! (e, id), work)).

(** Modelled from the spec: [TasksRepository.setTaskRecordAsProcessed] is
    not part of the sources at hand.  "Mark the Work Item PROCESSED", inside
    the transaction. *)
Definition setTaskRecordAsProcessed (t : ProcessingTask) : M World unit :=
  transacting (fun work =>
    (tt, set_tasks (alter mark_processed (entity t, entity_id t) (processing_tasks work)) work)).

(** [TotalIssuance(knex).transacting(trx).insert(row)] *)
Definition insertTotalIssuance (row : TotalIssuanceRow) : M World unit :=
  transacting (fun work =>
    (tt, {| processing_tasks := processing_tasks work;
            total_issuance_rows := total_issuance_rows work ++ [row] |})).

Section Service.
Variable environment : Environment.

(** [processBlock(blockId, trx)] *)
Definition processBlock (blockId : Z) : M World unit :=
  let* blockHash := await (getBlockHash environment blockId) in
  let* historicalApi := await (at_ environment blockHash) in
  let* totalIssuance := await (totalIssuance historicalApi) in
  insertTotalIssuance
    {| block_id := blockId;
       total_issuance := pretty totalIssuance;
       network_id := NETWORK_ID environment;
       row_time := now environment |}.

(** The handler passed to [knex.transaction]. *)
Definition handler (blockId : Z) (collect_uid' : string) : M World unit :=
  let* taskRecord := readTaskAndLockRow BLOCK_METADATA blockId in
  match taskRecord with
  | None =>
      rollback;;
      logger warn blockId (warning TaskRecordNotFound) collect_uid'
  | Some taskRecord =>
      if attempts taskRecord >? MAX_ATTEMPTS environment then
        rollback;;
        logger warn blockId (warning (MaxAttemptsReached blockId)) collect_uid'
      else if negb (bool_decide (collect_uid taskRecord = collect_uid')) then
        rollback;;
        logger warn blockId
          (warning (PossibleDuplication blockId collect_uid' (collect_uid taskRecord)))
          collect_uid'
      else if negb (bool_decide (status taskRecord = NOT_PROCESSED)) then
        rollback;;
        logger warn blockId (warning (AlreadyProcessed blockId)) collect_uid'
      else
        (* all is good, start processing *)
        logger info blockId (StartProcessing blockId) collect_uid';;
        let* newStakingProcessingTasks := processBlock blockId in
        setTaskRecordAsProcessed taskRecord;;
        commit;;
        logger info blockId (ProcessedAndCommitted blockId) collect_uid'
  end.

(** [processTaskMessage(message)] *)
Definition processTaskMessage (message : TaskMessage) : M World unit :=
  let blockId := message_entity_id message in
  let collect_uid' := message_collect_uid message in
  increaseAttempts BLOCK_METADATA blockId;;
  catch (transaction (handler blockId collect_uid'))
        (fun error' =>
           logger error_level blockId (error (Async.message error')) collect_uid';;
           throw error').

End Service.

End BlockMetadataProcessor.

(* ===================================================================== *)
(** ** StakingService *)
(* ===================================================================== *)

Module Staking.

Definition AccountId := string.
Definition TBlockHash := string.

Record IndividualExposure := { who : AccountId; value : Z }.

Record Exposure := {
  total : Z;
  own : Z;
  others : list IndividualExposure
}.

Inductive RewardDestination :=
| Staked | Stash | Controller | Account (a : AccountId) | NoDestination.

Definition isAccount (p : RewardDestination) : bool :=
  match p with Account _ => true | _ => false end.

Definition RewardDestination_toString (p : RewardDestination) : string :=
  match p with
  | Staked => "Staked"
  | Stash => "Stash"
  | Controller => "Controller"
  | Account a => a
  | NoDestination => "None"
  end.

Record EraRewardPoints := {
  total_points : Z;
  individual : list (AccountId * Z)      (* in the order [forEach] visits *)
}.

Record INominator := {
  n_era : Z;
  n_account_id : string;
  n_validator : string;
  is_clipped : bool;
  n_value : string;
  n_reward_dest : option string;
  n_reward_account_id : option AccountId
}.

Record IValidator := {
  v_era : Z;
  v_account_id : string;
  v_total : string;
  v_own : string;
  nominators_count : nat;
  reward_points : Z;
  v_reward_dest : option string;
  v_reward_account_id : option string;
  prefs : string
}.

Record IBlockEraParams := { eraId : Z; blockHash : TBlockHash }.

Record IGetValidatorsNominatorsResult := {
  nominators : list INominator;
  validators : list IValidator
}.

(** The chain reader.  Every query of this service is made at one fixed
    block hash, so an answer (or the failure to get one) is a function of
    the query. *)
Record PolkadotConnector := {
  erasRewardPoints : TBlockHash -> Z -> response EraRewardPoints;
  erasValidatorPrefs : TBlockHash -> Z -> AccountId -> response string;
  erasStakers : TBlockHash -> Z -> AccountId -> response Exposure;
  erasStakersClipped : TBlockHash -> Z -> AccountId -> response Exposure;
  payee : TBlockHash -> AccountId -> response (option RewardDestination)
}.

Inductive LogEntry :=
| debug_LoadedStakers (n : nat) (validator : AccountId)
| error_CannotProcessStaker (staker : AccountId) (e : Error) (block : TBlockHash)
| warn_FailedPayee (era : Z) (validator : AccountId) (block : TBlockHash).

(** The world of the service is its log. *)
Definition World := list LogEntry.

Definition log (e : LogEntry) : M World unit := modify (fun w => w ++ [e]).

(** [Set.prototype.add]: a JavaScript [Set] iterates in insertion order. *)
Definition Set_add (x : string) (s : list string) : list string :=
  if bool_decide (x ∈ s) then s else s ++ [x].

Definition with_payee (p : RewardDestination) (n : INominator) : INominator :=
  if negb (isAccount p) then
    {| n_era := n_era n; n_account_id := n_account_id n; n_validator := n_validator n;
       is_clipped := is_clipped n; n_value := n_value n;
       n_reward_dest := Some (RewardDestination_toString p);
       n_reward_account_id := n_reward_account_id n |}
  else
    {| n_era := n_era n; n_account_id := n_account_id n; n_validator := n_validator n;
       is_clipped := is_clipped n; n_value := n_value n;
       n_reward_dest := Some "Account";
       n_reward_account_id :=
         match p with Account a => Some a | _ => None end |}.

Section Service.
Variable polkadotConnector : PolkadotConnector.

Section Era.
Variable params : IBlockEraParams.
Variable eraRewardPointsMap : gmap string Z.

(** The body of [for (const staker of stakers.others)], with its
    [try]/[catch]. *)
Definition processStaker (validatorAccountId : string) (stakersClipped : Exposure)
    (nominators : list INominator) (staker : IndividualExposure)
    : M World (list INominator) :=
  catch
    (let isClipped :=
       List.find (fun e => bool_decide (who e = who staker)) (others stakersClipped) in
     let nominator :=
       {| n_era := eraId params;
          n_account_id := who staker;
          n_validator := validatorAccountId;
          is_clipped := match isClipped with Some _ => false | None => true end;
          n_value := pretty (value staker);
          n_reward_dest := None;
          n_reward_account_id := None |} in
     let* payee := await (payee polkadotConnector (blockHash params) (who staker)) in
     let nominator :=
       match payee with
       | Some p => with_payee p nominator
       | None => nominator
       end in
     ret (nominators ++ [nominator]))
    (fun e =>
       log (error_CannotProcessStaker (who staker) e (blockHash params));;
       ret nominators).

(** [processValidator(validatorAccountId, stakers, stakersClipped)];
    the two arrays it pushes to are threaded through. *)
Definition processValidator (acc : IGetValidatorsNominatorsResult)
    (validatorAccountId : string) (stakers stakersClipped : Exposure)
    : M World IGetValidatorsNominatorsResult :=
  let* prefs :=
    await (erasValidatorPrefs polkadotConnector (blockHash params) (eraId params)
               validatorAccountId) in
  log (debug_LoadedStakers (length (others stakers)) validatorAccountId);;
  let* nominators :=
    for_of (others stakers) (processStaker validatorAccountId stakersClipped)
           (nominators acc) in
  let* validatorPayee :=
    await (payee polkadotConnector (blockHash params) validatorAccountId) in
  let* (validatorRewardDest, validatorRewardAccountId) :=
    match validatorPayee with
    | Some p =>
        if negb (isAccount p) then ret (Some (RewardDestination_toString p), None)
        else ret (Some "Account", match p with Account a => Some a | _ => None end)
    | None =>
        log (warn_FailedPayee (eraId params) validatorAccountId (blockHash params));;
        ret (None, None)
    end in
  let pointsFromMap := default 0 (eraRewardPointsMap !! validatorAccountId) in
  let reward_points := pointsFromMap in
  ret {| nominators := nominators;
         validators := validators acc ++
           [ {| v_era := eraId params;
                v_account_id := validatorAccountId;
                v_total := pretty (total stakers);
                v_own := pretty (own stakers);
                nominators_count := length (others stakers);
                reward_points := reward_points;
                v_reward_dest := validatorRewardDest;
                v_reward_account_id := validatorRewardAccountId;
                prefs := prefs |} ] |}.

(** The body of [for (const validatorAccountId of validatorsAccountIdSet)]. *)
Definition eachValidator (acc : IGetValidatorsNominatorsResult)
    (validatorAccountId : string) : M World IGetValidatorsNominatorsResult :=
  let* (stakers, stakersClipped) :=
    Promise_all2
      (await (erasStakers polkadotConnector (blockHash params) (eraId params)
                  validatorAccountId))
      (await (erasStakersClipped polkadotConnector (blockHash params) (eraId params)
                  validatorAccountId)) in
  processValidator acc validatorAccountId stakers stakersClipped.
End Era.

(** [eraRewardPointsRaw.individual.forEach(...)] *)
Definition collectRewardPoints (individual : list (AccountId * Z))
    : list string * gmap string Z :=
  fold_left
    (fun sets entry =>
       let '(validatorsAccountIdSet, eraRewardPointsMap) := sets in
       let '(accountId, rewardPoints) := entry in
       (Set_add accountId validatorsAccountIdSet,
        <[accountId := rewardPoints]> eraRewardPointsMap))
    individual ([], ∅).

(** [getValidatorsAndNominatorsData({ blockHash, eraId })] *)
Definition getValidatorsAndNominatorsData (params : IBlockEraParams)
    : M World IGetValidatorsNominatorsResult :=
  let* eraRewardPointsRaw :=
    await (erasRewardPoints polkadotConnector (blockHash params) (eraId params)) in
  let '(validatorsAccountIdSet, eraRewardPointsMap) :=
    collectRewardPoints (individual eraRewardPointsRaw) in
  for_of validatorsAccountIdSet (eachValidator params eraRewardPointsMap)
         {| nominators := []; validators := [] |}.

End Service.

End Staking.

(* ===================================================================== *)
(** ** BlocksService *)
(* ===================================================================== *)

Module Blocks.

Definition BlockHash := string.

(** *** Chain data *)

Record Header := {
  number : Z;
  hash : string;
  stateRoot : string;
  extrinsicsRoot : string;
  parentHash : string;
  digest_logs : list string;        (* the [type] of every digest log *)
  digest : string
}.

Record SignedBlock := {
  header : Header;
  extrinsics : list string
}.

Record ExtHeader := {
  author : option string;
  isEmpty : bool
}.

Record EventRecord := {
  section : string;
  method : string;
  phase : string;
  meta : string;
  typeDef : list string;            (* [type] of every [event.typeDef] entry *)
  data : list string;
  toJSON : string
}.

(** The tuple [getInfoToProcessBlock] resolves with. *)
Record BlockInfo := {
  sessionId : Z;
  blockCurrentEra : Z;
  activeEra : option Z;             (* Option<ActiveEraInfo>, its [index] *)
  signedBlock : option SignedBlock;
  extHeader : option ExtHeader;
  blockTime : Z;
  events : list EventRecord
}.

(** The tuple [getInfoToCheckHistoryDepth] resolves with; the outer [option]
    is JavaScript's null, the inner one the chain's [Option]. *)
Record HistoryInfo := {
  h_sessionId : option Z;
  h_activeEra : option (option Z);
  h_extHeader : option ExtHeader
}.

(** *** Records the service produces *)

Record IEvent := {
  id : Z * nat;                     (* [`${blockNumber}-${eventIndex}`] *)
  e_section : string;
  e_method : string;
  e_phase : string;
  e_meta : string;
  e_data : list (string * string);
  e_event : string
}.

Record IBlockData := {
  b_number : Z;
  b_hash : string;
  b_author : string;
  session_id : Z;
  currentEra : Z;
  era : Z;
  b_stateRoot : string;
  b_extrinsicsRoot : string;
  b_parentHash : string;
  last_log : string;
  b_digest : string;
  b_events : list IEvent;
  block_time : Z
}.

Record IBlocksStatusResult := {
  status : string;
  height_diff : Z;
  fin_height_diff : Z
}.

Record TrimResult := { result : bool }.

(** *** Collaborators

    The chain node, the broker, the extrinsics service and the block
    repository answer differently over time (the head moves, a request that
    failed succeeds on retry): each answer depends on the moment of the
    request, a clock the world advances at every request.  The order in
    which answers and timers come back, and so the order in which the event
    loop resumes the jobs of a chunk, is theirs too: [resumesFirst t i n]
    tells, for the chunk awaited at moment [t], whether the job at index [i]
    is resumed before the jobs after it, once these jobs have run [n]
    pieces. *)
Record Collaborators := {
  (* PolkadotModule *)
  getBlockHashByHeight : nat -> Z -> response (option BlockHash);
  getFinBlockNumber : nat -> response Z;
  getHeader : nat -> response Header;
  getHistoryDepth : nat -> BlockHash -> response Z;
  getCurrentRawEra : nat -> option BlockHash -> response (option (option Z));
  getInfoToProcessBlock : nat -> BlockHash -> response BlockInfo;
  getInfoToCheckHistoryDepth : nat -> BlockHash -> response HistoryInfo;
  (* KafkaModule *)
  sendBlockData : nat -> IBlockData -> response unit;
  (* ExtrinsicsService *)
  extractExtrinsics : nat -> Z -> Z -> Z -> list EventRecord -> list string -> response unit;
  (* BlockRepository *)
  getLastProcessedBlock : nat -> response Z;
  removeBlockData : nat -> list Z -> response unit;
  trimBlocksFrom : nat -> Z -> response unit;
  (* the event loop *)
  resumesFirst : nat -> nat -> nat -> bool
}.

Inductive Level := debug | info | warn | error.

Inductive LogMessage :=
| FailedToProcessBlock (blockNumber : Z) (e : Error)
| ProcessBlockWithHash (number : Z) (hash : string)
| CannotGetBlockHash (blockNumber : Z)
| CannotGetCurrentEraByHash (blockHash : BlockHash)
| LessThanHistoryDepth (historyDepth : Z)
| CannotGetSessionId (blockNumber : Z) (blockHash : BlockHash)
| CannotGetActiveEra (blockNumber : Z) (blockHash : BlockHash)
| CannotGetExtHeader (blockNumber : Z) (blockHash : BlockHash)
| StartingProcessBlocks (startBlockNumber : Z)
| ProcessingBlocksToHead (startBlockNumber lastBlockNumber : Z)
| CannotReceiveStorageData
| FailedToGetBlockDiff (e : Error)
| FailedSetupTrim
| FailedToExecuteTrim (e : Error)
| WorkerFailed (workerId blockNumber : Z) (e : Error).

(** What the service does to the outside, in the order it does it. *)
Inductive Effect :=
| Log (l : Level) (m : LogMessage)
| Sleep (ms : Z)                                         (* setTimeout *)
| SendBlockData (b : IBlockData)                         (* kafka *)
| ExtractExtrinsics (era sessionId number : Z)           (* extrinsicsService *)
| AddToQueue (eraPayoutEvent : EventRecord) (blockHash : BlockHash)   (* stakingService *)
| CounterInc (n : Z)                                     (* statcollector *)
| RemoveBlockData (blockNumbers : list Z)                (* blockRepository *)
| TrimBlocksFrom (startBlockNumber : Z)                  (* blockRepository *)
| SubscribeFinalizedHeads                                (* consumerService *)
(* call markers: they stand for no statement of the source and only record
   that the function was entered *)
| Enter_runBlocksWorker (workerId blockNumber : Z)
| Enter_processBlock (height : option Z).

Record World := {
  locked : bool;                    (* SyncStatus *)
  clock : nat;
  trace : list Effect
}.

Definition emit (e : Effect) : M World unit :=
  modify (fun w => {| locked := locked w; clock := clock w; trace := trace w ++ [e] |}).

Definition logger (l : Level) (m : LogMessage) : M World unit := emit (Log l m).

(** A request to a collaborator: answered as of now, and time moves on. *)
Definition request {A} (answer : nat -> response A) : M World A :=
  fun w => await (answer (clock w))
                 {| locked := locked w; clock := S (clock w); trace := trace w |}.

(** Modelled from the spec: [SyncStatus] (exported by [../index]) is not
    part of the sources at hand.  It is the exclusive sync lock, "a single
    process-wide boolean (locked/unlocked)": [acquire] takes it when it is
    free and otherwise waits, the function [acquire] resolves with releases
    it, [isLocked] reads it. *)
Definition SyncStatus_acquire : M World unit :=
  fun w =>
    if locked w then (Pending, w)
    else (Resolved tt, {| locked := true; clock := clock w; trace := trace w |}).

Definition release : M World unit :=
  modify (fun w => {| locked := false; clock := clock w; trace := trace w |}).

Definition SyncStatus_isLocked : M World bool := gets locked.

(** [Option.unwrap()] *)
Definition unwrap {A} (o : option A) : M World A :=
  match o with
  | Some a => ret a
  | None => throw (MkError "Option: unwrapping a None value")
  end.

Definition TypeError : Error := MkError "TypeError".

(** [sleep(ms)] *)
Definition sleep (ms : Z) : M World unit := emit (Sleep ms).

Section Service.
Variable collaborators : Collaborators.

(** [extractEventData]: [types[index].type] throws when [types] is too
    short. *)
Definition extractEventData (types : list string) (eventDataRaw : list string)
    : option (list (string * string)) :=
  mapM (fun '(index, data) => (fun type => (type, data)) <$> types !! index)
       (imap pair eventDataRaw).

(** [processEvents(blockNumber, events)] *)
Definition processEvents (blockNumber : Z) (events : list EventRecord)
    : M World (list IEvent) :=
  let processEvent (eventIndex : nat) (record : EventRecord) : option IEvent :=
    data' ← extractEventData (typeDef record) (data record);
    Some {| id := (blockNumber, eventIndex);
            e_section := section record;
            e_method := method record;
            e_phase := phase record;
            e_meta := meta record;
            e_data := data';
            e_event := toJSON record |} in
  match mapM (fun '(eventIndex, record) => processEvent eventIndex record)
             (imap pair events) with
  | Some acc => ret acc
  | None => throw TypeError
  end.

(** [processBlock(height)] *)
Definition processBlock (height : option Z) : M World unit :=
  emit (Enter_processBlock height);;
  match height with
  | None => throw (MkError "empty height and blockHash")
  | Some height =>
      let* blockHash := request (fun t => getBlockHashByHeight collaborators t height) in
      match blockHash with
      | None => throw (MkError "cannot get block hash")
      | Some blockHash =>
          let* blockInfo := request (fun t => getInfoToProcessBlock collaborators t blockHash) in
          let currentEra := blockCurrentEra blockInfo in
          let* era := unwrap (activeEra blockInfo) in
          match signedBlock blockInfo with
          | None => throw (MkError "cannot get block")
          | Some signedBlock =>
              let* processedEvents :=
                processEvents (number (header signedBlock)) (events blockInfo) in
              let lastDigestLogEntry :=
                Z.of_nat (length (digest_logs (header signedBlock))) - 1 in
              let blockData :=
                {| b_number := number (header signedBlock);
                   b_hash := hash (header signedBlock);
                   b_author :=
                     match extHeader blockInfo with
                     | Some {| author := Some a |} => a
                     | _ => ""
                     end;
                   session_id := sessionId blockInfo;
                   currentEra := currentEra;
                   era := era;
                   b_stateRoot := stateRoot (header signedBlock);
                   b_extrinsicsRoot := extrinsicsRoot (header signedBlock);
                   b_parentHash := parentHash (header signedBlock);
                   last_log :=
                     if lastDigestLogEntry >? -1
                     then default "" (digest_logs (header signedBlock)
                                        !! Z.to_nat lastDigestLogEntry)
                     else "";
                   b_digest := digest (header signedBlock);
                   b_events := processedEvents;
                   block_time := blockTime blockInfo |} in
              logger info (ProcessBlockWithHash (b_number blockData) (b_hash blockData));;
              emit (SendBlockData blockData);;
              request (fun t => sendBlockData collaborators t blockData);;
              emit (ExtractExtrinsics era (sessionId blockInfo) (number (header signedBlock)));;
              request (fun t => extractExtrinsics collaborators t era (sessionId blockInfo)
                                  (number (header signedBlock)) (events blockInfo)
                                  (extrinsics signedBlock));;
              let findEraPayoutEvent (events : list EventRecord) :=
                List.find (fun event =>
                             bool_decide (section event = "staking") &&
                             bool_decide (method event = "EraPayout")) events in
              let eraPayoutEvent := findEraPayoutEvent (events blockInfo) in
              match eraPayoutEvent with
              | Some eraPayoutEvent => emit (AddToQueue eraPayoutEvent blockHash)
              | None => ret tt
              end;;
              emit (CounterInc 1)
          end
      end
  end.

(** [updateOneBlock(blockNumber)] *)
Definition updateOneBlock (blockNumber : Z) : M World bool :=
  catch (processBlock (Some blockNumber))
        (fun error' =>
           logger error (FailedToProcessBlock blockNumber error');;
           throw (MkError "cannot process block"));;
  ret true.

(** [checkHistoryDepthAvailableData(blockNumber)] *)
Definition checkHistoryDepthAvailableData (blockNumber : Z) : M World bool :=
  let* blockHash := request (fun t => getBlockHashByHeight collaborators t blockNumber) in
  match blockHash with
  | None =>
      logger error (CannotGetBlockHash blockNumber);;
      ret false
  | Some blockHash =>
      let* historyDepth := request (fun t => getHistoryDepth collaborators t blockHash) in
      let* currentRawEra := request (fun t => getCurrentRawEra collaborators t None) in
      let* blockRawEra :=
        request (fun t => getCurrentRawEra collaborators t (Some blockHash)) in
      match blockRawEra with
      | None =>
          logger error (CannotGetCurrentEraByHash blockHash);;
          ret false
      | Some blockRawEra =>
          (* parseInt of the text of a None is NaN, and no comparison
             with NaN holds *)
          let blockEra : option Z := blockRawEra in
          let* currentEra :=
            match currentRawEra with
            | Some o => unwrap o
            | None => throw TypeError
            end in
          if match blockEra with
             | Some blockEra => currentEra - blockEra >? historyDepth
             | None => false
             end
          then
            logger info (LessThanHistoryDepth historyDepth);;
            let* historyInfo :=
              request (fun t => getInfoToCheckHistoryDepth collaborators t blockHash) in
            let hasError := false in
            let* hasError :=
              match h_sessionId historyInfo with
              | None =>
                  logger error (CannotGetSessionId blockNumber blockHash);;
                  ret true
              | Some _ => ret hasError
              end in
            let* hasError :=
              match h_activeEra historyInfo with
              | None | Some None =>
                  logger error (CannotGetActiveEra blockNumber blockHash);;
                  ret true
              | Some (Some _) => ret hasError
              end in
            let* hasError :=
              match h_extHeader historyInfo with
              | None =>
                  logger error (CannotGetExtHeader blockNumber blockHash);;
                  ret true
              | Some h =>
                  if isEmpty h then
                    logger error (CannotGetExtHeader blockNumber blockHash);;
                    ret true
                  else ret hasError
              end in
            if hasError then ret false else ret true
          else ret true
      end
  end.



(** *** The jobs of a chunk

    The jobs of a chunk are in flight together, so for them the places
    where [processBlock] and [runBlocksWorker] wait matter: the same code
    again, with every [await] marked.  A call of [processBlock_job] or
    [runBlocksWorker_job] with nothing beside it is the call above
    ([BlocksSpec.processBlock_alone], [BlocksSpec.runBlocksWorker_alone]). *)

Local Open Scope job_scope.

(** [processBlock(height)], as a job *)
Definition processBlock_job (height : option Z) : Job World unit :=
  Jobs.sync (emit (Enter_processBlock height));;
  match height with
  | None => Jobs.throw (MkError "empty height and blockHash")
  | Some height =>
      let* blockHash :=
        Jobs.await (Jobs.sync (request (fun t => getBlockHashByHeight collaborators t height))) in
      match blockHash with
      | None => Jobs.throw (MkError "cannot get block hash")
      | Some blockHash =>
          let* blockInfo :=
            Jobs.await
              (Jobs.sync (request (fun t => getInfoToProcessBlock collaborators t blockHash))) in
          let currentEra := blockCurrentEra blockInfo in
          let* era := Jobs.sync (unwrap (activeEra blockInfo)) in
          match signedBlock blockInfo with
          | None => Jobs.throw (MkError "cannot get block")
          | Some signedBlock =>
              let* processedEvents :=
                Jobs.await
                  (Jobs.sync (processEvents (number (header signedBlock)) (events blockInfo))) in
              let lastDigestLogEntry :=
                Z.of_nat (length (digest_logs (header signedBlock))) - 1 in
              let blockData :=
                {| b_number := number (header signedBlock);
                   b_hash := hash (header signedBlock);
                   b_author :=
                     match extHeader blockInfo with
                     | Some {| author := Some a |} => a
                     | _ => ""
                     end;
                   session_id := sessionId blockInfo;
                   currentEra := currentEra;
                   era := era;
                   b_stateRoot := stateRoot (header signedBlock);
                   b_extrinsicsRoot := extrinsicsRoot (header signedBlock);
                   b_parentHash := parentHash (header signedBlock);
                   last_log :=
                     if lastDigestLogEntry >? -1
                     then default "" (digest_logs (header signedBlock)
                                        !! Z.to_nat lastDigestLogEntry)
                     else "";
                   b_digest := digest (header signedBlock);
                   b_events := processedEvents;
                   block_time := blockTime blockInfo |} in
              Jobs.sync (logger info (ProcessBlockWithHash (b_number blockData)
                                        (b_hash blockData)));;
              Jobs.sync (emit (SendBlockData blockData));;
              Jobs.await (Jobs.sync (request (fun t => sendBlockData collaborators t blockData)));;
              Jobs.sync (emit (ExtractExtrinsics era (sessionId blockInfo)
                                 (number (header signedBlock))));;
              Jobs.await
                (Jobs.sync (request (fun t => extractExtrinsics collaborators t era
                                                (sessionId blockInfo)
                                                (number (header signedBlock))
                                                (events blockInfo)
                                                (extrinsics signedBlock))));;
              let findEraPayoutEvent (events : list EventRecord) :=
                List.find (fun event =>
                             bool_decide (section event = "staking") &&
                             bool_decide (method event = "EraPayout")) events in
              let eraPayoutEvent := findEraPayoutEvent (events blockInfo) in
              match eraPayoutEvent with
              | Some eraPayoutEvent => Jobs.sync (emit (AddToQueue eraPayoutEvent blockHash))
              | None => Jobs.ret tt
              end;;
              Jobs.sync (emit (CounterInc 1))
          end
      end
  end.

(** The body of [for (let attempts = 5; attempts > 0; attempts--)], as a
    job. *)
Fixpoint runBlocksWorker_for_job (attempts : nat) (workerId blockNumber : Z)
    : Job World bool :=
  match attempts with
  | O => Jobs.ret false
  | S attempts' =>
      let* lastError :=
        Jobs.await
          (Jobs.catch (processBlock_job (Some blockNumber);; Jobs.ret None)
                      (fun error' =>
                         Jobs.sync (logger error (WorkerFailed workerId blockNumber error'));;
                         Jobs.ret (Some error'))) in
      match lastError with
      | None => Jobs.ret true
      | Some _ =>
          Jobs.await (Jobs.sync (sleep 2000));;
          runBlocksWorker_for_job attempts' workerId blockNumber
      end
  end.

(** [runBlocksWorker(workerId, blockNumber)], as a job *)
Definition runBlocksWorker_job (workerId blockNumber : Z) : Job World bool :=
  Jobs.sync (emit (Enter_runBlocksWorker workerId blockNumber));;
  runBlocksWorker_for_job 5 workerId blockNumber.

Local Close Scope job_scope.

(** The order in which the event loop resumes the jobs of the chunk that is
    awaited in world [w]. *)
Definition eventLoop (w : World) (i n : nat) : bool :=
  resumesFirst collaborators (clock w) i n.

(** [lastBlockNumber - blockNumber >= 10 ? 10 : (lastBlockNumber - blockNumber) % 10] *)
Definition chunk (lastBlockNumber blockNumber : Z) : Z :=
  if lastBlockNumber - blockNumber >=? 10 then 10
  else Z.rem (lastBlockNumber - blockNumber) 10.

(** [Array(chunk).fill('').map((_, i) => this.runBlocksWorker(i + 1, blockNumber + i))] *)
Definition processTasks (chunk blockNumber : Z) : M World (list (Task World bool)) :=
  calls (List.map (fun i : nat => runBlocksWorker_job (Z.of_nat i + 1)
                                    (blockNumber + Z.of_nat i))
                  (seq 0 (Z.to_nat chunk))).

(** [while (blockNumber <= lastBlockNumber) { ... }]; a run that needs
    more than [fuel] iterations is still pending. *)
Fixpoint processBlocks_while (fuel : nat) (blockNumber lastBlockNumber : Z) : M World unit :=
  match fuel with
  | O => pending
  | S fuel' =>
      if blockNumber <=? lastBlockNumber then
        let chunk := chunk lastBlockNumber blockNumber in
        let* processTasks := processTasks chunk blockNumber in
        Promise_all eventLoop processTasks;;
        let blockNumber := blockNumber + 10 in
        let* lastBlockNumber :=
          if blockNumber >? lastBlockNumber
          then request (getFinBlockNumber collaborators)
          else ret lastBlockNumber in
        processBlocks_while fuel' blockNumber lastBlockNumber
      else ret tt
  end.

(** [processBlocks(startBlockNumber = null, optionSubscribeFinHead = null)] *)
Definition processBlocks (fuel : nat) (startBlockNumber : option Z)
    (optionSubscribeFinHead : option bool) : M World unit :=
  SyncStatus_acquire;;
  let* startBlockNumber :=
    match startBlockNumber with
    | None => request (getLastProcessedBlock collaborators)
    | Some n => ret n
    end in
  logger info (StartingProcessBlocks startBlockNumber);;
  let* lastBlockNumber := request (getFinBlockNumber collaborators) in
  logger info (ProcessingBlocksToHead startBlockNumber lastBlockNumber);;
  let blockNumber := startBlockNumber in
  let* available := checkHistoryDepthAvailableData startBlockNumber in
  if negb available then
    logger error CannotReceiveStorageData;;
    release
  else
    processBlocks_while fuel blockNumber lastBlockNumber;;
    release;;
    match optionSubscribeFinHead with
    | Some true => emit SubscribeFinalizedHeads
    | _ => ret tt
    end.

(** [getBlocksStatus()] *)
Definition getBlocksStatus : M World IBlocksStatusResult :=
  let result' := {| status := "undefined"; height_diff := -1; fin_height_diff := -1 |} in
  let* isLocked := SyncStatus_isLocked in
  let result' :=
    if isLocked
    then {| status := "synchronization";
            height_diff := height_diff result'; fin_height_diff := fin_height_diff result' |}
    else {| status := "synchronized";
            height_diff := height_diff result'; fin_height_diff := fin_height_diff result' |} in
  catch
    (let* lastBlockNumber := request (getFinBlockNumber collaborators) in
     let* lastHeader := request (getHeader collaborators) in
     let* lastLocalNumber := request (getLastProcessedBlock collaborators) in
     ret {| status := status result';
            height_diff := lastBlockNumber - lastLocalNumber;
            fin_height_diff := number lastHeader - lastBlockNumber |})
    (fun err =>
       logger error (FailedToGetBlockDiff err);;
       ret result').

(** [removeBlocks(blockNumbers)] *)
Definition removeBlocks (blockNumbers : list Z) : M World TrimResult :=
  emit (RemoveBlockData blockNumbers);;
  request (fun t => removeBlockData collaborators t blockNumbers);;
  ret {| result := true |}.

(** [trimAndUpdateToFinalized(startBlockNumber)] *)
Definition trimAndUpdateToFinalized (fuel : nat) (startBlockNumber : Z) : M World TrimResult :=
  let* isLocked := SyncStatus_isLocked in
  if isLocked then
    logger error FailedSetupTrim;;
    ret {| result := false |}
  else
    catch
      (emit (TrimBlocksFrom startBlockNumber);;
       request (fun t => trimBlocksFrom collaborators t startBlockNumber);;
       processBlocks fuel (Some startBlockNumber) None)
      (fun err => logger error (FailedToExecuteTrim err));;
    ret {| result := true |}.

End Service.

End Blocks.

(* ===================================================================== *)
(** ** StakingService: the era payout job *)
(* ===================================================================== *)

Module Payout.
Import Staking.

(** The data of a [staking.EraPayout] event, which the chain types as the
    triple (EraIndex, Balance, Balance); the job reads its first entry. *)
Record EraPayoutData := {
  era_index : Z;
  validator_payout : Z;
  remainder : Z
}.

Record IProcessEraPayload := {
  eraPayoutEvent : EraPayoutData;
  p_blockHash : TBlockHash
}.

Record IEraData := {
  era : Z;
  total_reward : string;
  total_stake : string;
  total_reward_points : Z;
  session_start : Z
}.

(** The queries of the job that [getValidatorsAndNominatorsData] does not
    make.  The reward and the stake are only used through [toString()], so
    their answers are these strings. *)
Record EraQueries := {
  timestamp_now : TBlockHash -> response Z;
  erasValidatorReward : TBlockHash -> Z -> response string;
  erasTotalStake : TBlockHash -> Z -> response string;
  erasStartSessionIndex : TBlockHash -> Z -> response (option Z)
}.

(** The values [JSON.stringify] is applied to. *)
Inductive Payload :=
| EraDataJSON (eraData : IEraData)
| SessionDataJSON (era : Z) (validators : list (IValidator * Z))
    (nominators : list (INominator * Z)) (block_time : Z).

Record Message := { m_key : option string; m_value : Payload }.

Record ProducerRecord := { topic : string; messages : list Message }.

(** The Kafka producer: what it answers to [send] of a record. *)
Record Producer := { send : ProducerRecord -> response unit }.

(** What the job does to the outside, in order: the lines of the
    application log (those of [getValidatorsAndNominatorsData] among them),
    the records the broker has accepted, the console and the callback of
    the queue. *)
Inductive Effect :=
| Log_debug (text : string)
| Log_error (text : string) (e : Error)
| Staking_log (l : LogEntry)
| Sent (record : ProducerRecord)
| Console_log (text : string)
| Callback_null.

Definition World := list Effect.

Definition emit (e : Effect) : M World unit := modify (fun w => w ++ [e]).

(** A call into the part of the service that only writes log lines: its
    lines are appended to the log of the job. *)
Definition in_staking {A} (m : M Staking.World A) : M World A :=
  fun w => let '(r, l) := m [] in (r, w ++ List.map Staking_log l).

(** [Option.unwrap()] *)
Definition unwrap {A} (o : option A) : M World A :=
  match o with
  | Some a => ret a
  | None => throw (MkError "Option: unwrapping a None value")
  end.

(** How the outcomes of promises that are all in flight join, two at a
    time. *)
Definition both {A B} (r : outcome A) (r' : outcome B) : outcome (A * B) :=
  match r, r' with
  | Rejected e, _ => Rejected e
  | _, Rejected e => Rejected e
  | Pending, _ => Pending
  | _, Pending => Pending
  | Resolved a, Resolved b => Resolved (a, b)
  end.

(** [Promise.all([p, q, r, s])] with the four results destructured, as
    [Promise_all2]. *)
Definition Promise_all4 {W A B C D} (p : M W A) (q : M W B) (r : M W C) (s : M W D)
    : M W (A * B * C * D) :=
  fun w =>
    let '(a, w1) := p w in
    let '(b, w2) := q w1 in
    let '(c, w3) := r w2 in
    let '(d, w4) := s w3 in
    (both (both (both a b) c) d, w4).

Section Service.
Variable KAFKA_PREFIX : string.
Variable polkadotConnector : PolkadotConnector.
Variable queries : EraQueries.
Variable kafkaProducer : Producer.

(** [kafkaProducer.send(record)] *)
Definition kafkaProducer_send (record : ProducerRecord) : M World unit :=
  let* _ := await (send kafkaProducer record) in
  emit (Sent record).

(** [getEraData({ eraId, blockHash })] *)
Definition getEraData (params : IBlockEraParams) : M World IEraData :=
  let* (totalReward, erasRewardPoints, totalStake, sessionStart) :=
    Promise_all4
      (await (erasValidatorReward queries (blockHash params) (eraId params)))
      (await (Staking.erasRewardPoints polkadotConnector (blockHash params) (eraId params)))
      (await (erasTotalStake queries (blockHash params) (eraId params)))
      (await (erasStartSessionIndex queries (blockHash params) (eraId params))) in
  let* session_start := unwrap sessionStart in
  ret {| era := eraId params;
         total_reward := totalReward;
         total_stake := totalStake;
         total_reward_points := total_points erasRewardPoints;
         session_start := session_start |}.

(** [processEraPayout({ eraPayoutEvent, blockHash }, cb)] *)
Definition processEraPayout (payload : IProcessEraPayload) : M World unit :=
  let eraId := era_index (eraPayoutEvent payload) in
  let blockHash := p_blockHash payload in
  emit (Log_debug ("Process payout for era: " +:+ pretty eraId));;
  let* blockTime := await (timestamp_now queries blockHash) in
  let* eraData := getEraData {| eraId := eraId; blockHash := blockHash |} in
  let* result :=
    in_staking (getValidatorsAndNominatorsData polkadotConnector
                  {| eraId := eraId; blockHash := blockHash |}) in
  catch
    (kafkaProducer_send
       {| topic := KAFKA_PREFIX +:+ "_STAKING_ERAS_DATA";
          messages := [ {| m_key := Some (pretty (era eraData));
                           m_value := EraDataJSON eraData |} ] |})
    (fun error =>
       emit (Log_error "failed to push era data: " error);;
       throw (MkError "cannot push session data to Kafka"));;
  catch
    (kafkaProducer_send
       {| topic := KAFKA_PREFIX +:+ "_SESSION_DATA";
          messages :=
            [ {| m_key := None;
                 m_value :=
                   SessionDataJSON eraId
                     (List.map (fun validator => (validator, blockTime)) (validators result))
                     (List.map (fun nominator => (nominator, blockTime)) (nominators result))
                     blockTime |} ] |})
    (fun error =>
       emit (Log_error "failed to push session data: " error);;
       throw (MkError "cannot push session data to Kafka"));;
  emit (Console_log "ERA STAKING FINISHED ----------------------");;
  emit Callback_null.

End Service.

End Payout.

(* ===================================================================== *)
(** ** apps/main/environment.ts *)
(* ===================================================================== *)

Module MainEnvironment.

(** [process.env]: a variable is a string, or is not set. *)
Definition ProcessEnv := gmap string string.

(** [a || b] on a variable: the empty string is falsy. *)
Definition or_else (a : option string) (b : string) : string :=
  match a with
  | Some s => if bool_decide (s = "") then b else s
  | None => b
  end.

(** [Boolean(a)] on a variable. *)
Definition Boolean (a : option string) : bool :=
  match a with
  | Some s => negb (bool_decide (s = ""))
  | None => false
  end.

(** [a ?? b] on a variable. *)
Definition nullish (a : option string) (b : string) : string :=
  match a with
  | Some s => s
  | None => b
  end.

Section Numbers.
(** JavaScript numbers, as far as this file needs them: the conversion
    [Number(a)] of a variable, which numbers are truthy, and the literal
    [3000]. *)
Variable number : Type.
Variable Number : option string -> number.
Variable truthy : number -> bool.
Variable n3000 : number.

Record Environment := {
  PG_CONNECTION_STRING : option string;
  LOG_LEVEL : string;
  APP_ID : option string;
  SUBSTRATE_URI : option string;
  PROCESS_EXTRINSICS : bool;
  PROCESS_EVENTS : bool;
  REST_API_PORT : number;
  REST_API_BASIC_AUTH_PASSWORD : string
}.

(** [process.env.NODE_ENV = process.env.NODE_ENV || 'development'] *)
Definition default_NODE_ENV (env : ProcessEnv) : ProcessEnv :=
  <["NODE_ENV" := or_else (env !! "NODE_ENV") "development"]> env.

(** [export const environment = { ... }], from [process.env] as it is when
    the object is built. *)
Definition environment (env : ProcessEnv) : Environment :=
  {| PG_CONNECTION_STRING := env !! "PG_CONNECTION_STRING";
     LOG_LEVEL := or_else (env !! "LOG_LEVEL") "info";
     APP_ID := env !! "APP_ID";
     SUBSTRATE_URI := env !! "SUBSTRATE_URI";
     PROCESS_EXTRINSICS := Boolean (env !! "PROCESS_EXTRINSICS") || true;
     PROCESS_EVENTS := Boolean (env !! "PROCESS_EVENTS") || false;
     REST_API_PORT :=
       if truthy (Number (env !! "REST_API_PORT")) then Number (env !! "REST_API_PORT")
       else n3000;
     REST_API_BASIC_AUTH_PASSWORD :=
       nullish (env !! "REST_API_BASIC_AUTH_PASSWORD") "password" |}.
End Numbers.

End MainEnvironment.

(* ===================================================================== *)
(** ** Concrete inputs *)
(* ===================================================================== *)

Module Examples.

Module Task.
Import BlockMetadataProcessor.

(** A chain that answers every request. *)
Definition chain : Environment :=
  {| MAX_ATTEMPTS := 5;
     NETWORK_ID := 1284;
     getBlockHash := fun n => Returns ("0x" +:+ pretty n);
     at_ := fun _ => Returns {| totalIssuance := Returns 1000 |};
     now := 0 |}.

(** A chain whose historical state cannot be read. *)
Definition pruned_chain : Environment :=
  {| MAX_ATTEMPTS := 5;
     NETWORK_ID := 1284;
     getBlockHash := fun n => Returns ("0x" +:+ pretty n);
     at_ := fun _ => Throws (MkError "State already discarded");
     now := 0 |}.

Definition task7 (n : Z) (uid : string) (s : PROCESSING_STATUS) : ProcessingTask :=
  {| entity := BLOCK_METADATA; entity_id := 7; status := s;
     attempts := n; collect_uid := uid |}.

Definition store (t : ProcessingTask) : World :=
  {| db := {| processing_tasks := {[ (entity t, entity_id t) := t ]};
              total_issuance_rows := [] |};
     trx := NoTransaction;
     logs := [] |}.

Definition delivery (uid : string) : TaskMessage :=
  {| message_entity_id := 7; message_collect_uid := uid |}.

(** A store without any Work Item. *)
Definition empty_store : World :=
  {| db := {| processing_tasks := ∅; total_issuance_rows := [] |};
     trx := NoTransaction;
     logs := [] |}.
End Task.

Module Era.
Import Staking.

(** Two validators.  V1 has stakers A, B and C, of which only A and B are
    in its clipped exposure; V2 has the single staker D.  The payee of B
    cannot be read. *)
Definition connector : PolkadotConnector :=
  {| erasRewardPoints := fun _ _ =>
       Returns {| total_points := 150; individual := [("V1", 100); ("V2", 50)] |};
     erasValidatorPrefs := fun _ _ _ => Returns "{}";
     erasStakers := fun _ _ validator =>
       if bool_decide (validator = "V1")
       then Returns {| total := 70; own := 10;
                       others := [ {| who := "A"; value := 10 |};
                                   {| who := "B"; value := 20 |};
                                   {| who := "C"; value := 30 |} ] |}
       else Returns {| total := 6; own := 1; others := [ {| who := "D"; value := 5 |} ] |};
     erasStakersClipped := fun _ _ validator =>
       if bool_decide (validator = "V1")
       then Returns {| total := 70; own := 10;
                       others := [ {| who := "A"; value := 10 |};
                                   {| who := "B"; value := 20 |} ] |}
       else Returns {| total := 6; own := 1; others := [ {| who := "D"; value := 5 |} ] |};
     payee := fun _ account =>
       if bool_decide (account = "B") then Throws (MkError "disconnected")
       else if bool_decide (account = "V1") then Returns (Some (Account "X"))
       else if bool_decide (account = "V2") then Returns None
       else Returns (Some Staked) |}.

Definition era42 : IBlockEraParams := {| eraId := 42; blockHash := "0xabc" |}.

(** The same two validators, but the preferences of V2 cannot be read. *)
Definition lost_prefs : PolkadotConnector :=
  {| erasRewardPoints := erasRewardPoints connector;
     erasValidatorPrefs := fun _ _ validator =>
       if bool_decide (validator = "V2") then Throws (MkError "disconnected")
       else Returns "{}";
     erasStakers := erasStakers connector;
     erasStakersClipped := erasStakersClipped connector;
     payee := payee connector |}.
End Era.

Module Job.
Import Staking Payout.

(** The era queries of a node that answers every one of them. *)
Definition queries : EraQueries :=
  {| timestamp_now := fun _ => Returns 1600000000;
     erasValidatorReward := fun _ _ => Returns "1000";
     erasTotalStake := fun _ _ => Returns "76";
     erasStartSessionIndex := fun _ _ => Returns (Some 250) |}.

(** The same node before the start session of the era is recorded. *)
Definition no_session : EraQueries :=
  {| timestamp_now := timestamp_now queries;
     erasValidatorReward := erasValidatorReward queries;
     erasTotalStake := erasTotalStake queries;
     erasStartSessionIndex := fun _ _ => Returns None |}.

(** A broker that accepts every record, and one that refuses the records
    of one topic. *)
Definition broker : Producer := {| send := fun _ => Returns tt |}.

Definition broker_without (t : string) : Producer :=
  {| send := fun record =>
       if bool_decide (topic record = t) then Throws (MkError "broker unreachable")
       else Returns tt |}.

Definition payout42 : IProcessEraPayload :=
  {| eraPayoutEvent := {| era_index := 42; validator_payout := 1000; remainder := 5 |};
     p_blockHash := "0xabc" |}.
End Job.

Module Sync.
Import Blocks.

Definition hash_of (height : Z) : BlockHash := "0x" +:+ pretty height.

Definition height_of (h : BlockHash) : Z :=
  default 0 (List.find (fun n => bool_decide (hash_of n = h)) (seqZ 0 200)).

Definition block_at (h : BlockHash) : BlockInfo :=
  {| sessionId := 7;
     blockCurrentEra := 500;
     activeEra := Some 499;
     signedBlock :=
       Some {| header := {| number := height_of h; hash := h;
                            stateRoot := "0x01"; extrinsicsRoot := "0x02";
                            parentHash := hash_of (height_of h - 1);
                            digest_logs := ["PreRuntime"; "Seal"];
                            digest := "{}" |};
               extrinsics := [] |};
     extHeader := Some {| author := Some "V1"; isEmpty := false |};
     blockTime := 1600000000;
     events := [] |}.

(** A node whose finalized head stays at [head] and that answers every
    request; [known] tells the heights it has a hash for and [reachable] the
    heights whose hash request does not fail; the repository cannot trim
    when [trims] is false.  The jobs of a chunk come back in turns, not one
    after the other. *)
Definition node (head : Z) (known reachable : Z -> bool) (trims : bool) : Collaborators :=
  {| getBlockHashByHeight := fun _ height =>
       if negb (reachable height) then Throws (MkError "disconnected")
       else if known height then Returns (Some (hash_of height))
       else Returns None;
     getFinBlockNumber := fun _ => Returns head;
     getHeader := fun _ =>
       Returns {| number := head + 3; hash := hash_of (head + 3);
                  stateRoot := "0x01"; extrinsicsRoot := "0x02";
                  parentHash := hash_of (head + 2);
                  digest_logs := []; digest := "{}" |};
     getHistoryDepth := fun _ _ => Returns 84;
     getCurrentRawEra := fun _ _ => Returns (Some (Some 500));
     getInfoToProcessBlock := fun _ h => Returns (block_at h);
     getInfoToCheckHistoryDepth := fun _ _ =>
       Returns {| h_sessionId := Some 7; h_activeEra := Some (Some 499);
                  h_extHeader := Some {| author := Some "V1"; isEmpty := false |} |};
     sendBlockData := fun _ _ => Returns tt;
     extractExtrinsics := fun _ _ _ _ _ _ => Returns tt;
     getLastProcessedBlock := fun _ => Returns 99;
     removeBlockData := fun _ _ => Returns tt;
     trimBlocksFrom := fun _ _ =>
       if trims then Returns tt else Throws (MkError "deadlock detected");
     resumesFirst := fun _ i n => Nat.even (i + n) |}.

(** The head is at 119 and nothing fails. *)
Definition steady : Collaborators := node 119 (fun _ => true) (fun _ => true) true.

(** The same, but the hash of height 105 can never be fetched. *)
Definition hole_at_105 : Collaborators :=
  node 119 (fun _ => true) (fun height => negb (height =? 105)) true.

(** The node has no hash for height 100. *)
Definition unknown_100 : Collaborators :=
  node 119 (fun height => negb (height =? 100)) (fun _ => true) true.

(** The repository cannot trim. *)
Definition no_trim : Collaborators := node 119 (fun _ => true) (fun _ => true) false.

(** A node asked about a block 400 eras back, for which it has neither
    the session id nor a header left. *)
Definition deep_history : Collaborators :=
  {| getBlockHashByHeight := getBlockHashByHeight steady;
     getFinBlockNumber := getFinBlockNumber steady;
     getHeader := getHeader steady;
     getHistoryDepth := getHistoryDepth steady;
     getCurrentRawEra := fun _ blockHash =>
       match blockHash with
       | None => Returns (Some (Some 500))
       | Some _ => Returns (Some (Some 100))
       end;
     getInfoToProcessBlock := getInfoToProcessBlock steady;
     getInfoToCheckHistoryDepth := fun _ _ =>
       Returns {| h_sessionId := None; h_activeEra := Some (Some 99);
                  h_extHeader := Some {| author := None; isEmpty := true |} |};
     sendBlockData := sendBlockData steady;
     extractExtrinsics := extractExtrinsics steady;
     getLastProcessedBlock := getLastProcessedBlock steady;
     removeBlockData := removeBlockData steady;
     trimBlocksFrom := trimBlocksFrom steady;
     resumesFirst := resumesFirst steady |}.

(** Two events of a block: a transfer with two typed data and an era payout
    with three. *)
Definition two_events : list EventRecord :=
  [ {| section := "balances"; method := "Transfer"; phase := "ApplyExtrinsic";
       meta := "{}"; typeDef := ["AccountId"; "Balance"]; data := ["A"; "10"];
       toJSON := "{}" |};
    {| section := "staking"; method := "EraPayout"; phase := "Finalization";
       meta := "{}"; typeDef := ["EraIndex"; "Balance"; "Balance"];
       data := ["42"; "1000"; "50"]; toJSON := "{}" |} ].

(** The event loop takes the jobs of a chunk of [jobs] jobs in turns, in the
    order of the array. *)
Definition in_turns (jobs : nat) : nat -> nat -> nat -> bool :=
  fun _ i n => (n mod (jobs - i) =? 0)%nat.

(** A node that is as [steady], but whose tenth answer to a job (the one to
    the request made at moment 9) is a failure, whatever the request; the
    jobs of a chunk of five come back in turns. *)
Definition tenth_request_fails : Collaborators :=
  {| getBlockHashByHeight := fun t height =>
       if (t =? 9)%nat then Throws (MkError "timeout")
       else getBlockHashByHeight steady t height;
     getFinBlockNumber := getFinBlockNumber steady;
     getHeader := getHeader steady;
     getHistoryDepth := getHistoryDepth steady;
     getCurrentRawEra := getCurrentRawEra steady;
     getInfoToProcessBlock := fun t blockHash =>
       if (t =? 9)%nat then Throws (MkError "timeout")
       else getInfoToProcessBlock steady t blockHash;
     getInfoToCheckHistoryDepth := getInfoToCheckHistoryDepth steady;
     sendBlockData := fun t blockData =>
       if (t =? 9)%nat then Throws (MkError "timeout")
       else sendBlockData steady t blockData;
     extractExtrinsics := fun t era sessionId number events extrinsics =>
       if (t =? 9)%nat then Throws (MkError "timeout")
       else extractExtrinsics steady t era sessionId number events extrinsics;
     getLastProcessedBlock := getLastProcessedBlock steady;
     removeBlockData := removeBlockData steady;
     trimBlocksFrom := trimBlocksFrom steady;
     resumesFirst := in_turns 5 |}.

Definition idle : World := {| locked := false; clock := 0; trace := [] |}.
Definition syncing : World := {| locked := true; clock := 0; trace := [] |}.
End Sync.

End Examples.

(* ===================================================================== *)
(** ** Terms of the statements *)
(* ===================================================================== *)

Module TaskTerms.
Import BlockMetadataProcessor.

(** The warning a delivery leaves in the log. *)
Definition warning_record (message : TaskMessage) (w : Warning) : LogRecord :=
  {| level := warn; log_blockId := message_entity_id message;
     body := warning w; log_collect_uid := message_collect_uid message |}.

(** The row is stored under its own (kind, id). *)
Definition well_keyed (k : ENTITY * Z) (t : ProcessingTask) : Prop :=
  (entity t, entity_id t) = k.

(** What the three chain reads of [processBlock] give for a block: the total
    issuance, or the exception of the first read that fails. *)
Definition read_issuance (environment : Environment) (blockId : Z) : response Z :=
  match getBlockHash environment blockId with
  | Throws e => Throws e
  | Returns blockHash =>
      match at_ environment blockHash with
      | Throws e => Throws e
      | Returns historicalApi => totalIssuance historicalApi
      end
  end.

(** The row [processBlock] inserts for a block. *)
Definition issuance_row (environment : Environment) (blockId n : Z) : TotalIssuanceRow :=
  {| block_id := blockId; total_issuance := pretty n;
     network_id := NETWORK_ID environment; row_time := now environment |}.

Definition log_record (l : Level) (message : TaskMessage) (b : LogBody) : LogRecord :=
  {| level := l; log_blockId := message_entity_id message;
     body := b; log_collect_uid := message_collect_uid message |}.

End TaskTerms.

Module StakingTerms.
Import Staking.

Section Terms.
Variable polkadotConnector : PolkadotConnector.
Variable params : IBlockEraParams.

(** The record [n] is the one made for [staker] of [validator], whose clipped
    exposure is [stakersClipped]. *)
Definition made_for (validator : string) (stakersClipped : Exposure)
    (staker : IndividualExposure) (n : INominator) : Prop :=
  n_era n = eraId params /\
  n_account_id n = who staker /\
  n_validator n = validator /\
  n_value n = pretty (value staker) /\
  (is_clipped n = true <-> forall e, e ∈ others stakersClipped -> who e <> who staker).

(** The payee of the staker can be read. *)
Definition payee_answers (staker : IndividualExposure) : bool :=
  match payee polkadotConnector (blockHash params) (who staker) with
  | Returns _ => true
  | Throws _ => false
  end.

(** The log entry a staker whose payee cannot be read leaves. *)
Definition staker_error (staker : IndividualExposure) : option LogEntry :=
  match payee polkadotConnector (blockHash params) (who staker) with
  | Returns _ => None
  | Throws e => Some (error_CannotProcessStaker (who staker) e (blockHash params))
  end.

(** The stakers of a validator that get a record, each with the validator and
    its clipped exposure. *)
Definition stakers_of (validator : string) : list (string * Exposure * IndividualExposure) :=
  match erasStakers polkadotConnector (blockHash params) (eraId params) validator,
        erasStakersClipped polkadotConnector (blockHash params) (eraId params) validator with
  | Returns stakers, Returns stakersClipped =>
      List.map (fun staker => (validator, stakersClipped, staker))
               (List.filter payee_answers (others stakers))
  | _, _ => []
  end.

(** [made_for] on a triple (validator, clipped exposure, staker). *)
Definition made_for' (x : string * Exposure * IndividualExposure) (n : INominator) : Prop :=
  made_for x.1.1 x.1.2 x.2 n.

(** The validators that are answered for: both exposures, the preferences and
    the payee of the validator itself. *)
Definition answered (validator : string) : Prop :=
  (exists x, erasStakers polkadotConnector (blockHash params) (eraId params) validator
             = Returns x) /\
  (exists x, erasStakersClipped polkadotConnector (blockHash params) (eraId params) validator
             = Returns x) /\
  (exists x, erasValidatorPrefs polkadotConnector (blockHash params) (eraId params) validator
             = Returns x) /\
  (exists x, payee polkadotConnector (blockHash params) validator = Returns x).

(** The staker is listed for the validator and its payee cannot be read. *)
Definition failing_staker (validator : string) (staker : IndividualExposure) (l : LogEntry)
    : Prop :=
  exists stakers,
    erasStakers polkadotConnector (blockHash params) (eraId params) validator
      = Returns stakers /\
    staker ∈ others stakers /\
    staker_error staker = Some l.

Section Era.
Variable eraRewardPointsMap : gmap string Z.

(** What one validator adds to the result: its own record and the records of
    its stakers. *)
Definition validator_step (validator : string) (stakers stakersClipped : Exposure)
    (acc acc' : IGetValidatorsNominatorsResult) : Prop :=
  exists added v,
    nominators acc' = nominators acc ++ added /\
    Forall2 (made_for validator stakersClipped)
            (List.filter payee_answers (others stakers)) added /\
    validators acc' = validators acc ++ [v] /\
    v_account_id v = validator /\
    nominators_count v = length (others stakers) /\
    reward_points v = default 0 (eraRewardPointsMap !! validator).

End Era.
End Terms.
End StakingTerms.

Module BlocksTerms.
Import Blocks.

(** *** Reading a trace *)

Definition is_log (e : Effect) : bool :=
  match e with Log _ _ => true | _ => false end.

(** Effects that are neither a call marker, a sleep, nor the log entry of a
    failed attempt. *)
Definition job_free (e : Effect) : bool :=
  match e with
  | Enter_runBlocksWorker _ _ | Enter_processBlock _ | Sleep _
  | Log _ (WorkerFailed _ _ _) => false
  | _ => true
  end.

(** The heights [processBlock] was entered with. *)
Definition attempts_in (es : list Effect) : list (option Z) :=
  flat_map (fun e => match e with Enter_processBlock h => [h] | _ => [] end) es.

Definition sleeps_in (es : list Effect) : list Z :=
  flat_map (fun e => match e with Sleep ms => [ms] | _ => [] end) es.

(** The failures logged by workers, as (workerId, blockNumber). *)
Definition failures_in (es : list Effect) : list (Z * Z) :=
  flat_map (fun e => match e with
                     | Log error (WorkerFailed i n _) => [(i, n)]
                     | _ => []
                     end) es.



(** The jobs dispatched, as (workerId, blockNumber). *)
Definition jobs_in (es : list Effect) : list (Z * Z) :=
  flat_map (fun e => match e with Enter_runBlocksWorker i n => [(i, n)] | _ => [] end) es.

(** [m] settles, leaves the lock alone and only adds effects that pass [ok]. *)
Definition quiet {A} (ok : Effect -> bool) (m : M World A) : Prop :=
  forall w, exists r w' added,
    m w = (r, w') /\ r <> Pending /\ locked w' = locked w /\
    trace w' = trace w ++ added /\ forallb ok added = true.

(** *** Jobs in flight *)

(** Effects other than the dispatch of a job. *)
Definition dispatch_free (e : Effect) : bool :=
  match e with Enter_runBlocksWorker _ _ => false | _ => true end.

(** From [w] to [w'] the lock was left alone and only effects that pass
    [ok] were added. *)
Definition grows (ok : Effect -> bool) (w w' : World) : Prop :=
  locked w' = locked w /\
  exists added, trace w' = trace w ++ added /\ forallb ok added = true.

(** Whenever and in whatever world the call is resumed, the piece that runs
    leaves the lock alone and only adds effects that pass [ok], and when the
    call settles its outcome satisfies [P]. *)
Fixpoint calm {A} (ok : Effect -> bool) (P : outcome A -> Prop) (t : Task World A) : Prop :=
  match t with
  | Settled r => P r
  | Awaiting resume => forall w, grows ok w (resume w).2 /\ calm ok P (resume w).1
  end.

Definition calm_job {A} (ok : Effect -> bool) (P : outcome A -> Prop) (j : Job World A)
    : Prop :=
  forall w, grows ok w (j w).2 /\ calm ok P (j w).1.

Definition settles {A} (r : outcome A) : Prop := r <> Pending.

Definition resolves {A} (r : outcome A) : Prop := exists a, r = Resolved a.

(** The array has resolved with [n] results. *)
Definition resolves_with {A} (n : nat) (r : outcome (list A)) : Prop :=
  exists l, r = Resolved l /\ length l = n.

Section Terms.
Variable collaborators : Collaborators.

(** *** The attempts of a job *)



(** The world in which the retry loop of a job starts. *)
Definition dispatched (workerId blockNumber : Z) (w : World) : World :=
  {| locked := locked w; clock := clock w;
     trace := trace w ++ [Enter_runBlocksWorker workerId blockNumber] |}.

(** The head never passes [H]. *)
Definition head_bounded (H : Z) : Prop :=
  forall t h, getFinBlockNumber collaborators t = Returns h -> h <= H.

(** *** The start of a sync pass *)

(** The start height of a pass: the one given, or the checkpoint. *)
Definition start_resolves (w : World) (startBlockNumber : option Z) (s : Z) : Prop :=
  match startBlockNumber with
  | Some n => n = s
  | None => getLastProcessedBlock collaborators (clock w) = Returns s
  end.

(** The moment the head is asked for. *)
Definition head_clock (w : World) (startBlockNumber : option Z) : nat :=
  match startBlockNumber with
  | Some _ => clock w
  | None => S (clock w)
  end.

(** The world in which [processBlocks] calls the history-depth guard. *)
Definition at_guard (w : World) (startBlockNumber : option Z) (s last : Z) : World :=
  {| locked := true;
     clock := S (head_clock w startBlockNumber);
     trace := trace w ++ [Log info (StartingProcessBlocks s);
                          Log info (ProcessingBlocksToHead s last)] |}.

(** What [processBlocks] does with the answer of the guard. *)
Definition after_guard (fuel : nat) (s last : Z) (optionSubscribeFinHead : option bool)
    (available : bool) : M World unit :=
  if negb available then
    logger error CannotReceiveStorageData;;
    release
  else
    processBlocks_while collaborators fuel s last;;
    release;;
    match optionSubscribeFinHead with
    | Some true => emit SubscribeFinalizedHeads
    | _ => ret tt
    end.

End Terms.
End BlocksTerms.

Module BlocksMoreTerms.
Import Blocks.

(** The block records handed to the broker. *)
Definition published_in (es : list Effect) : list IBlockData :=
  flat_map (fun e => match e with SendBlockData b => [b] | _ => [] end) es.

(** The increments of the progress counter. *)
Definition counted_in (es : list Effect) : list Z :=
  flat_map (fun e => match e with CounterInc n => [n] | _ => [] end) es.

(** The era-payout signals put on the staking queue. *)
Definition queued_in (es : list Effect) : list (EventRecord * BlockHash) :=
  flat_map (fun e => match e with AddToQueue ev h => [(ev, h)] | _ => [] end) es.

(** The extraction calls, as (era, session, block number). *)
Definition extracted_in (es : list Effect) : list (Z * Z * Z) :=
  flat_map (fun e => match e with ExtractExtrinsics a b c => [(a, b, c)] | _ => [] end) es.

Definition is_era_payout (event : EventRecord) : bool :=
  bool_decide (section event = "staking") && bool_decide (method event = "EraPayout").

(** Every datum of the event has a type definition. *)
Definition typed (record : EventRecord) : Prop :=
  (length (data record) <= length (typeDef record))%nat.

(** The event record made of the [eventIndex]-th event of a block. *)
Definition converted (blockNumber : Z) (eventIndex : nat) (record : EventRecord) : IEvent :=
  {| id := (blockNumber, eventIndex);
     e_section := section record;
     e_method := method record;
     e_phase := phase record;
     e_meta := meta record;
     e_data := zip (take (length (data record)) (typeDef record)) (data record);
     e_event := toJSON record |}.

(** The three pieces the guard asks for in deep history are all there. *)
Definition complete (i : HistoryInfo) : bool :=
  match h_sessionId i with None => false | Some _ => true end
  && match h_activeEra i with Some (Some _) => true | _ => false end
  && match h_extHeader i with Some h => negb (isEmpty h) | None => false end.

(** The errors the guard logs for the pieces that are missing, in order. *)
Definition missing (blockNumber : Z) (blockHash : BlockHash) (i : HistoryInfo) : list Effect :=
  match h_sessionId i with
  | None => [Log error (CannotGetSessionId blockNumber blockHash)]
  | Some _ => []
  end ++
  match h_activeEra i with
  | Some (Some _) => []
  | _ => [Log error (CannotGetActiveEra blockNumber blockHash)]
  end ++
  match h_extHeader i with
  | Some h => if isEmpty h then [Log error (CannotGetExtHeader blockNumber blockHash)] else []
  | None => [Log error (CannotGetExtHeader blockNumber blockHash)]
  end.

(** The world after [n] more requests and the effects [es]. *)
Definition later (w : World) (n : nat) (es : list Effect) : World :=
  {| locked := locked w; clock := n + clock w; trace := trace w ++ es |}.

(** The finalized head stays at [H]. *)
Definition head_steady (collaborators : Collaborators) (H : Z) : Prop :=
  forall t, getFinBlockNumber collaborators t = Returns H.

End BlocksMoreTerms.

Module StakingMoreTerms.
Import Staking.

(** The call only adds lines to the log, and what it does is the same
    whatever the log holds. *)
Definition appends {A} (m : M World A) : Prop :=
  forall w, m w = ((m []).1, w ++ (m []).2).
End StakingMoreTerms.

Module PayoutTerms.
Import Staking Payout.

(** The records the broker has accepted. *)
Definition sent_in (es : list Effect) : list ProducerRecord :=
  flat_map (fun e => match e with Sent r => [r] | _ => [] end) es.

(** How often the callback of the queue was called. *)
Definition callbacks_in (es : list Effect) : nat :=
  length (flat_map (fun e => match e with Callback_null => [tt] | _ => [] end) es).

Definition params_of (payload : IProcessEraPayload) : IBlockEraParams :=
  {| eraId := era_index (eraPayoutEvent payload); blockHash := p_blockHash payload |}.

Definition started (payload : IProcessEraPayload) : Effect :=
  Log_debug ("Process payout for era: " +:+ pretty (era_index (eraPayoutEvent payload))).

Definition finished : list Effect :=
  [Console_log "ERA STAKING FINISHED ----------------------"; Callback_null].

Definition cannot_push : Error := MkError "cannot push session data to Kafka".

Section Records.
Variable KAFKA_PREFIX : string.

(** The record with the totals of the era. *)
Definition era_record (eraData : IEraData) : ProducerRecord :=
  {| topic := KAFKA_PREFIX +:+ "_STAKING_ERAS_DATA";
     messages := [ {| m_key := Some (pretty (era eraData));
                      m_value := EraDataJSON eraData |} ] |}.

(** The record with the validators and nominators of the era, each stamped
    with the time of the block. *)
Definition session_record (eraId : Z) (result : IGetValidatorsNominatorsResult)
    (blockTime : Z) : ProducerRecord :=
  {| topic := KAFKA_PREFIX +:+ "_SESSION_DATA";
     messages :=
       [ {| m_key := None;
            m_value :=
              SessionDataJSON eraId
                (List.map (fun validator => (validator, blockTime)) (validators result))
                (List.map (fun nominator => (nominator, blockTime)) (nominators result))
                blockTime |} ] |}.
End Records.

End PayoutTerms.

(* ===================================================================== *)
(** ** Facts about promises *)
(* ===================================================================== *)

Module AsyncFacts.

Lemma bind_Resolved {W A B} (m : M W A) (k : A -> M W B) w a w' :
  m w = (Resolved a, w') -> bind m k w = k a w'.
Proof. intros H. unfold bind. now rewrite H. Qed.

(** A bind that resolved went through a resolved first half. *)
Lemma bind_inv_Resolved {W A B} (m : M W A) (k : A -> M W B) w b w' :
  bind m k w = (Resolved b, w') ->
  exists a w1, m w = (Resolved a, w1) /\ k a w1 = (Resolved b, w').
Proof.
  unfold bind. destruct (m w) as [[a|e|] w1]; intros H; try discriminate.
  now exists a, w1.
Qed.



(** *** A call with nothing beside it *)

Lemma alone_ret {W A} (a : A) (w : W) : Jobs.alone (Jobs.ret a) w = ret a w.
Proof. reflexivity. Qed.

Lemma alone_throw {W A} (e : Error) (w : W) : Jobs.alone (@Jobs.throw W A e) w = throw e w.
Proof. reflexivity. Qed.








End AsyncFacts.

(* ===================================================================== *)
(** ** The fencing task processor: attempts and stale deliveries *)
(* ===================================================================== *)

Module BlockMetadataProcessorSpec.
Import BlockMetadataProcessor TaskTerms.

Section Proofs.
Variable environment : Environment.

(** Neither repository update touches the attempts of a row. *)
Lemma attempts_after_mark (k k' : ENTITY * Z) (tasks : gmap (ENTITY * Z) ProcessingTask) :
  attempts <$> (alter mark_processed k tasks !! k') = attempts <$> (tasks !! k').
Proof.
  rewrite lookup_alter. case_decide; [subst k'|reflexivity].
  now destruct (tasks !! k).
Qed.

(** What a run of the transaction leaves in the store: nothing, or the
    committed output together with the status flip. *)
Lemma transaction_handler_db blockId uid w :
  let '(r, w') := transaction (handler environment blockId uid) w in
  r <> Pending /\
  logs w ⊆ logs w' /\
  (db w' = db w \/
   exists t row,
     r = Resolved tt /\
     processing_tasks (db w) !! (BLOCK_METADATA, blockId) = Some t /\
     db w' = {| processing_tasks :=
                  alter mark_processed (entity t, entity_id t) (processing_tasks (db w));
                total_issuance_rows := total_issuance_rows (db w) ++ [row] |}).
Proof.
  unfold transaction, handler, readTaskAndLockRow, transacting, bind; simpl.
  destruct (processing_tasks (db w) !! (BLOCK_METADATA, blockId)) as [t|] eqn:Ht; simpl.
  2: { split; [discriminate|]. split; [set_solver|now left]. }
  destruct (attempts t >? MAX_ATTEMPTS environment); simpl.
  { split; [discriminate|]. split; [set_solver|now left]. }
  destruct (negb (bool_decide (collect_uid t = uid))); simpl.
  { split; [discriminate|]. split; [set_solver|now left]. }
  destruct (negb (bool_decide (status t = NOT_PROCESSED))); simpl.
  { split; [discriminate|]. split; [set_solver|now left]. }
  unfold processBlock, insertTotalIssuance, transacting, await, bind; simpl.
  destruct (getBlockHash environment blockId) as [h|e]; simpl.
  2: { split; [discriminate|]. split; [set_solver|now left]. }
  destruct (at_ environment h) as [api|e]; simpl.
  2: { split; [discriminate|]. split; [set_solver|now left]. }
  destruct (totalIssuance api) as [n|e]; simpl.
  2: { split; [discriminate|]. split; [set_solver|now left]. }
  split; [discriminate|]. split; [set_solver|].
  right. eexists t, _. repeat split; reflexivity.
Qed.

Lemma lookup_bumped (tasks : gmap (ENTITY * Z) ProcessingTask) k t :
  tasks !! k = Some t -> alter bump k tasks !! k = Some (bump t).
Proof. intros H. rewrite lookup_alter. case_decide; [now rewrite H|congruence]. Qed.

(** C2. For every Work Item and every delivery message, when
    [processTaskMessage] settles (commit, abort on a validity check, or an
    exception of the transform re-raised) the stored [attempts] is exactly
    one more than before; the checks already judge the incremented
    counter: a row whose incremented counter exceeds the maximum is
    refused with the max-attempts warning. *)
Theorem processTaskMessage_increases_attempts message w t :
  processing_tasks (db w) !! (BLOCK_METADATA, message_entity_id message) = Some t ->
  exists r w',
    processTaskMessage environment message w = (r, w') /\
    (r = Resolved tt \/ exists e, r = Rejected e) /\
    attempts <$> (processing_tasks (db w') !! (BLOCK_METADATA, message_entity_id message))
      = Some (attempts t + 1) /\
    (attempts t + 1 > MAX_ATTEMPTS environment ->
     r = Resolved tt /\
     logs w' = logs w ++ [warning_record message (MaxAttemptsReached (message_entity_id message))]).
Proof.
  intros Ht.
  pose proof (lookup_bumped _ _ _ Ht) as Hb.
  unfold processTaskMessage.
  unfold bind at 1. unfold increaseAttempts at 1, modify at 1.
  set (w0 := set_db _ w).
  assert (Hw0 : processing_tasks (db w0) !! (BLOCK_METADATA, message_entity_id message)
                = Some (bump t)) by exact Hb.
  pose proof (transaction_handler_db (message_entity_id message)
                (message_collect_uid message) w0) as Hrun.
  unfold catch.
  destruct (transaction _ w0) as [r w1] eqn:Erun.
  destruct Hrun as (Hr & _ & Hdb).
  assert (Hatt : attempts <$> (processing_tasks (db w1) !! (BLOCK_METADATA, message_entity_id message))
                 = Some (attempts t + 1)).
  { destruct Hdb as [-> | (t' & row & _ & _ & ->)].
    - now rewrite Hw0.
    - cbn [processing_tasks]. rewrite attempts_after_mark. now rewrite Hw0. }
  assert (Hmax : attempts t + 1 > MAX_ATTEMPTS environment ->
                 r = Resolved tt /\
                 logs w1 = logs w ++ [warning_record message
                                        (MaxAttemptsReached (message_entity_id message))]).
  { intros Hgt. revert Erun.
    unfold transaction, handler, readTaskAndLockRow, transacting, bind; simpl.
    fold w0. rewrite Hb; simpl.
    replace (attempts t + 1 >? MAX_ATTEMPTS environment) with true
      by (symmetry; apply Z.gtb_lt; lia).
    simpl. intros [= <- <-]. now split. }
  destruct r as [[]|e|].
  - exists (Resolved tt), w1. split; [reflexivity|]. split; [now left|].
    split; [exact Hatt|exact Hmax].
  - eexists (Rejected e), _. unfold logger, modify, throw, bind; simpl.
    split; [reflexivity|]. split; [right; eauto|]. split; [exact Hatt|].
    intros Hgt. destruct (Hmax Hgt) as [? _]. discriminate.
  - congruence.
Qed.
End Proofs.

(** C2 on a delivery whose transform fails: the chain state is gone, the
    exception is re-raised, the counter has moved from 0 to 1. *)
Lemma processTaskMessage_increases_attempts_witness :
  let w := Examples.Task.store (Examples.Task.task7 0 "a" NOT_PROCESSED) in
  processing_tasks (db w) !! (BLOCK_METADATA, 7)
    = Some (Examples.Task.task7 0 "a" NOT_PROCESSED) /\
  exists r w',
    processTaskMessage Examples.Task.pruned_chain (Examples.Task.delivery "a") w = (r, w') /\
    (r = Resolved tt \/ exists e, r = Rejected e) /\
    attempts <$> (processing_tasks (db w') !! (BLOCK_METADATA, 7)) = Some (0 + 1) /\
    (0 + 1 > 5 ->
     r = Resolved tt /\
     logs w' = [] ++ [warning_record (Examples.Task.delivery "a") (MaxAttemptsReached 7)]).
Proof.
  split; [reflexivity|].
  apply (processTaskMessage_increases_attempts Examples.Task.pruned_chain
           (Examples.Task.delivery "a")
           (Examples.Task.store (Examples.Task.task7 0 "a" NOT_PROCESSED))
           (Examples.Task.task7 0 "a" NOT_PROCESSED)).
  reflexivity.
Defined.

(** C3 as stated fails.  A delivery with a stale token for a row that has
    used up its attempts: the token differs, yet the store is written (the
    attempts counter) and the warning logged is the max-attempts one, not
    the mismatch. *)
Lemma stale_token_counterexample :
  let w := Examples.Task.store (Examples.Task.task7 5 "a" NOT_PROCESSED) in
  let m := Examples.Task.delivery "b" in
  exists r w',
    processTaskMessage Examples.Task.chain m w = (r, w') /\
    (exists t, processing_tasks (db w) !! (BLOCK_METADATA, 7) = Some t /\
               collect_uid t <> message_collect_uid m) /\
    db w' <> db w /\
    logs w' = [warning_record m (MaxAttemptsReached 7)].
Proof.
  eexists _, _. split; [vm_compute; reflexivity|].
  split; [eexists; split; [reflexivity|discriminate]|].
  split; [|reflexivity].
  intros H.
  apply (f_equal (fun d => attempts <$> (processing_tasks d !! (BLOCK_METADATA, 7)))) in H.
  vm_compute in H. discriminate.
Qed.

(** C3, amended.  A delivery whose token differs from the stored one makes
    no status transition and writes nothing but the attempts increment:
    the transaction is rolled back, one warning is logged (the mismatch,
    unless the incremented attempts exceed the maximum, which is checked
    first), and the call resolves. *)
Theorem stale_token_is_absorbed environment message w t :
  processing_tasks (db w) !! (BLOCK_METADATA, message_entity_id message) = Some t ->
  collect_uid t <> message_collect_uid message ->
  processTaskMessage environment message w =
    (Resolved tt,
     {| db := {| processing_tasks :=
                   <[ (BLOCK_METADATA, message_entity_id message) := bump t ]>
                     (processing_tasks (db w));
                 total_issuance_rows := total_issuance_rows (db w) |};
        trx := NoTransaction;
        logs := logs w ++
          [ warning_record message
              (if attempts t + 1 >? MAX_ATTEMPTS environment
               then MaxAttemptsReached (message_entity_id message)
               else PossibleDuplication (message_entity_id message)
                      (message_collect_uid message) (collect_uid t)) ] |}).
Proof.
  intros Ht Hne.
  assert (Halter : alter bump (BLOCK_METADATA, message_entity_id message) (processing_tasks (db w))
                   = <[ (BLOCK_METADATA, message_entity_id message) := bump t ]>
                       (processing_tasks (db w))).
  { apply map_eq. intros k. rewrite lookup_alter, lookup_insert.
    case_decide; [now rewrite Ht|reflexivity]. }
  unfold processTaskMessage, increaseAttempts, modify, catch, transaction, handler,
    readTaskAndLockRow, transacting, bind; simpl.
  rewrite Halter, lookup_insert_eq; simpl.
  destruct (attempts t + 1 >? MAX_ATTEMPTS environment); simpl; [reflexivity|].
  rewrite bool_decide_eq_false_2 by exact Hne.
  reflexivity.
Qed.

Lemma stale_token_is_absorbed_witness :
  let w := Examples.Task.store (Examples.Task.task7 1 "a" NOT_PROCESSED) in
  let m := Examples.Task.delivery "b" in
  processing_tasks (db w) !! (BLOCK_METADATA, 7)
    = Some (Examples.Task.task7 1 "a" NOT_PROCESSED) /\
  "a" <> "b" /\
  processTaskMessage Examples.Task.chain m w =
    (Resolved tt,
     {| db := {| processing_tasks :=
                   <[ (BLOCK_METADATA, 7) := Examples.Task.task7 2 "a" NOT_PROCESSED ]>
                     (processing_tasks (db w));
                 total_issuance_rows := [] |};
        trx := NoTransaction;
        logs := [ warning_record m (PossibleDuplication 7 "b" "a") ] |}).
Proof.
  split; [reflexivity|]. split; [discriminate|].
  apply (stale_token_is_absorbed Examples.Task.chain (Examples.Task.delivery "b")
           (Examples.Task.store (Examples.Task.task7 1 "a" NOT_PROCESSED))
           (Examples.Task.task7 1 "a" NOT_PROCESSED)); [reflexivity|discriminate].
Defined.
End BlockMetadataProcessorSpec.

(* ===================================================================== *)
(** ** Era aggregation: clipped stakers and failing stakers *)
(* ===================================================================== *)

Module StakingSpec.
Import Staking AsyncFacts.

Section Proofs.
Variable polkadotConnector : PolkadotConnector.
Variable params : IBlockEraParams.

Local Abbreviation made_for := (StakingTerms.made_for params) (only parsing).
Local Abbreviation made_for' := (StakingTerms.made_for' params) (only parsing).
Local Abbreviation payee_answers :=
  (StakingTerms.payee_answers polkadotConnector params) (only parsing).
Local Abbreviation staker_error :=
  (StakingTerms.staker_error polkadotConnector params) (only parsing).
Local Abbreviation stakers_of := (StakingTerms.stakers_of polkadotConnector params) (only parsing).
Local Abbreviation answered := (StakingTerms.answered polkadotConnector params) (only parsing).
Local Abbreviation failing_staker :=
  (StakingTerms.failing_staker polkadotConnector params) (only parsing).

Lemma find_who_None (stakersClipped : Exposure) (staker : IndividualExposure) :
  List.find (fun e => bool_decide (who e = who staker)) (others stakersClipped) = None <->
  forall e, e ∈ others stakersClipped -> who e <> who staker.
Proof.
  split.
  - intros Hnone e He Heq.
    apply list_elem_of_In in He.
    pose proof (find_none _ _ Hnone e He) as Hf. simpl in Hf.
    now rewrite bool_decide_eq_true_2 in Hf.
  - intros Hall.
    destruct (List.find _ _) as [e|] eqn:Hfind; [|reflexivity].
    apply find_some in Hfind as [Hin Heq].
    apply bool_decide_eq_true_1 in Heq.
    apply list_elem_of_In in Hin. now destruct (Hall e Hin).
Qed.

Lemma with_payee_made_for validator stakersClipped staker p n :
  made_for validator stakersClipped staker n ->
  made_for validator stakersClipped staker (with_payee p n).
Proof. unfold StakingTerms.made_for, with_payee. now destruct p. Qed.

(** One staker: a record, or a log entry when its payee cannot be read;
    never an exception. *)
Lemma processStaker_cases validator stakersClipped nominators staker w :
  exists added,
    processStaker polkadotConnector params validator stakersClipped nominators staker w
      = (Resolved (nominators ++ added), w ++ option_list (staker_error staker)) /\
    Forall2 (made_for validator stakersClipped)
            (if payee_answers staker then [staker] else []) added.
Proof.
  unfold processStaker, StakingTerms.staker_error, StakingTerms.payee_answers, catch, bind, await, ret, log, modify.
  destruct (payee polkadotConnector (blockHash params) (who staker)) as [p|e]; simpl.
  - eexists [_]. rewrite app_nil_r. split; [reflexivity|].
    constructor; [|constructor].
    assert (Hbase : made_for validator stakersClipped staker
              {| n_era := eraId params; n_account_id := who staker;
                 n_validator := validator;
                 is_clipped :=
                   match List.find (fun e => bool_decide (who e = who staker))
                                   (others stakersClipped) with
                   | Some _ => false
                   | None => true
                   end;
                 n_value := pretty (value staker);
                 n_reward_dest := None; n_reward_account_id := None |}).
    { repeat split; simpl; try reflexivity.
      - intros Hc. apply find_who_None. now destruct (List.find _ _).
      - intros Hall. apply find_who_None in Hall. now rewrite Hall. }
    destruct p as [p|]; [now apply with_payee_made_for|exact Hbase].
  - exists []. rewrite app_nil_r. split; [reflexivity|constructor].
Qed.

(** The stakers of one validator: the loop resolves, with a record for
    exactly the stakers whose payee can be read. *)
Lemma stakers_loop validator stakersClipped stakers nominators w :
  exists added,
    for_of stakers (processStaker polkadotConnector params validator stakersClipped)
           nominators w
      = (Resolved (nominators ++ added), w ++ omap staker_error stakers) /\
    Forall2 (made_for validator stakersClipped) (List.filter payee_answers stakers) added.
Proof.
  revert nominators w. induction stakers as [|staker stakers IH]; intros nominators w.
  - exists []. simpl. rewrite !app_nil_r. split; [reflexivity|constructor].
  - destruct (processStaker_cases validator stakersClipped nominators staker w)
      as (added1 & Hrun1 & Hmade1).
    destruct (IH (nominators ++ added1) (w ++ option_list (staker_error staker)))
      as (added2 & Hrun2 & Hmade2).
    exists (added1 ++ added2). split.
    + cbn [for_of]. rewrite (bind_Resolved _ _ _ _ _ Hrun1), Hrun2.
      rewrite <- !app_assoc. f_equal. f_equal. f_equal.
      cbn [omap list_omap]. now destruct (staker_error staker).
    + simpl. destruct (payee_answers staker).
      * change (staker :: List.filter payee_answers stakers)
          with ([staker] ++ List.filter payee_answers stakers).
        now apply Forall2_app.
      * inversion Hmade1; subst. exact Hmade2.
Qed.


Section Era.
Variable eraRewardPointsMap : gmap string Z.

Local Abbreviation validator_step :=
  (StakingTerms.validator_step polkadotConnector params eraRewardPointsMap) (only parsing).

(** [processValidator] fails only on the two reads about the validator
    itself; a staker never makes it fail. *)
Lemma processValidator_cases acc validator stakers stakersClipped w :
  match erasValidatorPrefs polkadotConnector (blockHash params) (eraId params) validator,
        payee polkadotConnector (blockHash params) validator with
  | Throws e, _ =>
      processValidator polkadotConnector params eraRewardPointsMap acc validator
        stakers stakersClipped w = (Rejected e, w)
  | Returns _, Throws e =>
      exists w',
        processValidator polkadotConnector params eraRewardPointsMap acc validator
          stakers stakersClipped w = (Rejected e, w')
  | Returns _, Returns _ =>
      exists acc' tail,
        processValidator polkadotConnector params eraRewardPointsMap acc validator
          stakers stakersClipped w
          = (Resolved acc',
             w ++ [debug_LoadedStakers (length (others stakers)) validator]
               ++ omap staker_error (others stakers) ++ tail) /\
        validator_step validator stakers stakersClipped acc acc'
  end.
Proof.
  unfold processValidator.
  destruct (erasValidatorPrefs _ _ _ validator) as [pf|e]; [|reflexivity].
  destruct (stakers_loop validator stakersClipped (others stakers) (nominators acc)
              (w ++ [debug_LoadedStakers (length (others stakers)) validator]))
    as (added & Hloop & Hmade).
  destruct (payee _ _ validator) as [vp|e].
  - do 2 (erewrite bind_Resolved by reflexivity).
    rewrite (bind_Resolved _ _ _ _ _ Hloop).
    erewrite bind_Resolved by reflexivity.
    destruct vp as [p|]; [destruct (negb (isAccount p))|].
    + eexists _, []. split; [unfold bind, ret; now rewrite app_nil_r, <- app_assoc|].
      eexists added, _. repeat split; try reflexivity. exact Hmade.
    + eexists _, []. split; [unfold bind, ret; now rewrite app_nil_r, <- app_assoc|].
      eexists added, _. repeat split; try reflexivity. exact Hmade.
    + eexists _, [_]. split; [unfold bind, ret, log, modify; now rewrite <- !app_assoc|].
      eexists added, _. repeat split; try reflexivity. exact Hmade.
  - do 2 (erewrite bind_Resolved by reflexivity).
    rewrite (bind_Resolved _ _ _ _ _ Hloop).
    eexists. reflexivity.
Qed.

(** A validator that went through had all four of its reads answered. *)
Lemma eachValidator_resolved acc validator w acc' w' :
  eachValidator polkadotConnector params eraRewardPointsMap acc validator w
    = (Resolved acc', w') ->
  exists stakers stakersClipped,
    erasStakers polkadotConnector (blockHash params) (eraId params) validator
      = Returns stakers /\
    erasStakersClipped polkadotConnector (blockHash params) (eraId params) validator
      = Returns stakersClipped /\
    validator_step validator stakers stakersClipped acc acc' /\
    exists logged,
      w' = w ++ logged /\
      forall staker, staker ∈ others stakers ->
        forall l, staker_error staker = Some l -> l ∈ logged.
Proof.
  unfold eachValidator, Promise_all2, bind at 1, await.
  destruct (erasStakers _ _ _ validator) as [stakers|e];
    destruct (erasStakersClipped _ _ _ validator) as [stakersClipped|e'];
    try discriminate.
  intros Hrun. exists stakers, stakersClipped.
  split; [reflexivity|]. split; [reflexivity|].
  pose proof (processValidator_cases acc validator stakers stakersClipped w) as Hcases.
  destruct (erasValidatorPrefs _ _ _ validator) as [pf|e].
  2: { rewrite Hcases in Hrun. discriminate. }
  destruct (payee _ _ validator) as [vp|e].
  2: { destruct Hcases as (? & Hcases). rewrite Hcases in Hrun. discriminate. }
  destruct Hcases as (acc1 & tail & Hcases & Hstep).
  rewrite Hcases in Hrun. injection Hrun as <- <-.
  split; [exact Hstep|].
  eexists. split; [reflexivity|].
  intros staker Hin l Hl.
  rewrite elem_of_cons, elem_of_app. right. left.
  apply list_elem_of_omap. eauto.
Qed.

(** A validator whose four reads are answered goes through, whatever the
    payee reads of its stakers do. *)
Lemma eachValidator_total acc validator w stakers stakersClipped pf vp :
  erasStakers polkadotConnector (blockHash params) (eraId params) validator
    = Returns stakers ->
  erasStakersClipped polkadotConnector (blockHash params) (eraId params) validator
    = Returns stakersClipped ->
  erasValidatorPrefs polkadotConnector (blockHash params) (eraId params) validator
    = Returns pf ->
  payee polkadotConnector (blockHash params) validator = Returns vp ->
  exists acc' w',
    eachValidator polkadotConnector params eraRewardPointsMap acc validator w
      = (Resolved acc', w').
Proof.
  intros Hs Hc Hp Hv.
  pose proof (processValidator_cases acc validator stakers stakersClipped w) as Hcases.
  rewrite Hp, Hv in Hcases. destruct Hcases as (acc' & tail & Hcases & _).
  unfold eachValidator, Promise_all2, bind at 1, await. rewrite Hs, Hc.
  eauto.
Qed.

Lemma validators_loop ids acc w acc' w' :
  for_of ids (eachValidator polkadotConnector params eraRewardPointsMap) acc w
    = (Resolved acc', w') ->
  exists added vs logged,
    nominators acc' = nominators acc ++ added /\
    Forall2 made_for' (ids ≫= stakers_of) added /\
    validators acc' = validators acc ++ vs /\
    Forall2 (fun validator v =>
               v_account_id v = validator /\
               reward_points v = default 0 (eraRewardPointsMap !! validator)) ids vs /\
    w' = w ++ logged /\
    forall validator staker l,
      validator ∈ ids -> failing_staker validator staker l -> l ∈ logged.
Proof.
  revert acc w. induction ids as [|validator ids IH]; intros acc w Hrun.
  - injection Hrun as <- <-. exists [], [], [].
    rewrite !app_nil_r. repeat split; try constructor.
    intros ? ? ? Hin. inversion Hin.
  - cbn [for_of] in Hrun.
    apply bind_inv_Resolved in Hrun as (acc1 & w1 & Hone & Hrest).
    apply eachValidator_resolved in Hone
      as (stakers & stakersClipped & Hs & Hc & Hstep & logged1 & -> & Hlog1).
    destruct Hstep as (added1 & v & Hn1 & Hmade1 & Hv1 & Hid & _ & Hpoints).
    apply IH in Hrest as (added2 & vs & logged2 & Hn2 & Hmade2 & Hv2 & Hvs & -> & Hlog2).
    exists (added1 ++ added2), (v :: vs), (logged1 ++ logged2).
    split; [now rewrite Hn2, Hn1, <- app_assoc|].
    split.
    { cbn [mbind list_bind]. apply Forall2_app; [|exact Hmade2].
      unfold StakingTerms.stakers_of. rewrite Hs, Hc.
      apply Forall2_fmap_l. eapply Forall2_impl; [exact Hmade1|]. now intros. }
    split; [now rewrite Hv2, Hv1, <- app_assoc|].
    split; [now constructor|].
    split; [now rewrite <- app_assoc|].
    intros validator' staker l Hin Hfail. rewrite elem_of_app.
    apply elem_of_cons in Hin as [->|Hin].
    + left. destruct Hfail as (stakers' & Hs' & Hin' & Herr).
      rewrite Hs in Hs'. injection Hs' as <-. eauto.
    + right. eauto.
Qed.

Lemma validators_loop_total ids acc w :
  Forall answered ids ->
  exists acc' w',
    for_of ids (eachValidator polkadotConnector params eraRewardPointsMap) acc w
      = (Resolved acc', w').
Proof.
  intros Hall. revert acc w. induction Hall as [|validator ids Hv _ IH]; intros acc w.
  - eexists _, _. reflexivity.
  - destruct Hv as ((s & Hs) & (c & Hc) & (pf & Hp) & (vp & Hvp)).
    destruct (eachValidator_total acc validator w s c pf vp Hs Hc Hp Hvp)
      as (acc1 & w1 & Hone).
    destruct (IH acc1 w1) as (acc' & w' & Hrest).
    exists acc', w'. cbn [for_of]. now rewrite (bind_Resolved _ _ _ _ _ Hone).
Qed.

End Era.

(** C7. Every Nominator record [getValidatorsAndNominatorsData] produces
    belongs to a staker listed in the unclipped exposure of its validator (the
    stakers of each validator in turn, those whose record is made), and its
    [is_clipped] is true exactly when no entry of that validator's clipped
    exposure has the staker's account id; and the records are produced
    whenever the reads about the validators are answered. *)
Theorem is_clipped_iff_absent_from_clipped w points :
  erasRewardPoints polkadotConnector (blockHash params) (eraId params) = Returns points ->
  (Forall answered (collectRewardPoints (individual points)).1 ->
   exists res w',
     getValidatorsAndNominatorsData polkadotConnector params w = (Resolved res, w')) /\
  (forall res w',
     getValidatorsAndNominatorsData polkadotConnector params w = (Resolved res, w') ->
     Forall2 (fun x n =>
                let '(validator, stakersClipped, staker) := x in
                n_validator n = validator /\
                n_account_id n = who staker /\
                (is_clipped n = true <->
                 forall e, e ∈ others stakersClipped -> who e <> who staker))
             ((collectRewardPoints (individual points)).1 ≫= stakers_of)
             (nominators res)).
Proof.
  intros Hpoints.
  unfold getValidatorsAndNominatorsData.
  erewrite bind_Resolved by (unfold await; rewrite Hpoints; reflexivity).
  destruct (collectRewardPoints (individual points)) as [ids eraRewardPointsMap].
  cbn [fst]. split.
  - intros Hall. apply validators_loop_total. exact Hall.
  - intros res w' Hrun.
    apply validators_loop in Hrun as (added & vs & logged & Hn & Hmade & _).
    cbn [nominators app] in Hn. rewrite Hn.
    eapply Forall2_impl; [exact Hmade|].
    intros [[validator stakersClipped] staker] n (_ & Hid & Hv & _ & Hclipped).
    auto.
Qed.

(** C10. When the reads about the validators themselves are answered, the
    call resolves although payee reads of stakers fail: each validator has
    its record, a staker has a record exactly when its payee can be read, and
    each staker left out has its error in the log. *)
Theorem failing_staker_is_skipped w points :
  erasRewardPoints polkadotConnector (blockHash params) (eraId params) = Returns points ->
  Forall answered (collectRewardPoints (individual points)).1 ->
  exists res logged,
    getValidatorsAndNominatorsData polkadotConnector params w = (Resolved res, w ++ logged) /\
    List.map v_account_id (validators res) = (collectRewardPoints (individual points)).1 /\
    Forall2 made_for' ((collectRewardPoints (individual points)).1 ≫= stakers_of)
            (nominators res) /\
    forall validator staker l,
      validator ∈ (collectRewardPoints (individual points)).1 ->
      failing_staker validator staker l -> l ∈ logged.
Proof.
  intros Hpoints Hall.
  unfold getValidatorsAndNominatorsData.
  erewrite bind_Resolved by (unfold await; rewrite Hpoints; reflexivity).
  destruct (collectRewardPoints (individual points)) as [ids eraRewardPointsMap].
  cbn [fst] in *.
  destruct (validators_loop_total eraRewardPointsMap ids
              {| nominators := []; validators := [] |} w Hall) as (res & w' & Hrun).
  pose proof (validators_loop _ _ _ _ _ _ Hrun)
    as (added & vs & logged & Hn & Hmade & Hv & Hvs & -> & Hlog).
  exists res, logged. split; [exact Hrun|].
  cbn [nominators validators app] in Hn, Hv. rewrite Hn, Hv.
  split; [|split; [exact Hmade|exact Hlog]].
  clear -Hvs. induction Hvs as [|validator v ids vs [Hid _] _ IH]; [reflexivity|].
  cbn [List.map]. now rewrite Hid, IH.
Qed.

End Proofs.

(** C7 on a run with stakers in both exposures (A, D) and one that is only
    in the unclipped exposure (C). *)
Lemma is_clipped_iff_absent_from_clipped_witness :
  exists res w',
    getValidatorsAndNominatorsData Examples.Era.connector Examples.Era.era42 []
      = (Resolved res, w') /\
    List.map (fun n => (n_account_id n, is_clipped n)) (nominators res)
      = [("A", false); ("C", true); ("D", false)] /\
    Forall2 (fun x n =>
               let '(validator, stakersClipped, staker) := x in
               n_validator n = validator /\
               n_account_id n = who staker /\
               (is_clipped n = true <->
                forall e, e ∈ others stakersClipped -> who e <> who staker))
            (["V1"; "V2"] ≫= StakingTerms.stakers_of Examples.Era.connector Examples.Era.era42)
            (nominators res).
Proof.
  destruct (getValidatorsAndNominatorsData Examples.Era.connector Examples.Era.era42 [])
    as [r w'] eqn:Hrun.
  assert (Hr : exists res, r = Resolved res) by (vm_compute in Hrun; injection Hrun as <- _; eauto).
  destruct Hr as [res ->].
  exists res, w'. split; [reflexivity|].
  split; [vm_compute in Hrun; now injection Hrun as <- _|].
  apply (proj2 (is_clipped_iff_absent_from_clipped Examples.Era.connector Examples.Era.era42 []
                  {| total_points := 150; individual := [("V1", 100); ("V2", 50)] |}
                  eq_refl) res w' Hrun).
Defined.

(** C10 on a run where the payee of staker B cannot be read: B has no
    record, A, C and D have theirs, and so have both validators. *)
Lemma failing_staker_is_skipped_witness :
  erasRewardPoints Examples.Era.connector "0xabc" 42
    = Returns {| total_points := 150; individual := [("V1", 100); ("V2", 50)] |} /\
  Forall (StakingTerms.answered Examples.Era.connector Examples.Era.era42) ["V1"; "V2"] /\
  exists res logged,
    getValidatorsAndNominatorsData Examples.Era.connector Examples.Era.era42 []
      = (Resolved res, [] ++ logged) /\
    List.map v_account_id (validators res) = ["V1"; "V2"] /\
    Forall2 (StakingTerms.made_for' Examples.Era.era42)
            (["V1"; "V2"] ≫= StakingTerms.stakers_of Examples.Era.connector Examples.Era.era42)
            (nominators res) /\
    forall validator staker l,
      validator ∈ ["V1"; "V2"] ->
      StakingTerms.failing_staker Examples.Era.connector Examples.Era.era42 validator staker l ->
      l ∈ logged.
Proof.
  assert (Hall : Forall (StakingTerms.answered Examples.Era.connector Examples.Era.era42) ["V1"; "V2"]).
  { repeat constructor; eexists; reflexivity. }
  split; [reflexivity|]. split; [exact Hall|].
  apply (failing_staker_is_skipped Examples.Era.connector Examples.Era.era42 []
           {| total_points := 150; individual := [("V1", 100); ("V2", 50)] |});
    [reflexivity|exact Hall].
Defined.
End StakingSpec.

(* ===================================================================== *)
(** ** The sync driver: chunks, retries, guard, status, trim *)
(* ===================================================================== *)

Module BlocksSpec.
Import Blocks AsyncFacts BlocksTerms.

Section Quiet.
Context {A B : Type} (ok : Effect -> bool).

Lemma quiet_ret (a : A) : quiet ok (ret a).
Proof.
  intros w. exists (Resolved a), w, []. rewrite app_nil_r. now repeat split.
Qed.

Lemma quiet_throw (e : Error) : quiet ok (@throw World A e).
Proof.
  intros w. exists (Rejected e), w, []. rewrite app_nil_r. now repeat split.
Qed.

Lemma quiet_request (answer : nat -> response A) : quiet ok (request answer).
Proof.
  intros w. unfold request, await.
  destruct (answer (clock w)) as [a|e]; eexists _, _, []; simpl;
    rewrite app_nil_r; now repeat split.
Qed.

Lemma quiet_unwrap (o : option A) : quiet ok (unwrap o).
Proof. destruct o; [apply quiet_ret|apply quiet_throw]. Qed.

Lemma quiet_bind (m : M World A) (k : A -> M World B) :
  quiet ok m -> (forall a, quiet ok (k a)) -> quiet ok (bind m k).
Proof.
  intros Hm Hk w. destruct (Hm w) as (r & w1 & added1 & Hrun & Hr & Hl & Ht & Hok).
  unfold bind. rewrite Hrun. destruct r as [a|e|]; [|now eauto 10|congruence].
  destruct (Hk a w1) as (r' & w2 & added2 & Hrun' & Hr' & Hl' & Ht' & Hok').
  exists r', w2, (added1 ++ added2). rewrite Hrun'. repeat split; auto.
  - congruence.
  - now rewrite Ht', Ht, app_assoc.
  - rewrite forallb_app. now rewrite Hok, Hok'.
Qed.

Lemma quiet_catch (m : M World A) (h : Error -> M World A) :
  quiet ok m -> (forall e, quiet ok (h e)) -> quiet ok (catch m h).
Proof.
  intros Hm Hh w. destruct (Hm w) as (r & w1 & added1 & Hrun & Hr & Hl & Ht & Hok).
  unfold catch. rewrite Hrun. destruct r as [a|e|]; [now eauto 10| |congruence].
  destruct (Hh e w1) as (r' & w2 & added2 & Hrun' & Hr' & Hl' & Ht' & Hok').
  exists r', w2, (added1 ++ added2). rewrite Hrun'. repeat split; auto.
  - congruence.
  - now rewrite Ht', Ht, app_assoc.
  - rewrite forallb_app. now rewrite Hok, Hok'.
Qed.
End Quiet.

Lemma quiet_emit (ok : Effect -> bool) (e : Effect) : ok e = true -> quiet ok (emit e).
Proof.
  intros He w. exists (Resolved tt), {| locked := locked w; clock := clock w;
                                       trace := trace w ++ [e] |}, [e].
  simpl. rewrite He. now repeat split.
Qed.

Ltac quiet_step :=
  lazymatch goal with
  | |- quiet _ (bind _ _) => apply quiet_bind; [|intros ?]
  | |- quiet _ (catch _ _) => apply quiet_catch; [|intros ?]
  | |- quiet _ (ret _) => apply quiet_ret
  | |- quiet _ (throw _) => apply quiet_throw
  | |- quiet _ (request _) => apply quiet_request
  | |- quiet _ (unwrap _) => apply quiet_unwrap
  | |- quiet _ (emit _) => apply quiet_emit; reflexivity
  | |- quiet _ (logger _ _) => apply quiet_emit; reflexivity
  | |- quiet _ (sleep _) => apply quiet_emit; reflexivity
  | |- quiet _ (match ?x with _ => _ end) => destruct x
  | |- quiet _ _ => progress cbv zeta
  end.

(** *** Jobs in flight *)

Lemma grows_refl ok w : grows ok w w.
Proof. split; [reflexivity|]. exists []. now rewrite app_nil_r. Qed.

Lemma grows_trans ok w1 w2 w3 : grows ok w1 w2 -> grows ok w2 w3 -> grows ok w1 w3.
Proof.
  intros [Hl1 (a1 & Ht1 & Ho1)] [Hl2 (a2 & Ht2 & Ho2)]. split; [congruence|].
  exists (a1 ++ a2). rewrite Ht2, Ht1, app_assoc, forallb_app, Ho1, Ho2. now split.
Qed.

Section Calm.
Context {A B : Type} (ok : Effect -> bool).

Lemma calm_weaken (P Q : outcome A -> Prop) (t : Task World A) :
  (forall r, P r -> Q r) -> calm ok P t -> calm ok Q t.
Proof.
  intros HPQ. induction t as [r|resume IH] using Task_induction; cbn; [apply HPQ|].
  intros Hc w. destruct (Hc w) as [Hg Hc']. split; [exact Hg|]. now apply IH.
Qed.

Lemma calm_sync (m : M World A) : quiet ok m -> calm_job ok settles (Jobs.sync m).
Proof.
  intros Hq w. destruct (Hq w) as (r & w' & added & Hrun & Hr & Hl & Ht & Hok).
  unfold Jobs.sync. rewrite Hrun. cbn. split; [split; eauto|exact Hr].
Qed.

Lemma calm_ret (P : outcome A -> Prop) (a : A) : P (Resolved a) -> calm_job ok P (Jobs.ret a).
Proof. intros HP w. cbn. split; [apply grows_refl|exact HP]. Qed.

Lemma calm_throw (P : outcome A -> Prop) (e : Error) :
  P (Rejected e) -> calm_job ok P (Jobs.throw e).
Proof. intros HP w. cbn. split; [apply grows_refl|exact HP]. Qed.

Lemma calm_after (P : outcome A -> Prop) (t : Task World A) :
  calm ok P t -> calm ok P (Jobs.after t).
Proof.
  induction t as [r|resume IH] using Task_induction; cbn.
  - intros HP w. cbn. split; [apply grows_refl|exact HP].
  - intros Hc w. destruct (Hc w) as [Hg Hc']. specialize (IH w).
    destruct (resume w) as [t' w']. cbn in *. split; auto.
Qed.

Lemma calm_await (P : outcome A -> Prop) (j : Job World A) :
  calm_job ok P j -> calm_job ok P (Jobs.await j).
Proof.
  intros Hj w. unfold Jobs.await. destruct (Hj w) as [Hg Hc].
  destruct (j w) as [t w']. cbn in *. split; [exact Hg|apply calm_after, Hc].
Qed.

Lemma calm_then (P : outcome A -> Prop) (Q : outcome B -> Prop)
    (t : Task World A) (k : A -> Job World B) :
  calm ok P t ->
  (forall a, P (Resolved a) -> calm_job ok Q (k a)) ->
  (forall e, P (Rejected e) -> Q (Rejected e)) ->
  (P Pending -> Q Pending) ->
  calm_job ok Q (Jobs.then_ t k).
Proof.
  intros Hc Hk He Hp.
  induction t as [[a|e|]|resume IH] using Task_induction; cbn in *.
  - now apply Hk.
  - intros w. cbn. split; [apply grows_refl|auto].
  - intros w. cbn. split; [apply grows_refl|auto].
  - intros w. cbn. split; [apply grows_refl|]. intros w1.
    destruct (Hc w1) as [Hg Hc']. specialize (IH w1 Hc').
    destruct (resume w1) as [t' w2]. cbn in *.
    destruct (IH w2) as [Hg' Hc'']. split; [eapply grows_trans; eauto|exact Hc''].
Qed.

Lemma calm_bind (P : outcome A -> Prop) (Q : outcome B -> Prop)
    (j : Job World A) (k : A -> Job World B) :
  calm_job ok P j ->
  (forall a, P (Resolved a) -> calm_job ok Q (k a)) ->
  (forall e, P (Rejected e) -> Q (Rejected e)) ->
  (P Pending -> Q Pending) ->
  calm_job ok Q (Jobs.bind j k).
Proof.
  intros Hj Hk He Hp w. unfold Jobs.bind. destruct (Hj w) as [Hg Hc].
  destruct (j w) as [t w']. cbn in *.
  destruct (calm_then P Q t k Hc Hk He Hp w') as [Hg' Hc'].
  split; [eapply grows_trans; eauto|exact Hc'].
Qed.

Lemma calm_bind_settles (j : Job World A) (k : A -> Job World B) :
  calm_job ok settles j -> (forall a, calm_job ok settles (k a)) ->
  calm_job ok settles (Jobs.bind j k).
Proof.
  intros Hj Hk. apply (calm_bind settles settles); [exact Hj| | |]; unfold settles; auto.
Qed.

Lemma calm_bind_resolves (j : Job World A) (k : A -> Job World B) :
  calm_job ok resolves j -> (forall a, calm_job ok resolves (k a)) ->
  calm_job ok resolves (Jobs.bind j k).
Proof.
  intros Hj Hk. apply (calm_bind resolves resolves); [exact Hj|auto| |].
  - intros e (a & Ha). discriminate.
  - intros (a & Ha). discriminate.
Qed.

Lemma calm_run (P : outcome A -> Prop) (t : Task World A) w :
  calm ok P t -> exists r w', Jobs.run t w = (r, w') /\ P r /\ grows ok w w'.
Proof.
  revert w. induction t as [r|resume IH] using Task_induction; intros w Hc; cbn in *.
  - exists r, w. split; [reflexivity|]. split; [exact Hc|apply grows_refl].
  - destruct (Hc w) as [Hg Hc']. specialize (IH w).
    destruct (resume w) as [t' w1]. cbn in *.
    destruct (IH w1 Hc') as (r & w' & Hrun & HP & Hg').
    exists r, w'. split; [exact Hrun|]. split; [exact HP|eapply grows_trans; eauto].
Qed.
End Calm.

Section CalmMore.
Context {A : Type} (ok : Effect -> bool).

Lemma calm_emit (e : Effect) : ok e = true -> calm_job ok resolves (Jobs.sync (emit e)).
Proof.
  intros He w. cbn. split; [|now exists tt].
  split; [reflexivity|]. exists [e]. cbn. now rewrite He.
Qed.

Lemma calm_caught (P Q : outcome A -> Prop) (t : Task World A) (h : Error -> Job World A) :
  calm ok P t ->
  (forall e, P (Rejected e) -> calm_job ok Q (h e)) ->
  (forall a, P (Resolved a) -> Q (Resolved a)) ->
  (P Pending -> Q Pending) ->
  calm_job ok Q (Jobs.caught t h).
Proof.
  intros Hc Hh Ha Hp.
  induction t as [[a|e|]|resume IH] using Task_induction; cbn in *.
  - intros w. cbn. split; [apply grows_refl|auto].
  - intros w. cbn. split; [apply grows_refl|]. now apply Hh.
  - intros w. cbn. split; [apply grows_refl|auto].
  - intros w. cbn. split; [apply grows_refl|]. intros w1.
    destruct (Hc w1) as [Hg Hc']. specialize (IH w1 Hc').
    destruct (resume w1) as [t' w2]. cbn in *.
    destruct (IH w2) as [Hg' Hc'']. split; [eapply grows_trans; eauto|exact Hc''].
Qed.

Lemma calm_catch (P Q : outcome A -> Prop) (j : Job World A) (h : Error -> Job World A) :
  calm_job ok P j ->
  (forall e, P (Rejected e) -> calm_job ok Q (h e)) ->
  (forall a, P (Resolved a) -> Q (Resolved a)) ->
  (P Pending -> Q Pending) ->
  calm_job ok Q (Jobs.catch j h).
Proof.
  intros Hj Hh Ha Hp w. unfold Jobs.catch. destruct (Hj w) as [Hg Hc].
  destruct (j w) as [t w']. cbn in *.
  destruct (calm_caught P Q t h Hc Hh Ha Hp w') as [Hg' Hc'].
  split; [eapply grows_trans; eauto|exact Hc'].
Qed.

Lemma beside_eq {W} (first : nat -> bool) (t : Task W A) n (ts : Task W (list A)) :
  beside first t n ts =
    match t, ts with
    | Settled r, Settled rs => Settled (join r rs)
    | Awaiting resume, Settled _ =>
        Awaiting (fun w => let '(t', w') := resume w in (beside first t' (S n) ts, w'))
    | Settled _, Awaiting resume' =>
        Awaiting (fun w => let '(ts', w') := resume' w in (beside first t (S n) ts', w'))
    | Awaiting resume, Awaiting resume' =>
        Awaiting (fun w =>
          if first n
          then let '(t', w') := resume w in (beside first t' (S n) ts, w')
          else let '(ts', w') := resume' w in (beside first t (S n) ts', w'))
    end.
Proof. destruct t, ts; reflexivity. Qed.

(** A job that resolves beside jobs that resolve: whatever the order in
    which the event loop takes them, all of them resolve. *)
Lemma calm_beside (first : nat -> bool) (t : Task World A) :
  calm ok resolves t ->
  forall (ts : Task World (list A)) n m,
    calm ok (resolves_with m) ts ->
    calm ok (resolves_with (S m)) (beside first t n ts).
Proof.
  induction t as [r|resume IH] using Task_induction; intros Hc ts.
  - induction ts as [rs|resume' IH'] using Task_induction; intros n m Hcs;
      rewrite beside_eq.
    + cbn in *. destruct Hc as (a & ->), Hcs as (l & -> & Hlen).
      exists (a :: l). cbn. now rewrite Hlen.
    + cbn in Hcs |- *. intros w. destruct (Hcs w) as [Hg Hcs'].
      specialize (IH' w). destruct (resume' w) as [ts' w']. cbn in *.
      split; [exact Hg|]. now apply IH'.
  - induction ts as [rs|resume' IH'] using Task_induction; intros n m Hcs;
      rewrite beside_eq.
    + cbn in Hc |- *. intros w. destruct (Hc w) as [Hg Hc'].
      specialize (IH w). destruct (resume w) as [t' w']. cbn in *.
      split; [exact Hg|]. now apply IH.
    + cbn in Hc, Hcs |- *. intros w. destruct (first n).
      * destruct (Hc w) as [Hg Hc'].
        specialize (IH w). destruct (resume w) as [t' w']. cbn in *.
        split; [exact Hg|]. apply IH; [exact Hc'|exact Hcs].
      * destruct (Hcs w) as [Hg Hcs'].
        specialize (IH' w). destruct (resume' w) as [ts' w']. cbn in *.
        split; [exact Hg|]. now apply IH'.
Qed.

Lemma calm_in_flight (first : nat -> nat -> bool) (ts : list (Task World A)) i :
  Forall (calm ok resolves) ts ->
  calm ok (resolves_with (length ts)) (in_flight first i ts).
Proof.
  revert i. induction ts as [|t ts IH]; intros i Hall; cbn [in_flight length].
  - now exists [].
  - inversion Hall as [|? ? Ht Hts]; subst. apply calm_beside; [exact Ht|now apply IH].
Qed.
End CalmMore.

Lemma dispatch_free_jobs added : forallb dispatch_free added = true -> jobs_in added = [].
Proof.
  unfold jobs_in. induction added as [|e added IH]; [reflexivity|].
  cbn [forallb flat_map]. intros [He Hrest]%andb_prop. rewrite (IH Hrest).
  now destruct e.
Qed.

Ltac calm_step :=
  lazymatch goal with
  | |- calm_job _ settles (Jobs.bind _ _) => apply calm_bind_settles; [|intros ?]
  | |- calm_job _ _ (Jobs.await _) => apply calm_await
  | |- calm_job _ settles (Jobs.sync (emit _)) => apply calm_sync, quiet_emit; reflexivity
  | |- calm_job _ settles (Jobs.sync (logger _ _)) => apply calm_sync, quiet_emit; reflexivity
  | |- calm_job _ settles (Jobs.sync (request _)) => apply calm_sync, quiet_request
  | |- calm_job _ settles (Jobs.sync (unwrap _)) => apply calm_sync, quiet_unwrap
  | |- calm_job _ settles (Jobs.ret _) => apply calm_ret; discriminate
  | |- calm_job _ settles (Jobs.throw _) => apply calm_throw; discriminate
  | |- calm_job _ _ (match ?x with _ => _ end) => destruct x
  | |- calm_job _ _ _ => progress cbv zeta
  end.

Section Proofs.
Variable collaborators : Collaborators.

Local Abbreviation head_bounded := (BlocksTerms.head_bounded collaborators) (only parsing).
Local Abbreviation start_resolves := (BlocksTerms.start_resolves collaborators) (only parsing).
Local Abbreviation after_guard := (BlocksTerms.after_guard collaborators) (only parsing).

Lemma processEvents_quiet ok blockNumber events :
  quiet ok (processEvents blockNumber events).
Proof. unfold processEvents. repeat quiet_step. Qed.

(** One attempt: entered once, and then nothing but the effects of the
    pipeline itself. *)
Lemma processBlock_attempt height w :
  exists r w' added,
    processBlock collaborators height w = (r, w') /\ r <> Pending /\
    locked w' = locked w /\
    trace w' = trace w ++ Enter_processBlock height :: added /\
    forallb job_free added = true.
Proof.
  assert (Hbody : exists k, processBlock collaborators height
                            = bind (emit (Enter_processBlock height)) (fun _ => k) /\
                            quiet job_free k).
  { eexists. split; [reflexivity|].
    repeat first [apply processEvents_quiet | quiet_step]. }
  destruct Hbody as (k & -> & Hk).
  destruct (Hk {| locked := locked w; clock := clock w;
                  trace := trace w ++ [Enter_processBlock height] |})
    as (r & w' & added & Hrun & Hr & Hl & Ht & Hok).
  exists r, w', added. unfold bind, emit, modify. rewrite Hrun.
  repeat split; auto. rewrite Ht. cbn [trace]. now rewrite <- app_assoc.
Qed.

Lemma checkHistoryDepthAvailableData_quiet blockNumber :
  quiet is_log (checkHistoryDepthAvailableData collaborators blockNumber).
Proof. unfold checkHistoryDepthAvailableData. repeat quiet_step. Qed.




(** *** A job with nothing beside it *)





(** *** The jobs of a chunk, in flight together *)

Lemma processBlock_job_calm height :
  calm_job dispatch_free settles (processBlock_job collaborators height).
Proof.
  unfold processBlock_job.
  repeat first [apply calm_sync, processEvents_quiet | calm_step].
Qed.

Lemma runBlocksWorker_for_job_calm n workerId blockNumber :
  calm_job dispatch_free resolves
    (runBlocksWorker_for_job collaborators n workerId blockNumber).
Proof.
  induction n as [|n IH]; cbn [runBlocksWorker_for_job].
  - apply calm_ret. now exists false.
  - apply calm_bind_resolves.
    + apply calm_await. apply (calm_catch _ settles resolves).
      * apply calm_bind_settles; [apply processBlock_job_calm|].
        intros _. apply calm_ret. discriminate.
      * intros e _. apply calm_bind_resolves; [now apply calm_emit|].
        intros _. apply calm_ret. now eexists.
      * intros a _. now exists a.
      * intros H. now contradiction H.
    + intros [e|].
      * apply calm_bind_resolves; [|intros _; exact IH].
        apply calm_await. now apply calm_emit.
      * apply calm_ret. now exists true.
Qed.

(** The calls of the jobs of a chunk: each job is dispatched, in the order
    of the array, and runs up to its first request. *)
Lemma jobs_dispatched (indices : list nat) blockNumber w :
  exists tasks w0 added,
    calls (List.map (fun i : nat => runBlocksWorker_job collaborators (Z.of_nat i + 1)
                                      (blockNumber + Z.of_nat i)) indices) w
      = (Resolved tasks, w0) /\
    length tasks = length indices /\
    Forall (calm dispatch_free resolves) tasks /\
    locked w0 = locked w /\
    trace w0 = trace w ++ added /\
    jobs_in added
      = List.map (fun i : nat => (Z.of_nat i + 1, blockNumber + Z.of_nat i)) indices.
Proof.
  revert w. induction indices as [|i indices IH]; intros w.
  - exists [], w, []. rewrite app_nil_r. now repeat split.
  - cbn [List.map calls].
    pose proof (runBlocksWorker_for_job_calm 5 (Z.of_nat i + 1) (blockNumber + Z.of_nat i)
                  (dispatched (Z.of_nat i + 1) (blockNumber + Z.of_nat i) w))
      as [[Hl1 (added1 & Ht1 & Hok1)] Hcalm].
    assert (Hjob : runBlocksWorker_job collaborators (Z.of_nat i + 1)
                     (blockNumber + Z.of_nat i) w
                   = runBlocksWorker_for_job collaborators 5 (Z.of_nat i + 1)
                       (blockNumber + Z.of_nat i)
                       (dispatched (Z.of_nat i + 1) (blockNumber + Z.of_nat i) w))
      by reflexivity.
    rewrite Hjob.
    destruct (runBlocksWorker_for_job collaborators 5 _ _ _) as [t w1].
    cbn [fst snd] in *.
    destruct (IH w1) as (tasks & w0 & added2 & Hcalls & Hlen & Hall & Hl2 & Ht2 & Hj2).
    rewrite Hcalls.
    exists (t :: tasks), w0,
      (Enter_runBlocksWorker (Z.of_nat i + 1) (blockNumber + Z.of_nat i)
         :: added1 ++ added2).
    split; [reflexivity|]. split; [cbn; now rewrite Hlen|].
    split; [now constructor|]. split; [cbn [locked dispatched] in Hl1; congruence|].
    split; [rewrite Ht2, Ht1; cbn [trace dispatched]; now rewrite <- !app_assoc|].
    unfold jobs_in in *. cbn [flat_map List.map]. rewrite flat_map_app, Hj2.
    fold (jobs_in added1). now rewrite (dispatch_free_jobs _ Hok1).
Qed.

(** The jobs of a chunk, one per index: all of them are dispatched and, in
    whatever order the event loop takes them, all of them resolve, whatever
    each of them returns. *)
Lemma jobs_all_resolve (indices : list nat) blockNumber w :
  exists tasks w0 results w' added,
    calls (List.map (fun i : nat => runBlocksWorker_job collaborators (Z.of_nat i + 1)
                                      (blockNumber + Z.of_nat i)) indices) w
      = (Resolved tasks, w0) /\
    Promise_all (eventLoop collaborators) tasks w0 = (Resolved results, w') /\
    length results = length indices /\
    locked w' = locked w /\
    trace w' = trace w ++ added /\
    jobs_in added
      = List.map (fun i : nat => (Z.of_nat i + 1, blockNumber + Z.of_nat i)) indices.
Proof.
  destruct (jobs_dispatched indices blockNumber w)
    as (tasks & w0 & added1 & Hcalls & Hlen & Hall & Hl1 & Ht1 & Hj1).
  destruct (calm_run dispatch_free _ _ w0
              (calm_in_flight dispatch_free (eventLoop collaborators w0) tasks 0 Hall))
    as (r & w' & Hrun & (results & -> & Hlen') & [Hl2 (added2 & Ht2 & Hok2)]).
  exists tasks, w0, results, w', (added1 ++ added2).
  split; [exact Hcalls|]. split; [exact Hrun|]. split; [congruence|].
  split; [congruence|]. split; [rewrite Ht2, Ht1; now rewrite <- app_assoc|].
  unfold jobs_in in *. rewrite flat_map_app, Hj1.
  fold (jobs_in added2). rewrite (dispatch_free_jobs _ Hok2). now rewrite app_nil_r.
Qed.

(** Under a bounded head the loop ends: with fuel beyond the distance to the
    bound it is not pending. *)
Lemma processBlocks_while_settles H :
  head_bounded H ->
  forall fuel blockNumber lastBlockNumber w,
    lastBlockNumber <= H ->
    (Z.to_nat (H - blockNumber + 1) < fuel)%nat ->
    exists r w',
      processBlocks_while collaborators fuel blockNumber lastBlockNumber w = (r, w') /\
      r <> Pending /\ locked w' = locked w.
Proof.
  intros Hhead fuel. induction fuel as [|fuel IH]; intros b last w Hlast Hfuel; [lia|].
  cbn [processBlocks_while].
  destruct (b <=? last) eqn:Hle; [|eexists _, _; now repeat split].
  apply Z.leb_le in Hle.
  destruct (jobs_all_resolve (seq 0 (Z.to_nat (chunk last b))) b w)
    as (tasks & w0 & results & w1 & added & Hcalls & Hjobs & _ & Hl1 & _).
  unfold processTasks.
  rewrite (bind_Resolved _ _ _ _ _ Hcalls), (bind_Resolved _ _ _ _ _ Hjobs).
  destruct (b + 10 >? last) eqn:Hgt.
  - unfold bind, request, await.
    destruct (getFinBlockNumber collaborators (clock w1)) as [h|e] eqn:Hfin.
    + match goal with |- context [processBlocks_while _ _ _ _ ?w2] =>
        destruct (IH (b + 10) h w2) as (r & w' & Hrun & Hr & Hl)
      end; [eauto|lia|].
      exists r, w'. rewrite Hrun. repeat split; auto. rewrite Hl. exact Hl1.
    + eexists _, _. split; [reflexivity|]. split; [discriminate|exact Hl1].
  - unfold bind, ret.
    destruct (IH (b + 10) last w1) as (r & w' & Hrun & Hr & Hl); [lia|lia|].
    exists r, w'. rewrite Hrun. repeat split; auto. congruence.
Qed.

Lemma processBlocks_to_guard fuel startBlockNumber optionSubscribeFinHead w s last :
  locked w = false ->
  start_resolves w startBlockNumber s ->
  getFinBlockNumber collaborators (head_clock w startBlockNumber) = Returns last ->
  processBlocks collaborators fuel startBlockNumber optionSubscribeFinHead w
    = bind (checkHistoryDepthAvailableData collaborators s)
           (after_guard fuel s last optionSubscribeFinHead)
           (at_guard w startBlockNumber s last).
Proof.
  intros Hfree Hs Hlast.
  unfold processBlocks, at_guard, head_clock, BlocksTerms.start_resolves in *.
  unfold bind at 1, SyncStatus_acquire. rewrite Hfree.
  destruct startBlockNumber as [n|].
  - subst n. unfold bind at 1, ret. unfold bind at 1, logger at 1, emit at 1, modify at 1.
    unfold bind at 1, request, await. cbn [clock]. rewrite Hlast.
    unfold bind at 1, logger at 1, emit at 1, modify at 1.
    cbn [locked clock trace]. rewrite <- app_assoc. reflexivity.
  - unfold bind at 1, request at 1, await. cbn [clock]. rewrite Hs.
    unfold bind at 1, logger at 1, emit at 1, modify at 1.
    unfold bind at 1, request at 1, await. cbn [clock]. rewrite Hlast.
    unfold bind at 1, logger at 1, emit at 1, modify at 1.
    cbn [locked clock trace]. rewrite <- app_assoc. reflexivity.
Qed.

(** A pass from a given height under a bounded head is not pending once the
    fuel exceeds the distance to the bound. *)
Lemma processBlocks_settles H fuel s optionSubscribeFinHead w :
  locked w = false ->
  head_bounded H ->
  (Z.to_nat (H - s + 1) < fuel)%nat ->
  exists r w',
    processBlocks collaborators fuel (Some s) optionSubscribeFinHead w = (r, w') /\
    r <> Pending.
Proof.
  intros Hfree Hhead Hfuel.
  destruct (getFinBlockNumber collaborators (clock w)) as [last|e] eqn:Hlast.
  - rewrite (processBlocks_to_guard fuel (Some s) optionSubscribeFinHead w s last
               Hfree eq_refl Hlast).
    destruct (checkHistoryDepthAvailableData_quiet s (at_guard w (Some s) s last))
      as (r & w1 & added & Hrun & Hr & _).
    unfold bind at 1. rewrite Hrun.
    destruct r as [[|]|e|]; [| |eexists _, _; now split|congruence].
    + cbn [BlocksTerms.after_guard negb].
      destruct (processBlocks_while_settles H Hhead fuel s last w1)
        as (r & w2 & Hloop & Hr2 & _); [eauto|exact Hfuel|].
      unfold bind at 1. rewrite Hloop.
      destruct r as [[]|e|]; [|eexists _, _; now split|congruence].
      destruct optionSubscribeFinHead as [[|]|]; eexists _, _; split;
        try reflexivity; discriminate.
    + eexists _, _. split; [reflexivity|discriminate].
  - exists (Rejected e). eexists. split; [|discriminate].
    unfold processBlocks. unfold bind at 1, SyncStatus_acquire. rewrite Hfree.
    unfold bind at 1, ret. unfold bind at 1, logger, emit, modify.
    unfold bind at 1, request, await. cbn [clock]. rewrite Hlast. reflexivity.
Qed.

(** *** Properties of the driver *)

(** The last, partial chunk has as many jobs as the distance to the head,
    one less than the number of heights left. *)
Lemma chunk_partial lastBlockNumber blockNumber :
  0 <= lastBlockNumber - blockNumber < 10 ->
  chunk lastBlockNumber blockNumber = lastBlockNumber - blockNumber.
Proof.
  intros Hd. unfold chunk.
  destruct (lastBlockNumber - blockNumber >=? 10) eqn:Hge; [lia|].
  apply Z.rem_small. lia.
Qed.

(** C4. When the history-depth guard answers false for the start height,
    [processBlocks] resolves with the lock released, having added nothing
    but log entries to the trace: no block job is dispatched, nothing is
    published and the repository is not written. *)
Theorem guard_failure_stops_sync fuel startBlockNumber optionSubscribeFinHead w s last w2 :
  locked w = false ->
  start_resolves w startBlockNumber s ->
  getFinBlockNumber collaborators (head_clock w startBlockNumber) = Returns last ->
  checkHistoryDepthAvailableData collaborators s (at_guard w startBlockNumber s last)
    = (Resolved false, w2) ->
  exists logged,
    processBlocks collaborators fuel startBlockNumber optionSubscribeFinHead w
      = (Resolved tt, {| locked := false; clock := clock w2; trace := trace w ++ logged |}) /\
    forallb is_log logged = true /\
    jobs_in logged = [] /\
    attempts_in logged = [].
Proof.
  intros Hfree Hs Hlast Hguard.
  rewrite (processBlocks_to_guard fuel startBlockNumber optionSubscribeFinHead w s last
             Hfree Hs Hlast).
  rewrite (bind_Resolved _ _ _ _ _ Hguard).
  destruct (checkHistoryDepthAvailableData_quiet s (at_guard w startBlockNumber s last))
    as (r & w2' & added & Hrun & _ & _ & Ht & Hok).
  rewrite Hguard in Hrun. injection Hrun as <- <-.
  exists ([Log info (StartingProcessBlocks s); Log info (ProcessingBlocksToHead s last)]
            ++ added ++ [Log error CannotReceiveStorageData]).
  split.
  { unfold BlocksTerms.after_guard, negb, bind, logger, emit, modify, release. cbn [locked clock trace].
    rewrite Ht. cbn [at_guard trace]. now rewrite <- !app_assoc. }
  assert (Hall : forallb is_log
            ([Log info (StartingProcessBlocks s); Log info (ProcessingBlocksToHead s last)]
               ++ added ++ [Log error CannotReceiveStorageData]) = true).
  { cbn [app forallb is_log andb]. rewrite forallb_app, Hok. reflexivity. }
  split; [exact Hall|].
  revert Hall. generalize ([Log info (StartingProcessBlocks s);
                            Log info (ProcessingBlocksToHead s last)]
                             ++ added ++ [Log error CannotReceiveStorageData]).
  intros l Hl. unfold jobs_in, attempts_in.
  induction l as [|e l IH]; [now split|].
  cbn [forallb] in Hl. apply andb_prop in Hl as [He Hl].
  destruct (IH Hl) as [Hj Ha]. cbn [flat_map]. rewrite Hj, Ha.
  now destruct e.
Qed.


(** C8, amended.  [getBlocksStatus] resolves with status "synchronization"
    when the sync lock is held and "synchronized" otherwise; when the three
    height reads are answered, [height_diff] is the finalized head minus the
    last locally processed height and [fin_height_diff] the number of the
    head header minus the finalized head, and both are -1 otherwise. *)
Theorem getBlocksStatus_result w :
  exists r w',
    getBlocksStatus collaborators w = (Resolved r, w') /\
    locked w' = locked w /\
    status r = (if locked w then "synchronization" else "synchronized") /\
    match getFinBlockNumber collaborators (clock w),
          getHeader collaborators (S (clock w)),
          getLastProcessedBlock collaborators (S (S (clock w))) with
    | Returns lastBlockNumber, Returns lastHeader, Returns lastLocalNumber =>
        height_diff r = lastBlockNumber - lastLocalNumber /\
        fin_height_diff r = number lastHeader - lastBlockNumber
    | _, _, _ => height_diff r = -1 /\ fin_height_diff r = -1
    end.
Proof.
  unfold getBlocksStatus, SyncStatus_isLocked, gets, catch, request, await, bind,
    logger, emit, modify, ret; cbn [clock locked].
  destruct (getFinBlockNumber collaborators (clock w)) as [f|e];
    [destruct (getHeader collaborators (S (clock w))) as [h|e];
     [destruct (getLastProcessedBlock collaborators (S (S (clock w)))) as [l|e]|]|];
    destruct (locked w); eexists _, _; repeat split; try reflexivity;
    destruct (getHeader _ _); try destruct (getLastProcessedBlock _ _); now split.
Qed.

(** C9. With the sync lock held, [trimAndUpdateToFinalized] resolves with
    [{result: false}] and does nothing but log; with the lock free it trims,
    runs the pass, and resolves with [{result: true}] whether the trim threw,
    the pass threw or the pass came to its end (it is pending only as long as
    the pass is, and under a bounded head the pass ends). *)
Theorem trimAndUpdateToFinalized_result fuel startBlockNumber w :
  (locked w = true ->
   trimAndUpdateToFinalized collaborators fuel startBlockNumber w
     = (Resolved {| result := false |},
        {| locked := true; clock := clock w;
           trace := trace w ++ [Log error FailedSetupTrim] |})) /\
  (locked w = false ->
   (forall e,
      trimBlocksFrom collaborators (clock w) startBlockNumber = Throws e ->
      trimAndUpdateToFinalized collaborators fuel startBlockNumber w
        = (Resolved {| result := true |},
           {| locked := false; clock := S (clock w);
              trace := trace w ++ [TrimBlocksFrom startBlockNumber;
                                   Log error (FailedToExecuteTrim e)] |})) /\
   (trimBlocksFrom collaborators (clock w) startBlockNumber = Returns tt ->
    forall r w1,
      processBlocks collaborators fuel (Some startBlockNumber) None
        {| locked := false; clock := S (clock w);
           trace := trace w ++ [TrimBlocksFrom startBlockNumber] |} = (r, w1) ->
      trimAndUpdateToFinalized collaborators fuel startBlockNumber w
        = match r with
          | Resolved _ => (Resolved {| result := true |}, w1)
          | Rejected e =>
              (Resolved {| result := true |},
               {| locked := locked w1; clock := clock w1;
                  trace := trace w1 ++ [Log error (FailedToExecuteTrim e)] |})
          | Pending => (Pending, w1)
          end) /\
   (forall H,
      head_bounded H -> (Z.to_nat (H - startBlockNumber + 1) < fuel)%nat ->
      exists w',
        trimAndUpdateToFinalized collaborators fuel startBlockNumber w
          = (Resolved {| result := true |}, w'))).
Proof.
  assert (Hthrows : locked w = false -> forall e,
            trimBlocksFrom collaborators (clock w) startBlockNumber = Throws e ->
            trimAndUpdateToFinalized collaborators fuel startBlockNumber w
              = (Resolved {| result := true |},
                 {| locked := false; clock := S (clock w);
                    trace := trace w ++ [TrimBlocksFrom startBlockNumber;
                                         Log error (FailedToExecuteTrim e)] |})).
  { intros Hfree e Htrim.
    unfold trimAndUpdateToFinalized, SyncStatus_isLocked, gets, bind at 1. rewrite Hfree.
    unfold bind at 1, catch, bind at 1, emit, modify, bind at 1, request, await.
    cbn [clock locked trace]. rewrite Htrim, Hfree.
    unfold logger, emit, modify, ret. cbn [clock locked trace].
    now rewrite <- app_assoc. }
  assert (Hreturns : locked w = false ->
            trimBlocksFrom collaborators (clock w) startBlockNumber = Returns tt ->
            forall r w1,
              processBlocks collaborators fuel (Some startBlockNumber) None
                {| locked := false; clock := S (clock w);
                   trace := trace w ++ [TrimBlocksFrom startBlockNumber] |} = (r, w1) ->
              trimAndUpdateToFinalized collaborators fuel startBlockNumber w
                = match r with
                  | Resolved _ => (Resolved {| result := true |}, w1)
                  | Rejected e =>
                      (Resolved {| result := true |},
                       {| locked := locked w1; clock := clock w1;
                          trace := trace w1 ++ [Log error (FailedToExecuteTrim e)] |})
                  | Pending => (Pending, w1)
                  end).
  { intros Hfree Htrim r w1 Hpass.
    unfold trimAndUpdateToFinalized, SyncStatus_isLocked, gets, bind at 1. rewrite Hfree.
    unfold bind at 1, catch, bind at 1, emit, modify, bind at 1, request, await.
    cbn [clock locked trace]. rewrite Htrim, Hfree, Hpass.
    now destruct r as [[]|e|]. }
  split.
  - intros Hheld.
    unfold trimAndUpdateToFinalized, SyncStatus_isLocked, gets, bind at 1. rewrite Hheld.
    unfold bind, logger, emit, modify, ret. now rewrite Hheld.
  - intros Hfree. split; [exact (Hthrows Hfree)|]. split; [exact (Hreturns Hfree)|].
    intros H Hhead Hfuel.
    destruct (trimBlocksFrom collaborators (clock w) startBlockNumber) as [[]|e] eqn:Htrim.
    + destruct (processBlocks_settles H fuel startBlockNumber None
                  {| locked := false; clock := S (clock w);
                     trace := trace w ++ [TrimBlocksFrom startBlockNumber] |}
                  eq_refl Hhead Hfuel) as (r & w1 & Hpass & Hr).
      rewrite (Hreturns Hfree eq_refl r w1 Hpass).
      destruct r as [[]|e|]; [eauto|eauto|congruence].
    + rewrite (Hthrows Hfree e eq_refl). eauto.
Qed.

End Proofs.

(** C1 at startHeight 100 with the head at 119.  The pass dispatches a chunk
    of ten jobs for 100..109 and then a chunk of nine for 110..118: the
    second chunk is one job short and height 119 gets no job. *)
Theorem processBlocks_100_119_leaves_out_the_head :
  exists w',
    processBlocks Examples.Sync.steady 3 (Some 100) None Examples.Sync.idle
      = (Resolved tt, w') /\
    locked w' = false /\
    jobs_in (trace w')
      = List.map (fun i : nat => (Z.of_nat i + 1, 100 + Z.of_nat i)) (seq 0 10)
        ++ List.map (fun i : nat => (Z.of_nat i + 1, 110 + Z.of_nat i)) (seq 0 9) /\
    chunk 119 110 = 9 /\
    Z.min 10 (119 - 110 + 1) = 10 /\
    bool_decide (119 ∈ List.map snd (jobs_in (trace w'))) = false.
Proof.
  destruct (processBlocks Examples.Sync.steady 3 (Some 100) None Examples.Sync.idle)
    as [r w'] eqn:Hrun.
  vm_compute in Hrun. injection Hrun as <- <-.
  eexists. split; [reflexivity|]. now vm_compute.
Qed.


(** C4 on a node that has no hash for the start height 100. *)
Lemma guard_failure_stops_sync_witness :
  exists logged,
    processBlocks Examples.Sync.unknown_100 5 (Some 100) None Examples.Sync.idle
      = (Resolved tt, {| locked := false; clock := 2; trace := [] ++ logged |}) /\
    forallb is_log logged = true /\
    jobs_in logged = [] /\
    attempts_in logged = [].
Proof.
  apply (guard_failure_stops_sync Examples.Sync.unknown_100 5 (Some 100) None
           Examples.Sync.idle 100 119
           {| locked := true; clock := 2;
              trace := [Log info (StartingProcessBlocks 100);
                        Log info (ProcessingBlocksToHead 100 119);
                        Log error (CannotGetBlockHash 100)] |});
    reflexivity.
Defined.

(** A chunk whose sixth job can never fetch its block, with the jobs taken
    in turns: the job gives up after five attempts and resolves with
    [false], its nine siblings resolve with [true]. *)
Example chunk_with_a_failing_job :
  exists w1,
    bind (processTasks Examples.Sync.hole_at_105 (chunk 119 100) 100)
         (Promise_all (eventLoop Examples.Sync.hole_at_105)) Examples.Sync.idle
      = (Resolved [true; true; true; true; true; false; true; true; true; true], w1) /\
    attempts_in (trace w1)
      = List.map Some [100; 101; 102; 103; 104; 105; 106; 107; 108; 109; 105; 105; 105; 105] /\
    failures_in (trace w1) = [(6, 105); (6, 105); (6, 105); (6, 105); (6, 105)] /\
    sleeps_in (trace w1) = [2000; 2000; 2000; 2000; 2000].
Proof.
  destruct (bind _ _ Examples.Sync.idle) as [r w1] eqn:Hrun.
  vm_compute in Hrun. injection Hrun as <- <-.
  eexists. split; [reflexivity|]. now vm_compute.
Qed.

(** Five jobs in flight, taken in turns: the five hash requests are made
    when the jobs are dispatched, so the tenth request is the block-info
    request of the fifth job; that job logs the failure, sleeps, and
    succeeds at its second attempt. *)
Example jobs_share_the_clock :
  exists w1,
    bind (processTasks Examples.Sync.tenth_request_fails (chunk 105 100) 100)
         (Promise_all (eventLoop Examples.Sync.tenth_request_fails)) Examples.Sync.idle
      = (Resolved [true; true; true; true; true], w1) /\
    attempts_in (trace w1) = List.map Some [100; 101; 102; 103; 104; 104] /\
    failures_in (trace w1) = [(5, 104)] /\
    sleeps_in (trace w1) = [2000].
Proof.
  destruct (bind _ _ Examples.Sync.idle) as [r w1] eqn:Hrun.
  vm_compute in Hrun. injection Hrun as <- <-.
  eexists. split; [reflexivity|]. now vm_compute.
Qed.


(** C8 as stated fails: while the lock is held the status is the string
    "synchronization". *)
Lemma getBlocksStatus_counterexample :
  exists r w',
    getBlocksStatus Examples.Sync.steady Examples.Sync.syncing = (Resolved r, w') /\
    locked Examples.Sync.syncing = true /\
    status r = "synchronization" /\
    status r <> "synchronizing".
Proof.
  destruct (getBlocksStatus Examples.Sync.steady Examples.Sync.syncing) as [r w'] eqn:Hrun.
  vm_compute in Hrun. injection Hrun as <- <-.
  eexists _, _. split; [reflexivity|]. split; [reflexivity|]. split; [reflexivity|].
  discriminate.
Qed.

(** C9 with the lock held, and with the lock free and a trim that throws. *)
Lemma trimAndUpdateToFinalized_result_witness :
  trimAndUpdateToFinalized Examples.Sync.steady 10 100 Examples.Sync.syncing
    = (Resolved {| result := false |},
       {| locked := true; clock := 0; trace := [] ++ [Log error FailedSetupTrim] |}) /\
  trimAndUpdateToFinalized Examples.Sync.no_trim 10 100 Examples.Sync.idle
    = (Resolved {| result := true |},
       {| locked := false; clock := 1;
          trace := [] ++ [TrimBlocksFrom 100;
                          Log error (FailedToExecuteTrim (MkError "deadlock detected"))] |}) /\
  exists w',
    trimAndUpdateToFinalized Examples.Sync.steady 25 100 Examples.Sync.idle
      = (Resolved {| result := true |}, w').
Proof.
  split; [|split].
  - apply (proj1 (trimAndUpdateToFinalized_result Examples.Sync.steady 10 100
                    Examples.Sync.syncing)).
    reflexivity.
  - apply (proj1 (proj2 (trimAndUpdateToFinalized_result Examples.Sync.no_trim 10 100
                           Examples.Sync.idle) eq_refl)).
    reflexivity.
  - apply (proj2 (proj2 (proj2 (trimAndUpdateToFinalized_result Examples.Sync.steady 25 100
                                  Examples.Sync.idle) eq_refl)) 119).
    + intros t h [= <-]. lia.
    + simpl. lia.
Defined.
End BlocksSpec.

(* ===================================================================== *)
(** ** The task processor: the other paths of a delivery *)
(* ===================================================================== *)

Module BlockMetadataProcessorMore.
Import BlockMetadataProcessor TaskTerms.

Lemma alter_present (tasks : gmap (ENTITY * Z) ProcessingTask) (f : ProcessingTask -> ProcessingTask)
    k t :
  tasks !! k = Some t -> alter f k tasks = <[k := f t]> tasks.
Proof.
  intros Ht. apply map_eq. intros k'. rewrite lookup_alter, lookup_insert.
  case_decide; [now rewrite Ht|reflexivity].
Qed.

Lemma alter_absent (tasks : gmap (ENTITY * Z) ProcessingTask) (f : ProcessingTask -> ProcessingTask)
    k :
  tasks !! k = None -> alter f k tasks = tasks.
Proof.
  intros Ht. apply map_eq. intros k'. rewrite lookup_alter.
  case_decide; [subst; now rewrite Ht|reflexivity].
Qed.

Lemma gtb_false a b : a <= b -> (a >? b) = false.
Proof. intros H. rewrite Z.gtb_ltb. apply Z.ltb_ge. exact H. Qed.

(** The run of a delivery that commits, step by step. *)
Ltac commit_run Ht Hkey Huid Hstatus Hmax Hread :=
  unfold processTaskMessage, increaseAttempts, modify, catch, transaction, handler,
    readTaskAndLockRow, transacting, bind; simpl;
  rewrite (alter_present _ _ _ _ Ht), lookup_insert_eq; simpl;
  rewrite (gtb_false _ _ Hmax); simpl;
  rewrite Huid, bool_decide_eq_true_2 by reflexivity; simpl;
  rewrite Hstatus; simpl;
  unfold read_issuance in Hread;
  unfold processBlock, insertTotalIssuance, setTaskRecordAsProcessed, commit, logger, modify,
    transacting, await, bind; simpl;
  match goal with |- context [getBlockHash ?env ?id] =>
    destruct (getBlockHash env id) as [?h|?e]; [|discriminate]; simpl
  end;
  match goal with |- context [at_ ?env ?h] =>
    destruct (at_ env h) as [?api|?e]; [|discriminate]; simpl
  end;
  rewrite Hread; simpl;
  unfold well_keyed in Hkey; rewrite Hkey;
  rewrite (alter_present _ _ _ (bump _)) by apply lookup_insert_eq;
  rewrite insert_insert_eq; rewrite <- app_assoc; reflexivity.

Section Paths.
Variable environment : Environment.
Variable message : TaskMessage.

Local Abbreviation blockId := (message_entity_id message) (only parsing).
Local Abbreviation key := (BLOCK_METADATA, message_entity_id message) (only parsing).

(** A delivery for a Work Item that does not exist is absorbed: the call
    resolves, the store is left exactly as it was (no row appears, nothing is
    counted) and the not-found warning is logged. *)
Theorem delivery_for_missing_row w :
  processing_tasks (db w) !! key = None ->
  processTaskMessage environment message w =
    (Resolved tt,
     {| db := db w; trx := NoTransaction;
        logs := logs w ++ [warning_record message TaskRecordNotFound] |}).
Proof.
  intros Hnone.
  unfold processTaskMessage, increaseAttempts, modify, catch, transaction, handler,
    readTaskAndLockRow, transacting, bind; simpl.
  rewrite (alter_absent _ _ _ Hnone), Hnone; simpl.
  now destruct (db w).
Qed.

(** A current delivery whose chain reads succeed: the call resolves, the
    status flips to PROCESSED and the total-issuance row of the block is
    appended, both or neither, and the two info records are logged. *)
Theorem delivery_commits w t n :
  processing_tasks (db w) !! key = Some t ->
  well_keyed key t ->
  collect_uid t = message_collect_uid message ->
  status t = NOT_PROCESSED ->
  attempts t + 1 <= MAX_ATTEMPTS environment ->
  read_issuance environment blockId = Returns n ->
  processTaskMessage environment message w =
    (Resolved tt,
     {| db := {| processing_tasks := <[key := mark_processed (bump t)]> (processing_tasks (db w));
                 total_issuance_rows :=
                   total_issuance_rows (db w) ++ [issuance_row environment blockId n] |};
        trx := NoTransaction;
        logs := logs w ++ [log_record info message (StartProcessing blockId);
                           log_record info message (ProcessedAndCommitted blockId)] |}).
Proof.
  intros Ht Hkey Huid Hstatus Hmax Hread. commit_run Ht Hkey Huid Hstatus Hmax Hread.
Qed.

(** A current delivery one of whose chain reads throws: the exception is
    logged and re-raised, and the transaction leaves nothing behind: the
    status is still NOT_PROCESSED, no row is appended, only the attempts
    counter has moved. *)
Theorem delivery_fails_atomically w t e :
  processing_tasks (db w) !! key = Some t ->
  collect_uid t = message_collect_uid message ->
  status t = NOT_PROCESSED ->
  attempts t + 1 <= MAX_ATTEMPTS environment ->
  read_issuance environment blockId = Throws e ->
  processTaskMessage environment message w =
    (Rejected e,
     {| db := {| processing_tasks := <[key := bump t]> (processing_tasks (db w));
                 total_issuance_rows := total_issuance_rows (db w) |};
        trx := NoTransaction;
        logs := logs w ++ [log_record info message (StartProcessing blockId);
                           log_record error_level message (error (Async.message e))] |}).
Proof.
  intros Ht Huid Hstatus Hmax Hread.
  unfold processTaskMessage, increaseAttempts, modify, catch, transaction, handler,
    readTaskAndLockRow, transacting, bind; simpl.
  rewrite (alter_present _ _ _ _ Ht), lookup_insert_eq; simpl.
  rewrite (gtb_false _ _ Hmax); simpl.
  rewrite Huid, bool_decide_eq_true_2 by reflexivity. simpl.
  rewrite Hstatus; simpl.
  unfold read_issuance in Hread.
  unfold processBlock, insertTotalIssuance, logger, modify, throw, transacting, await, bind;
    simpl.
  destruct (getBlockHash environment blockId) as [h|e1]; simpl.
  - destruct (at_ environment h) as [api|e2]; simpl.
    + rewrite Hread; simpl. now rewrite <- app_assoc.
    + injection Hread as ->. now rewrite <- app_assoc.
  - injection Hread as ->. now rewrite <- app_assoc.
Qed.

(** Once a Work Item is PROCESSED no delivery processes it again, whatever
    its token and however many attempts were made: the call resolves, one
    warning is logged, no row is appended and the status stays. *)
Theorem processed_row_is_never_reprocessed w t :
  processing_tasks (db w) !! key = Some t ->
  status t = PROCESSED ->
  exists reason,
    processTaskMessage environment message w =
      (Resolved tt,
       {| db := {| processing_tasks := <[key := bump t]> (processing_tasks (db w));
                   total_issuance_rows := total_issuance_rows (db w) |};
          trx := NoTransaction;
          logs := logs w ++ [warning_record message reason] |}).
Proof.
  intros Ht Hstatus.
  unfold processTaskMessage, increaseAttempts, modify, catch, transaction, handler,
    readTaskAndLockRow, transacting, bind; simpl.
  rewrite (alter_present _ _ _ _ Ht), lookup_insert_eq; simpl.
  destruct (attempts t + 1 >? MAX_ATTEMPTS environment); simpl; [eauto|].
  destruct (bool_decide (collect_uid t = message_collect_uid message)); simpl; [|eauto].
  rewrite Hstatus; simpl. eauto.
Qed.

(** What a run of the transaction leaves in the store, in full: nothing, or
    the row of the block together with the flip of a NOT_PROCESSED status. *)
Lemma transaction_handler_commit w :
  let '(r, w') := transaction (handler environment blockId (message_collect_uid message)) w in
  db w' = db w \/
  exists t n,
    r = Resolved tt /\
    processing_tasks (db w) !! key = Some t /\
    status t = NOT_PROCESSED /\
    db w' = {| processing_tasks :=
                 alter mark_processed (entity t, entity_id t) (processing_tasks (db w));
               total_issuance_rows :=
                 total_issuance_rows (db w) ++ [issuance_row environment blockId n] |}.
Proof.
  unfold transaction, handler, readTaskAndLockRow, transacting, bind; simpl.
  destruct (processing_tasks (db w) !! key) as [t|] eqn:Ht; simpl; [|now left].
  destruct (attempts t >? MAX_ATTEMPTS environment); simpl; [now left|].
  destruct (negb (bool_decide (collect_uid t = message_collect_uid message))); simpl;
    [now left|].
  destruct (status t) eqn:Hstatus; simpl; [|now left].
  unfold processBlock, insertTotalIssuance, transacting, await, bind; simpl.
  destruct (getBlockHash environment blockId) as [h|e]; simpl; [|now left].
  destruct (at_ environment h) as [api|e]; simpl; [|now left].
  destruct (totalIssuance api) as [n|e]; simpl; [|now left].
  right. exists t, n. repeat split; try reflexivity; assumption.
Qed.

(** The output write and the status flip are never separated: after any
    delivery either no row was appended and the status of the Work Item is
    what it was, or the call resolved, the status went from NOT_PROCESSED to
    PROCESSED and exactly one row, the one of this block, was appended. *)
Theorem row_and_status_flip_together w :
  (forall t, processing_tasks (db w) !! key = Some t -> well_keyed key t) ->
  let '(r, w') := processTaskMessage environment message w in
  (total_issuance_rows (db w') = total_issuance_rows (db w) /\
   status <$> (processing_tasks (db w') !! key) = status <$> (processing_tasks (db w) !! key))
  \/
  (r = Resolved tt /\
   status <$> (processing_tasks (db w) !! key) = Some NOT_PROCESSED /\
   status <$> (processing_tasks (db w') !! key) = Some PROCESSED /\
   exists row,
     block_id row = blockId /\
     total_issuance_rows (db w') = total_issuance_rows (db w) ++ [row]).
Proof.
  intros Hkeyed.
  unfold processTaskMessage.
  unfold bind at 1. unfold increaseAttempts at 1, modify at 1.
  set (w0 := set_db _ w).
  assert (Hstatus0 : status <$> (processing_tasks (db w0) !! key)
                     = status <$> (processing_tasks (db w) !! key)).
  { subst w0. cbn [db set_db set_tasks processing_tasks].
    rewrite lookup_alter. case_decide; [|congruence].
    now destruct (processing_tasks (db w) !! key). }
  assert (Hrows0 : total_issuance_rows (db w0) = total_issuance_rows (db w)) by reflexivity.
  pose proof (transaction_handler_commit w0) as Hrun.
  unfold catch.
  destruct (transaction _ w0) as [r w1] eqn:Erun.
  assert (Hfinal :
    (total_issuance_rows (db w1) = total_issuance_rows (db w) /\
     status <$> (processing_tasks (db w1) !! key) = status <$> (processing_tasks (db w) !! key))
    \/
    (r = Resolved tt /\
     status <$> (processing_tasks (db w) !! key) = Some NOT_PROCESSED /\
     status <$> (processing_tasks (db w1) !! key) = Some PROCESSED /\
     exists row,
       block_id row = blockId /\
       total_issuance_rows (db w1) = total_issuance_rows (db w) ++ [row])).
  { destruct Hrun as [-> | (t0 & n & -> & Ht0 & Hst & ->)].
    - left. now split.
    - right. split; [reflexivity|].
      assert (Hk0 : (entity t0, entity_id t0) = key).
      { subst w0. cbn [db set_db set_tasks processing_tasks] in Ht0.
        rewrite lookup_alter in Ht0. case_decide; [|congruence].
        destruct (processing_tasks (db w) !! key) as [t|] eqn:Ht; [|discriminate].
        injection Ht0 as <-. exact (Hkeyed t eq_refl). }
      split; [rewrite <- Hstatus0, Ht0; cbn; now rewrite Hst|].
      split.
      + cbn [db processing_tasks]. rewrite Hk0, lookup_alter.
        case_decide; [|congruence]. now rewrite Ht0.
      + eexists. split; [|cbn [db total_issuance_rows]; now rewrite Hrows0].
        reflexivity. }
  destruct r as [[]|e|]; [exact Hfinal| |exact Hfinal].
  unfold logger, modify, throw, bind; simpl.
  destruct Hfinal as [Hfinal|(Hr & _)]; [now left|discriminate].
Qed.

(** A delivery touches the Work Item it names and no other. *)
Theorem other_work_items_untouched w k :
  (forall t, processing_tasks (db w) !! key = Some t -> well_keyed key t) ->
  k <> key ->
  processing_tasks (db (processTaskMessage environment message w).2) !! k
    = processing_tasks (db w) !! k.
Proof.
  intros Hkeyed Hk.
  unfold processTaskMessage.
  unfold bind at 1. unfold increaseAttempts at 1, modify at 1.
  set (w0 := set_db _ w).
  assert (Hother0 : processing_tasks (db w0) !! k = processing_tasks (db w) !! k).
  { subst w0. cbn [db set_db set_tasks processing_tasks].
    now rewrite lookup_alter_ne by congruence. }
  pose proof (transaction_handler_commit w0) as Hrun.
  unfold catch.
  destruct (transaction _ w0) as [r w1] eqn:Erun.
  assert (Hother1 : processing_tasks (db w1) !! k = processing_tasks (db w) !! k).
  { destruct Hrun as [-> | (t0 & n & _ & Ht0 & _ & ->)]; [exact Hother0|].
    assert (Hk0 : (entity t0, entity_id t0) = key).
    { subst w0. cbn [db set_db set_tasks processing_tasks] in Ht0.
      rewrite lookup_alter in Ht0. case_decide; [|congruence].
      destruct (processing_tasks (db w) !! key) as [t|] eqn:Ht; [|discriminate].
      injection Ht0 as <-. exact (Hkeyed t eq_refl). }
    cbn [db processing_tasks]. rewrite Hk0.
    now rewrite lookup_alter_ne by congruence. }
  destruct r as [[]|e|]; exact Hother1.
Qed.

(** At most once: after a delivery has committed, any further delivery for
    the same block (the same message again, or another token) resolves
    without appending a second row; the block has exactly the one row. *)
Theorem redelivery_adds_no_row w t n message2 :
  processing_tasks (db w) !! key = Some t ->
  well_keyed key t ->
  collect_uid t = message_collect_uid message ->
  status t = NOT_PROCESSED ->
  attempts t + 1 <= MAX_ATTEMPTS environment ->
  read_issuance environment blockId = Returns n ->
  message_entity_id message2 = blockId ->
  exists w2,
    processTaskMessage environment message2
      (processTaskMessage environment message w).2 = (Resolved tt, w2) /\
    total_issuance_rows (db w2)
      = total_issuance_rows (db w) ++ [issuance_row environment blockId n] /\
    status <$> (processing_tasks (db w2) !! key) = Some PROCESSED.
Proof.
  intros Ht Hkey Huid Hstatus Hmax Hread Hsame.
  assert (Hfirst : processTaskMessage environment message w =
    (Resolved tt,
     {| db := {| processing_tasks := <[key := mark_processed (bump t)]> (processing_tasks (db w));
                 total_issuance_rows :=
                   total_issuance_rows (db w) ++ [issuance_row environment blockId n] |};
        trx := NoTransaction;
        logs := logs w ++ [log_record info message (StartProcessing blockId);
                           log_record info message (ProcessedAndCommitted blockId)] |}))
    by commit_run Ht Hkey Huid Hstatus Hmax Hread.
  rewrite Hfirst. cbn [snd].
  unfold processTaskMessage, increaseAttempts, modify, catch, transaction, handler,
    readTaskAndLockRow, transacting, bind; simpl.
  rewrite Hsame.
  rewrite (alter_present _ _ _ (mark_processed (bump t))) by apply lookup_insert_eq.
  rewrite insert_insert_eq, lookup_insert_eq; simpl.
  destruct (attempts t + 1 + 1 >? MAX_ATTEMPTS environment); simpl.
  { eexists. split; [reflexivity|]. simpl. now rewrite lookup_insert_eq. }
  destruct (bool_decide (collect_uid t = message_collect_uid message2)); simpl.
  - eexists. split; [reflexivity|]. simpl. now rewrite lookup_insert_eq.
  - eexists. split; [reflexivity|]. simpl. now rewrite lookup_insert_eq.
Qed.

End Paths.

Lemma delivery_for_missing_row_witness :
  processTaskMessage Examples.Task.chain (Examples.Task.delivery "a") Examples.Task.empty_store =
    (Resolved tt,
     {| db := db Examples.Task.empty_store; trx := NoTransaction;
        logs := [] ++ [warning_record (Examples.Task.delivery "a") TaskRecordNotFound] |}).
Proof.
  apply (delivery_for_missing_row Examples.Task.chain (Examples.Task.delivery "a")
           Examples.Task.empty_store).
  reflexivity.
Defined.

Lemma delivery_commits_witness :
  let t := Examples.Task.task7 0 "a" NOT_PROCESSED in
  let m := Examples.Task.delivery "a" in
  processTaskMessage Examples.Task.chain m (Examples.Task.store t) =
    (Resolved tt,
     {| db := {| processing_tasks :=
                   <[(BLOCK_METADATA, 7) := Examples.Task.task7 1 "a" PROCESSED]>
                     (processing_tasks (db (Examples.Task.store t)));
                 total_issuance_rows :=
                   [] ++ [ {| block_id := 7; total_issuance := "1000";
                              network_id := 1284; row_time := 0 |} ] |};
        trx := NoTransaction;
        logs := [] ++ [log_record info m (StartProcessing 7);
                       log_record info m (ProcessedAndCommitted 7)] |}).
Proof.
  apply (delivery_commits Examples.Task.chain (Examples.Task.delivery "a")
           (Examples.Task.store (Examples.Task.task7 0 "a" NOT_PROCESSED))
           (Examples.Task.task7 0 "a" NOT_PROCESSED) 1000);
    try reflexivity.
  simpl. lia.
Defined.

Lemma delivery_fails_atomically_witness :
  let t := Examples.Task.task7 0 "a" NOT_PROCESSED in
  let m := Examples.Task.delivery "a" in
  processTaskMessage Examples.Task.pruned_chain m (Examples.Task.store t) =
    (Rejected (MkError "State already discarded"),
     {| db := {| processing_tasks :=
                   <[(BLOCK_METADATA, 7) := Examples.Task.task7 1 "a" NOT_PROCESSED]>
                     (processing_tasks (db (Examples.Task.store t)));
                 total_issuance_rows := [] |};
        trx := NoTransaction;
        logs := [] ++ [log_record info m (StartProcessing 7);
                       log_record error_level m (error "State already discarded")] |}).
Proof.
  apply (delivery_fails_atomically Examples.Task.pruned_chain (Examples.Task.delivery "a")
           (Examples.Task.store (Examples.Task.task7 0 "a" NOT_PROCESSED))
           (Examples.Task.task7 0 "a" NOT_PROCESSED) (MkError "State already discarded"));
    try reflexivity.
  simpl. lia.
Defined.

Lemma processed_row_is_never_reprocessed_witness :
  let t := Examples.Task.task7 1 "a" PROCESSED in
  let m := Examples.Task.delivery "a" in
  exists reason,
    processTaskMessage Examples.Task.chain m (Examples.Task.store t) =
      (Resolved tt,
       {| db := {| processing_tasks :=
                     <[(BLOCK_METADATA, 7) := Examples.Task.task7 2 "a" PROCESSED]>
                       (processing_tasks (db (Examples.Task.store t)));
                   total_issuance_rows := [] |};
          trx := NoTransaction;
          logs := [] ++ [warning_record m reason] |}).
Proof.
  apply (processed_row_is_never_reprocessed Examples.Task.chain (Examples.Task.delivery "a")
           (Examples.Task.store (Examples.Task.task7 1 "a" PROCESSED))
           (Examples.Task.task7 1 "a" PROCESSED));
    reflexivity.
Defined.

Lemma keyed_store (t : ProcessingTask) k t' :
  processing_tasks (db (Examples.Task.store t)) !! k = Some t' -> well_keyed k t'.
Proof.
  unfold Examples.Task.store; cbn [db processing_tasks]. intros H.
  apply lookup_singleton_Some in H as [<- <-]. reflexivity.
Qed.

Lemma row_and_status_flip_together_witness :
  let w := Examples.Task.store (Examples.Task.task7 0 "a" NOT_PROCESSED) in
  let '(r, w') := processTaskMessage Examples.Task.chain (Examples.Task.delivery "a") w in
  (total_issuance_rows (db w') = total_issuance_rows (db w) /\
   status <$> (processing_tasks (db w') !! (BLOCK_METADATA, 7))
     = status <$> (processing_tasks (db w) !! (BLOCK_METADATA, 7)))
  \/
  (r = Resolved tt /\
   status <$> (processing_tasks (db w) !! (BLOCK_METADATA, 7)) = Some NOT_PROCESSED /\
   status <$> (processing_tasks (db w') !! (BLOCK_METADATA, 7)) = Some PROCESSED /\
   exists row,
     block_id row = 7 /\
     total_issuance_rows (db w') = total_issuance_rows (db w) ++ [row]).
Proof.
  apply (row_and_status_flip_together Examples.Task.chain (Examples.Task.delivery "a")
           (Examples.Task.store (Examples.Task.task7 0 "a" NOT_PROCESSED))).
  intros t. apply keyed_store.
Defined.

Lemma other_work_items_untouched_witness :
  let w := Examples.Task.store (Examples.Task.task7 0 "a" NOT_PROCESSED) in
  processing_tasks
    (db (processTaskMessage Examples.Task.chain (Examples.Task.delivery "a") w).2)
    !! (BLOCK_METADATA, 8)
  = processing_tasks (db w) !! (BLOCK_METADATA, 8).
Proof.
  apply (other_work_items_untouched Examples.Task.chain (Examples.Task.delivery "a")
           (Examples.Task.store (Examples.Task.task7 0 "a" NOT_PROCESSED))
           (BLOCK_METADATA, 8)).
  - intros t. apply keyed_store.
  - discriminate.
Defined.

Lemma redelivery_adds_no_row_witness :
  let w := Examples.Task.store (Examples.Task.task7 0 "a" NOT_PROCESSED) in
  exists w2,
    processTaskMessage Examples.Task.chain (Examples.Task.delivery "a")
      (processTaskMessage Examples.Task.chain (Examples.Task.delivery "a") w).2
      = (Resolved tt, w2) /\
    total_issuance_rows (db w2)
      = [] ++ [ {| block_id := 7; total_issuance := "1000";
                   network_id := 1284; row_time := 0 |} ] /\
    status <$> (processing_tasks (db w2) !! (BLOCK_METADATA, 7)) = Some PROCESSED.
Proof.
  apply (redelivery_adds_no_row Examples.Task.chain (Examples.Task.delivery "a")
           (Examples.Task.store (Examples.Task.task7 0 "a" NOT_PROCESSED))
           (Examples.Task.task7 0 "a" NOT_PROCESSED) 1000 (Examples.Task.delivery "a"));
    try reflexivity.
  simpl. lia.
Defined.
End BlockMetadataProcessorMore.

(* ===================================================================== *)
(** ** The sync driver: events, single blocks, the guard, the lock *)
(* ===================================================================== *)

Module BlocksMore.
Import Blocks AsyncFacts BlocksTerms BlocksMoreTerms.

(** *** Events *)

Lemma extractEventData_from (types data : list string) (k : nat) :
  (k <= length types)%nat ->
  mapM (fun '(index, d) => (fun type => (type, d)) <$> types !! index)
       (imap (fun i d => ((k + i)%nat, d)) data)
  = if decide (k + length data <= length types)%nat
    then Some (zip (take (length data) (drop k types)) data)
    else None.
Proof.
  revert k. induction data as [|d data IH]; intros k Hk.
  - cbn. case_decide; [reflexivity|lia].
  - cbn [imap length]. rewrite (imap_ext _ (fun i d => ((S k + i)%nat, d)))
      by (intros; cbn; f_equal; lia).
    cbn [mapM]. rewrite Nat.add_0_r.
    destruct (types !! k) as [ty|] eqn:Hty; cbn.
    + apply lookup_lt_Some in Hty as Hlt.
      pose proof (IH (S k) ltac:(lia)) as IH'. cbn [Nat.add] in IH'. rewrite IH'.
      case_decide; case_decide; try lia; cbn; [|reflexivity].
      rewrite (drop_S _ _ _ Hty). reflexivity.
    + apply lookup_ge_None in Hty. case_decide; [lia|reflexivity].
Qed.

(** [extractEventData] pairs every datum with the type at its index, and
    fails as soon as a datum has no type. *)
Theorem extractEventData_pairs (types data : list string) :
  extractEventData types data
  = if decide (length data <= length types)%nat
    then Some (zip (take (length data) types) data)
    else None.
Proof.
  unfold extractEventData.
  rewrite (imap_ext pair (fun i d => ((0 + i)%nat, d))) by reflexivity.
  rewrite extractEventData_from by lia. reflexivity.
Qed.

#[local] Instance typed_dec record : Decision (typed record).
Proof. unfold typed. apply _. Defined.

Lemma processEvents_from (blockNumber : Z) (events : list EventRecord) (k : nat) :
  mapM (fun '(eventIndex, record) =>
          data' ← extractEventData (typeDef record) (data record);
          Some {| id := (blockNumber, eventIndex);
                  e_section := section record;
                  e_method := method record;
                  e_phase := phase record;
                  e_meta := meta record;
                  e_data := data';
                  e_event := toJSON record |})
       (imap (fun i r => ((k + i)%nat, r)) events)
  = if decide (Forall typed events)
    then Some (imap (fun i r => converted blockNumber (k + i) r) events)
    else None.
Proof.
  revert k. induction events as [|record events IH]; intros k.
  - cbn. case_decide as H; [reflexivity|]. destruct H. constructor.
  - cbn [imap]. rewrite (imap_ext _ (fun i r => ((S k + i)%nat, r)))
      by (intros; cbn; f_equal; lia).
    rewrite (imap_ext (_ ∘ S) (fun i r => converted blockNumber (S k + i) r))
      by (intros; cbn; f_equal; lia).
    cbn [mapM]. rewrite IH. rewrite Nat.add_0_r.
    unfold extractEventData at 1.
    rewrite (imap_ext pair (fun i d => ((0 + i)%nat, d))) by reflexivity.
    rewrite extractEventData_from by lia.
    rewrite drop_0.
    destruct (decide (0 + length (data record) <= length (typeDef record))%nat) as [Hh|Hh];
      destruct (decide (Forall typed events)) as [Ht|Ht];
      destruct (decide (Forall typed (record :: events))) as [Ha|Ha];
      cbn; try reflexivity; exfalso;
      first [ apply Ha; constructor; [unfold typed; lia|assumption]
            | inversion Ha; subst; unfold typed in *; first [lia|contradiction] ].
Qed.

(** [processEvents] in closed form. *)
Lemma processEvents_run (blockNumber : Z) (events : list EventRecord) (w : World) :
  processEvents blockNumber events w
  = if decide (Forall typed events)
    then (Resolved (imap (fun i r => converted blockNumber (0 + i) r) events), w)
    else (Rejected TypeError, w).
Proof.
  unfold processEvents.
  rewrite (imap_ext pair (fun i r => ((0 + i)%nat, r))) by reflexivity.
  rewrite processEvents_from. now case_decide.
Qed.

Lemma converted_ids (blockNumber : Z) (events : list EventRecord) (k : nat) :
  List.map id (imap (fun i r => converted blockNumber (k + i) r) events)
  = List.map (fun i => (blockNumber, i)) (seq k (length events)).
Proof.
  revert k. induction events as [|r events IH]; intros k; [reflexivity|].
  cbn [imap List.map length seq]. rewrite Nat.add_0_r. f_equal.
  rewrite (imap_ext _ (fun i r => converted blockNumber (S k + i) r))
    by (intros; cbn; f_equal; lia).
  apply IH.
Qed.

(** [processEvents] converts the events of a block one to one and in order:
    the [i]-th record gets the id (blockNumber, i), so ids are unique within
    a block, and its data are the data of the event, each paired with its
    type.  An event with a datum that has no type definition makes the whole
    call reject with a TypeError. *)
Theorem processEvents_ids blockNumber events w :
  (Forall typed events ->
   exists acc,
     processEvents blockNumber events w = (Resolved acc, w) /\
     length acc = length events /\
     (forall i record, events !! i = Some record ->
        acc !! i = Some (converted blockNumber i record)) /\
     List.map id acc = List.map (fun i => (blockNumber, i)) (seq 0 (length events)) /\
     NoDup (List.map id acc)) /\
  (~ Forall typed events ->
   processEvents blockNumber events w = (Rejected TypeError, w)).
Proof.
  rewrite processEvents_run.
  split; intros Hall; (case_decide; [|try contradiction]); try contradiction; [|reflexivity].
  exists (imap (fun i r => converted blockNumber (0 + i) r) events).
  split; [reflexivity|]. split; [apply length_imap|].
  pose proof (converted_ids blockNumber events 0) as Hids.
  split; [|split; [exact Hids|]].
  - intros i record Hi. rewrite list_lookup_imap, Hi. reflexivity.
  - rewrite Hids. apply NoDup_fmap_2; [|apply NoDup_seq].
    intros a b [= ->]. reflexivity.
Qed.

(** *** One block *)

Section Driver.
Variable collaborators : Collaborators.

Ltac run_step :=
  cbv beta iota; cbn [clock locked trace fst snd].

(** A run of [processBlock]: at most one block record goes to the broker;
    the progress counter moves and an era-payout signal is queued only in a
    run that resolves, and a run resolves only if the hash, the block info,
    the active era and the signed block are there and every event is typed.
    A resolved run has published the block the node returned, extracted its
    extrinsics, queued the first staking.EraPayout event of the block if
    there is one, and counted once, after four requests. *)
Theorem processBlock_run height w :
  exists r w' added,
    processBlock collaborators (Some height) w = (r, w') /\
    trace w' = trace w ++ Enter_processBlock (Some height) :: added /\
    (length (published_in added) <= 1)%nat /\
    match r with
    | Resolved _ =>
        exists blockHash blockInfo signedBlock era,
          getBlockHashByHeight collaborators (clock w) height = Returns (Some blockHash) /\
          getInfoToProcessBlock collaborators (S (clock w)) blockHash = Returns blockInfo /\
          Blocks.signedBlock blockInfo = Some signedBlock /\
          activeEra blockInfo = Some era /\
          Forall typed (events blockInfo) /\
          List.map b_number (published_in added) = [number (header signedBlock)] /\
          extracted_in added = [(era, sessionId blockInfo, number (header signedBlock))] /\
          queued_in added
            = List.map (fun ev => (ev, blockHash))
                       (option_list (List.find is_era_payout (events blockInfo))) /\
          counted_in added = [1] /\
          clock w' = (4 + clock w)%nat
    | Rejected _ => counted_in added = [] /\ queued_in added = []
    | Pending => False
    end.
Proof.
  unfold processBlock.
  unfold bind at 1, emit at 1, modify at 1.
  unfold bind at 1, request at 1, await. run_step.
  destruct (getBlockHashByHeight collaborators (clock w) height) as [[blockHash|]|e] eqn:Hhash;
    run_step.
  2,3: eexists _, _, []; split; [reflexivity|]; split; [reflexivity|]; split; [cbn; lia|];
       now split.
  unfold bind at 1, request at 1, await. run_step.
  destruct (getInfoToProcessBlock collaborators (S (clock w)) blockHash) as [blockInfo|e]
    eqn:Hinfo; run_step.
  2: eexists _, _, []; split; [reflexivity|]; split; [reflexivity|]; split; [cbn; lia|];
     now split.
  unfold bind at 1, unwrap.
  destruct (activeEra blockInfo) as [era|] eqn:Hera; unfold ret at 1, throw at 1; run_step.
  2: eexists _, _, []; split; [reflexivity|]; split; [reflexivity|]; split; [cbn; lia|];
     now split.
  destruct (signedBlock blockInfo) as [sb|] eqn:Hsb; unfold throw; run_step.
  2: eexists _, _, []; split; [reflexivity|]; split; [reflexivity|]; split; [cbn; lia|];
     now split.
  unfold bind at 1. rewrite processEvents_run.
  destruct (decide (Forall typed (events blockInfo))) as [Htyped|Htyped]; run_step.
  2: eexists _, _, []; split; [reflexivity|]; split; [reflexivity|]; split; [cbn; lia|];
     now split.
  unfold bind at 1, logger at 1, emit at 1, modify at 1. run_step.
  unfold bind at 1, emit at 1, modify at 1. run_step.
  unfold bind at 1, request at 1, await. run_step.
  match goal with |- context [sendBlockData collaborators ?t ?b] =>
    destruct (sendBlockData collaborators t b) as [[]|e]; run_step
  end.
  2: { eexists _, _, [_; _]. split; [reflexivity|].
       split; [now rewrite <- !app_assoc|]. split; [cbn; lia|]. now split. }
  unfold bind at 1, emit at 1, modify at 1. run_step.
  unfold bind at 1, request at 1, await. run_step.
  match goal with |- context [extractExtrinsics collaborators ?t ?a ?b ?c ?d ?f] =>
    destruct (extractExtrinsics collaborators t a b c d f) as [[]|e]; run_step
  end.
  2: { eexists _, _, [_; _; _]. split; [reflexivity|].
       split; [now rewrite <- !app_assoc|]. split; [cbn; lia|]. now split. }
  unfold bind at 1.
  fold is_era_payout.
  change (List.find (fun event => bool_decide (section event = "staking")
                                  && bool_decide (method event = "EraPayout")))
    with (List.find is_era_payout).
  destruct (List.find is_era_payout (events blockInfo)) as [ev|] eqn:Hfind;
    unfold emit, ret, modify; run_step.
  - eexists _, _, [_; _; _; _; _]. split; [reflexivity|].
    split; [now rewrite <- !app_assoc|]. split; [cbn; lia|].
    exists blockHash, blockInfo, sb, era.
    repeat split; auto; cbn; try rewrite Hfind; reflexivity.
  - eexists _, _, [_; _; _; _]. split; [reflexivity|].
    split; [now rewrite <- !app_assoc|]. split; [cbn; lia|].
    exists blockHash, blockInfo, sb, era.
    repeat split; auto; cbn; try rewrite Hfind; reflexivity.
Qed.

(** [updateOneBlock] resolves with [true] exactly when [processBlock] does;
    when [processBlock] rejects, the cause is only logged and the caller gets
    the fixed error "cannot process block". *)
Theorem updateOneBlock_hides_the_cause blockNumber w :
  match processBlock collaborators (Some blockNumber) w with
  | (Resolved _, w1) =>
      updateOneBlock collaborators blockNumber w = (Resolved true, w1)
  | (Rejected e, w1) =>
      updateOneBlock collaborators blockNumber w
        = (Rejected (MkError "cannot process block"),
           later w1 0 [Log error (FailedToProcessBlock blockNumber e)])
  | (Pending, _) => False
  end.
Proof.
  destruct (BlocksSpec.processBlock_attempt collaborators (Some blockNumber) w)
    as (r & w1 & added & Hrun & Hr & _).
  unfold updateOneBlock, bind, catch. rewrite Hrun.
  destruct r as [[]|e|]; [reflexivity|reflexivity|congruence].
Qed.

(** *** The history-depth guard *)

(** With the hash of the block, the history depth and the two eras at hand,
    the guard reads the block info only in deep history (current era minus
    block era beyond the depth); there it answers whether session id, active
    era and header are all present, logging each missing piece; in shallow
    history it answers true after four requests and logs nothing. *)
Theorem guard_decision blockNumber w blockHash depth current blockEra :
  getBlockHashByHeight collaborators (clock w) blockNumber = Returns (Some blockHash) ->
  getHistoryDepth collaborators (1 + clock w) blockHash = Returns depth ->
  getCurrentRawEra collaborators (2 + clock w) None = Returns (Some (Some current)) ->
  getCurrentRawEra collaborators (3 + clock w) (Some blockHash)
    = Returns (Some (Some blockEra)) ->
  checkHistoryDepthAvailableData collaborators blockNumber w =
    if current - blockEra >? depth then
      match getInfoToCheckHistoryDepth collaborators (4 + clock w) blockHash with
      | Returns i =>
          (Resolved (complete i),
           later w 5 (Log info (LessThanHistoryDepth depth) :: missing blockNumber blockHash i))
      | Throws e => (Rejected e, later w 5 [Log info (LessThanHistoryDepth depth)])
      end
    else (Resolved true, later w 4 []).
Proof.
  intros Hhash Hdepth Hcurrent Hblock.
  unfold checkHistoryDepthAvailableData, later.
  cbn [Nat.add] in *.
  unfold bind at 1, request at 1, await. rewrite Hhash. run_step.
  unfold bind at 1, request at 1, await. run_step. rewrite Hdepth. run_step.
  unfold bind at 1, request at 1, await. run_step. rewrite Hcurrent. run_step.
  unfold bind at 1, request at 1, await. run_step. rewrite Hblock. run_step.
  unfold bind at 1, unwrap, ret at 1. run_step.
  destruct (current - blockEra >? depth).
  - unfold bind at 1, logger at 1, emit at 1, modify at 1. run_step.
    unfold bind at 1, request at 1, await. run_step.
    destruct (getInfoToCheckHistoryDepth collaborators (S (S (S (S (clock w))))) blockHash)
      as [[sid ae eh]|e]; run_step; [|reflexivity].
    unfold complete, missing, bind, logger, emit, modify, ret. cbn [h_sessionId h_activeEra h_extHeader].
    destruct sid as [?|]; destruct ae as [[?|]|]; destruct eh as [[? []]|];
      simpl; rewrite <- ?app_assoc; reflexivity.
  - unfold ret. now rewrite app_nil_r.
Qed.

(** *** The lock *)

Lemma processBlocks_while_lock fuel blockNumber lastBlockNumber w :
  locked (processBlocks_while collaborators fuel blockNumber lastBlockNumber w).2 = locked w.
Proof.
  revert blockNumber lastBlockNumber w.
  induction fuel as [|fuel IH]; intros b last w; [reflexivity|].
  cbn [processBlocks_while].
  destruct (b <=? last); [|reflexivity].
  destruct (BlocksSpec.jobs_all_resolve collaborators (seq 0 (Z.to_nat (chunk last b))) b w)
    as (tasks & w0 & results & w1 & added & Hcalls & Hjobs & _ & Hl1 & _).
  unfold processTasks.
  rewrite (bind_Resolved _ _ _ _ _ Hcalls), (bind_Resolved _ _ _ _ _ Hjobs).
  destruct (b + 10 >? last).
  - unfold bind, request, await.
    destruct (getFinBlockNumber collaborators (clock w1)) as [h|e]; [|exact Hl1].
    rewrite IH. exact Hl1.
  - unfold bind, ret. rewrite IH. exact Hl1.
Qed.

(** While the lock is held every trim request is refused and every pass
    waits. *)
Lemma held_lock_blocks w' :
  locked w' = true ->
  (forall fuel' s,
     (trimAndUpdateToFinalized collaborators fuel' s w').1 = Resolved {| result := false |}) /\
  (forall fuel' s o, (processBlocks collaborators fuel' s o w').1 = Pending).
Proof.
  intros Hheld. split.
  - intros fuel' s. unfold trimAndUpdateToFinalized, SyncStatus_isLocked, gets, bind.
    now rewrite Hheld.
  - intros fuel' s o. unfold processBlocks, SyncStatus_acquire, bind. now rewrite Hheld.
Qed.

Lemma processBlocks_lock fuel startBlockNumber optionSubscribeFinHead w r w' :
  locked w = false ->
  processBlocks collaborators fuel startBlockNumber optionSubscribeFinHead w = (r, w') ->
  locked w' = match r with Resolved _ => false | _ => true end.
Proof.
  intros Hfree.
  unfold processBlocks.
  unfold bind at 1, SyncStatus_acquire. rewrite Hfree.
  unfold bind at 1.
  destruct ((match startBlockNumber with
             | Some n => ret n
             | None => request (getLastProcessedBlock collaborators)
             end) {| locked := true; clock := clock w; trace := trace w |})
    as [rs w1] eqn:Hs.
  assert (Hl1 : locked w1 = true /\ rs <> Pending).
  { destruct startBlockNumber; unfold ret, request, await in Hs.
    - now injection Hs as <- <-.
    - destruct (getLastProcessedBlock _ _); now injection Hs as <- <-. }
  destruct Hl1 as [Hl1 Hrs].
  destruct rs as [s|e|]; [|now intros [= <- <-]|congruence].
  unfold bind at 1, logger at 1, emit at 1, modify at 1.
  unfold bind at 1, request at 1, await. run_step.
  destruct (getFinBlockNumber collaborators (clock w1)) as [last|e]; run_step.
  2: { now intros [= <- <-]. }
  unfold bind at 1, logger at 1, emit at 1, modify at 1. run_step.
  match goal with |- bind _ _ ?w2 = _ -> _ =>
    destruct (BlocksSpec.checkHistoryDepthAvailableData_quiet collaborators s w2)
      as (rg & w3 & added & Hguard & Hr & Hl3 & _)
  end.
  cbn [locked] in Hl3. rewrite Hl1 in Hl3.
  unfold bind at 1. rewrite Hguard.
  destruct rg as [[|]|e|]; [| |now intros [= <- <-]|congruence].
  - cbn [negb].
    pose proof (processBlocks_while_lock fuel s last w3) as Hloop.
    unfold bind at 1.
    destruct (processBlocks_while collaborators fuel s last w3) as [[[]|e|] w4];
      cbn [snd] in Hloop.
    + unfold bind, release, modify.
      destruct optionSubscribeFinHead as [[|]|]; now intros [= <- <-].
    + intros [= <- <-]. congruence.
    + intros [= <- <-]. congruence.
  - cbn [negb]. unfold bind, logger, emit, release, modify. now intros [= <- <-].
Qed.

(** The sync lock is released exactly by a pass that resolves.  A pass that
    rejects (a request of the prologue, the guard or the head re-query threw)
    keeps the lock, as does one still running; with the lock kept, every
    [trimAndUpdateToFinalized] is refused and every further [processBlocks]
    waits. *)
Theorem lock_is_released_only_on_success fuel startBlockNumber optionSubscribeFinHead w :
  locked w = false ->
  let '(r, w') :=
    processBlocks collaborators fuel startBlockNumber optionSubscribeFinHead w in
  match r with
  | Resolved _ => locked w' = false
  | _ =>
      locked w' = true /\
      (forall fuel' s,
         (trimAndUpdateToFinalized collaborators fuel' s w').1
           = Resolved {| result := false |}) /\
      (forall fuel' s o,
         (processBlocks collaborators fuel' s o w').1 = Pending)
  end.
Proof.
  intros Hfree.
  destruct (processBlocks collaborators fuel startBlockNumber optionSubscribeFinHead w)
    as [r w'] eqn:Hrun.
  pose proof (processBlocks_lock _ _ _ _ _ _ Hfree Hrun) as Hl.
  destruct r; [exact Hl| |]; (split; [exact Hl|apply held_lock_blocks; exact Hl]).
Qed.

(** *** The heights of a pass *)

Lemma logs_have_no_jobs (es : list Effect) :
  forallb is_log es = true -> jobs_in es = [].
Proof.
  unfold jobs_in. induction es as [|e es IH]; [reflexivity|].
  cbn [forallb flat_map]. intros [He Hes]%andb_prop. rewrite (IH Hes).
  now destruct e.
Qed.

Lemma chunk_heights (b : Z) (n : nat) :
  List.map snd (List.map (fun i : nat => (Z.of_nat i + 1, b + Z.of_nat i)) (seq 0 n))
  = seqZ b (Z.of_nat n).
Proof.
  unfold seqZ. rewrite Nat2Z.id, List.map_map.
  apply List.map_ext. intros i. cbn. lia.
Qed.

(** Under a steady head the loop dispatches the heights from [blockNumber]
    up to, but not including, the head. *)
Lemma steady_loop H :
  head_steady collaborators H ->
  forall fuel b w,
    (Z.to_nat (H - b + 1) < fuel)%nat ->
    exists w' added,
      processBlocks_while collaborators fuel b H w = (Resolved tt, w') /\
      locked w' = locked w /\
      trace w' = trace w ++ added /\
      List.map snd (jobs_in added) = seqZ b (H - b).
Proof.
  intros Hhead fuel. induction fuel as [|fuel IH]; intros b w Hfuel; [lia|].
  cbn [processBlocks_while].
  destruct (b <=? H) eqn:Hle.
  2: { apply Z.leb_gt in Hle. exists w, []. rewrite app_nil_r.
       repeat split. unfold seqZ. now replace (Z.to_nat (H - b)) with 0%nat by lia. }
  apply Z.leb_le in Hle.
  destruct (BlocksSpec.jobs_all_resolve collaborators (seq 0 (Z.to_nat (chunk H b))) b w)
    as (tasks & w0 & results & w1 & added1 & Hcalls & Hjobs & _ & Hl1 & Ht1 & Hj1).
  unfold processTasks.
  rewrite (bind_Resolved _ _ _ _ _ Hcalls), (bind_Resolved _ _ _ _ _ Hjobs).
  assert (Hnext : exists w2,
            (if b + 10 >? H then request (getFinBlockNumber collaborators) else ret H) w1
              = (Resolved H, w2) /\ locked w2 = locked w1 /\ trace w2 = trace w1).
  { destruct (b + 10 >? H); [|now exists w1].
    unfold request, await. rewrite Hhead. eexists. now repeat split. }
  destruct Hnext as (w2 & Hnext & Hl2 & Ht2).
  rewrite (bind_Resolved _ _ _ _ _ Hnext).
  destruct (IH (b + 10) w2) as (w' & added2 & Hrun & Hl & Ht & Hj); [lia|].
  exists w', (added1 ++ added2). rewrite Hrun.
  split; [reflexivity|]. split; [congruence|].
  split; [rewrite Ht, Ht2, Ht1; now rewrite <- app_assoc|].
  unfold jobs_in in *. rewrite flat_map_app, List.map_app, Hj, Hj1, chunk_heights.
  assert (Hchunk : 0 <= chunk H b <= 10 /\ chunk H b = Z.min 10 (H - b)).
  { unfold chunk. destruct (H - b >=? 10) eqn:Hge; [lia|].
    rewrite Z.rem_small by lia. lia. }
  rewrite Z2Nat.id by lia.
  destruct (Z_lt_le_dec (H - b) 10) as [Hlt|Hge].
  - replace (chunk H b) with (H - b) by lia.
    replace (seqZ (b + 10) (H - (b + 10))) with (@nil Z); [now rewrite app_nil_r|].
    unfold seqZ. now replace (Z.to_nat (H - (b + 10))) with 0%nat by lia.
  - replace (chunk H b) with 10 by lia.
    transitivity (seqZ b (10 + (H - (b + 10)))); [|f_equal; lia].
    rewrite seqZ_app by lia. reflexivity.
Qed.

(** A pass from [s] under a steady head [H], once the guard has passed:
    it resolves with the lock released and has dispatched exactly one job
    for each height s, s+1, ..., H-1, in this order; the head height itself
    gets no job. *)
Theorem steady_pass_stops_before_the_head fuel s optionSubscribeFinHead w H w2 :
  locked w = false ->
  head_steady collaborators H ->
  checkHistoryDepthAvailableData collaborators s (at_guard w (Some s) s H)
    = (Resolved true, w2) ->
  (Z.to_nat (H - s + 1) < fuel)%nat ->
  exists w' added,
    processBlocks collaborators fuel (Some s) optionSubscribeFinHead w = (Resolved tt, w') /\
    locked w' = false /\
    trace w' = trace w ++ added /\
    List.map snd (jobs_in added) = seqZ s (H - s) /\
    H ∉ List.map snd (jobs_in added).
Proof.
  intros Hfree Hhead Hguard Hfuel.
  rewrite (BlocksSpec.processBlocks_to_guard collaborators fuel (Some s)
             optionSubscribeFinHead w s H Hfree eq_refl (Hhead _)).
  rewrite (bind_Resolved _ _ _ _ _ Hguard).
  destruct (BlocksSpec.checkHistoryDepthAvailableData_quiet collaborators s
              (at_guard w (Some s) s H))
    as (r & w2' & added0 & Hrun0 & _ & Hl0 & Ht0 & Hok0).
  rewrite Hguard in Hrun0. injection Hrun0 as <- <-.
  destruct (steady_loop H Hhead fuel s w2 Hfuel) as (w3 & added & Hloop & Hl3 & Ht3 & Hj).
  cbn [after_guard negb].
  rewrite (bind_Resolved _ _ _ _ _ Hloop).
  assert (Hjobs : List.map snd
            (jobs_in ([Log info (StartingProcessBlocks s);
                       Log info (ProcessingBlocksToHead s H)] ++ added0 ++ added))
          = seqZ s (H - s)).
  { unfold jobs_in in *. rewrite !flat_map_app.
    fold (jobs_in added0). rewrite (logs_have_no_jobs _ Hok0). exact Hj. }
  assert (Hnot : H ∉ seqZ s (H - s)).
  { rewrite elem_of_seqZ. lia. }
  destruct optionSubscribeFinHead as [[|]|];
    unfold bind, release, emit, ret, modify; cbn [locked clock trace];
    eexists _, _; (split; [reflexivity|]); (split; [reflexivity|]).
  - split; [rewrite Ht3, Ht0; cbn [at_guard trace];
            rewrite <- !app_assoc; rewrite (app_assoc _ _ [SubscribeFinalizedHeads]);
            reflexivity|].
    rewrite !app_assoc. unfold jobs_in in *. rewrite flat_map_app. cbn [flat_map].
    rewrite app_nil_r. rewrite <- !app_assoc. rewrite Hjobs. now split.
  - split; [rewrite Ht3, Ht0; cbn [at_guard trace]; now rewrite <- !app_assoc|].
    rewrite Hjobs. now split.
  - split; [rewrite Ht3, Ht0; cbn [at_guard trace]; now rewrite <- !app_assoc|].
    rewrite Hjobs. now split.
Qed.

End Driver.

Lemma processEvents_ids_witness :
  exists acc,
    processEvents 105 Examples.Sync.two_events Examples.Sync.idle
      = (Resolved acc, Examples.Sync.idle) /\
    length acc = 2%nat /\
    (forall i record, Examples.Sync.two_events !! i = Some record ->
       acc !! i = Some (converted 105 i record)) /\
    List.map id acc = [(105, 0%nat); (105, 1%nat)] /\
    NoDup (List.map id acc).
Proof.
  apply (proj1 (processEvents_ids 105 Examples.Sync.two_events Examples.Sync.idle)).
  repeat constructor; unfold typed; simpl; lia.
Defined.

Lemma guard_decision_witness :
  checkHistoryDepthAvailableData Examples.Sync.deep_history 100 Examples.Sync.idle
  = (Resolved false,
     later Examples.Sync.idle 5
       [Log info (LessThanHistoryDepth 84);
        Log error (CannotGetSessionId 100 "0x100");
        Log error (CannotGetExtHeader 100 "0x100")]).
Proof.
  apply (guard_decision Examples.Sync.deep_history 100 Examples.Sync.idle "0x100" 84 500 100);
    reflexivity.
Defined.

Lemma lock_is_released_only_on_success_witness :
  let '(r, w') :=
    processBlocks Examples.Sync.steady 3 (Some 100) None Examples.Sync.idle in
  match r with
  | Resolved _ => locked w' = false
  | _ =>
      locked w' = true /\
      (forall fuel' s,
         (trimAndUpdateToFinalized Examples.Sync.steady fuel' s w').1
           = Resolved {| result := false |}) /\
      (forall fuel' s o,
         (processBlocks Examples.Sync.steady fuel' s o w').1 = Pending)
  end.
Proof.
  apply (lock_is_released_only_on_success Examples.Sync.steady 3 (Some 100) None
           Examples.Sync.idle).
  reflexivity.
Defined.

Lemma steady_pass_stops_before_the_head_witness :
  exists w' added,
    processBlocks Examples.Sync.steady 25 (Some 100) None Examples.Sync.idle
      = (Resolved tt, w') /\
    locked w' = false /\
    trace w' = trace Examples.Sync.idle ++ added /\
    List.map snd (jobs_in added) = seqZ 100 (119 - 100) /\
    119 ∉ List.map snd (jobs_in added).
Proof.
  apply (steady_pass_stops_before_the_head Examples.Sync.steady 25 100 None
           Examples.Sync.idle 119
           {| locked := true; clock := 5;
              trace := [Log info (StartingProcessBlocks 100);
                        Log info (ProcessingBlocksToHead 100 119)] |}).
  - reflexivity.
  - intros t. reflexivity.
  - reflexivity.
  - simpl. lia.
Defined.
End BlocksMore.

(* ===================================================================== *)
(** ** Era aggregation: the validator set and validator-level failures *)
(* ===================================================================== *)

Module StakingMore.
Import Staking AsyncFacts.

Lemma Set_add_NoDup x s : NoDup s -> NoDup (Set_add x s).
Proof.
  intros Hs. unfold Set_add. case_bool_decide; [exact Hs|].
  apply NoDup_app. repeat split; [exact Hs| |apply NoDup_singleton].
  intros y Hy Hx. apply list_elem_of_singleton in Hx. now subst.
Qed.

Lemma Set_add_elem x y s : y ∈ Set_add x s <-> y = x \/ y ∈ s.
Proof.
  unfold Set_add. case_bool_decide.
  - split; [now right|]. now intros [->|].
  - rewrite elem_of_app, list_elem_of_singleton. tauto.
Qed.

(** The [forEach] loop from any state of the set and the map. *)
Lemma collect_from (individual : list (AccountId * Z)) (ids0 : list string) (m0 : gmap string Z) :
  let '(ids, m) :=
    fold_left
      (fun sets entry =>
         let '(validatorsAccountIdSet, eraRewardPointsMap) := sets in
         let '(accountId, rewardPoints) := entry in
         (Set_add accountId validatorsAccountIdSet,
          <[accountId := rewardPoints]> eraRewardPointsMap))
      individual (ids0, m0) in
  (NoDup ids0 -> NoDup ids) /\
  (forall a, a ∈ ids <-> a ∈ ids0 \/ a ∈ individual.*1) /\
  (forall a, is_Some (m !! a) <-> is_Some (m0 !! a) \/ a ∈ individual.*1) /\
  (forall a p, m !! a = Some p -> m0 !! a = Some p \/ (a, p) ∈ individual).
Proof.
  revert ids0 m0. induction individual as [|[x px] individual IH]; intros ids0 m0.
  - cbn. repeat split; try tauto.
    + intros [H|H]; [exact H|]. inversion H.
    + intros [H|H]; [exact H|]. inversion H.
  - cbn [fold_left].
    specialize (IH (Set_add x ids0) (<[x := px]> m0)).
    destruct (fold_left _ individual _) as [ids m].
    destruct IH as (Hnd & Hids & Hdom & Hlook).
    split; [intros H0; apply Hnd, Set_add_NoDup, H0|].
    split; [|split].
    + intros a. rewrite Hids, Set_add_elem. cbn. rewrite elem_of_cons. tauto.
    + intros a. rewrite Hdom. cbn. rewrite elem_of_cons.
      destruct (decide (x = a)) as [->|Hne].
      * rewrite lookup_insert_eq. split; [intros _; right; now left|eauto].
      * rewrite lookup_insert_ne by exact Hne. split; intros [H|H]; auto.
        destruct H as [H|H]; [congruence|auto].
    + intros a p Hm. apply Hlook in Hm as [Hm|Hm].
      * destruct (decide (x = a)) as [->|Hne].
        -- rewrite lookup_insert_eq in Hm. injection Hm as ->. right. now left.
        -- rewrite lookup_insert_ne in Hm by exact Hne. now left.
      * right. now right.
Qed.

(** The validator set built from the reward points has every account of the
    reward-points entries exactly once, and the points map has an entry for
    exactly these accounts, taken from the reward points: the lookup of a
    validator of the set never falls back to the default. *)
Theorem collectRewardPoints_set (individual : list (AccountId * Z)) :
  let '(ids, m) := collectRewardPoints individual in
  NoDup ids /\
  (forall a, a ∈ ids <-> a ∈ individual.*1) /\
  (forall a, a ∈ ids <-> is_Some (m !! a)) /\
  (forall a p, m !! a = Some p -> (a, p) ∈ individual).
Proof.
  pose proof (collect_from individual [] ∅) as H.
  unfold collectRewardPoints.
  destruct (fold_left _ individual _) as [ids m].
  destruct H as (Hnd & Hids & Hdom & Hlook).
  split; [apply Hnd; constructor|].
  split; [|split].
  - intros a. rewrite Hids. split; [intros [H|H]; [inversion H|exact H]|auto].
  - intros a. rewrite Hids, Hdom. rewrite lookup_empty.
    split; intros [H|H]; auto; [inversion H|destruct H; discriminate].
  - intros a p Hm. apply Hlook in Hm as [Hm|Hm]; [|exact Hm].
    rewrite lookup_empty in Hm. discriminate.
Qed.

Lemma appends_ret {A} (a : A) : StakingMoreTerms.appends (ret a).
Proof. intros w. cbn. now rewrite app_nil_r. Qed.

Lemma appends_throw {A} e : StakingMoreTerms.appends (@throw World A e).
Proof. intros w. cbn. now rewrite app_nil_r. Qed.

Lemma appends_await {A} (r : response A) : StakingMoreTerms.appends (await r).
Proof. intros w. cbn. now rewrite app_nil_r. Qed.

Lemma appends_log l : StakingMoreTerms.appends (log l).
Proof. intros w. reflexivity. Qed.

Lemma appends_bind {A B} (m : M World A) (k : A -> M World B) :
  StakingMoreTerms.appends m -> (forall a, StakingMoreTerms.appends (k a)) ->
  StakingMoreTerms.appends (bind m k).
Proof.
  intros Hm Hk w. unfold bind. rewrite (Hm w).
  destruct (m []) as [[a|e|] l]; cbn [fst snd]; try reflexivity.
  rewrite (Hk a (w ++ l)), (Hk a l). cbn [fst snd].
  now rewrite app_assoc.
Qed.

Lemma appends_catch {A} (m : M World A) (h : Error -> M World A) :
  StakingMoreTerms.appends m -> (forall e, StakingMoreTerms.appends (h e)) ->
  StakingMoreTerms.appends (catch m h).
Proof.
  intros Hm Hh w. unfold catch. rewrite (Hm w).
  destruct (m []) as [[a|e|] l]; cbn [fst snd]; try reflexivity.
  rewrite (Hh e (w ++ l)), (Hh e l). cbn [fst snd].
  now rewrite app_assoc.
Qed.

Lemma appends_for_of {A B} (xs : list A) (body : B -> A -> M World B) acc :
  (forall acc x, StakingMoreTerms.appends (body acc x)) ->
  StakingMoreTerms.appends (for_of xs body acc).
Proof.
  intros Hbody. revert acc. induction xs as [|x xs IH]; intros acc; cbn [for_of].
  - apply appends_ret.
  - apply appends_bind; [apply Hbody|exact IH].
Qed.

Lemma appends_Promise_all2 {A B} (r : response A) (r' : response B) :
  StakingMoreTerms.appends (Promise_all2 (await r) (await r')).
Proof. intros w. cbn. now rewrite app_nil_r. Qed.

Create HintDb appends.

#[local] Hint Resolve appends_ret appends_throw appends_await appends_log
  appends_Promise_all2 : appends.

(** The aggregation only adds lines to the log, and neither its result nor
    its lines depend on what the log held before. *)
Lemma getValidatorsAndNominatorsData_appends polkadotConnector params :
  StakingMoreTerms.appends (getValidatorsAndNominatorsData polkadotConnector params).
Proof.
  unfold getValidatorsAndNominatorsData.
  apply appends_bind; [auto with appends|]. intros points.
  destruct (collectRewardPoints (individual points)) as [ids eraRewardPointsMap].
  apply appends_for_of. intros acc validator.
  unfold eachValidator.
  apply appends_bind; [auto with appends|]. intros [stakers stakersClipped].
  unfold processValidator.
  apply appends_bind; [auto with appends|]. intros prefs.
  apply appends_bind; [auto with appends|]. intros _.
  apply appends_bind.
  { apply appends_for_of. intros nominators staker. unfold processStaker.
    apply appends_catch.
    - cbv zeta. apply appends_bind; [auto with appends|]. intros payee. auto with appends.
    - intros e. apply appends_bind; auto with appends. }
  intros nominators.
  apply appends_bind; [auto with appends|]. intros validatorPayee.
  apply appends_bind; [|intros [dest account]; auto with appends].
  destruct validatorPayee as [p|].
  - destruct (negb (isAccount p)); auto with appends.
  - apply appends_bind; auto with appends.
Qed.

Section Failures.
Variable polkadotConnector : PolkadotConnector.
Variable params : IBlockEraParams.

Local Abbreviation answered := (StakingTerms.answered polkadotConnector params) (only parsing).

(** A validator one of whose own reads throws makes its step reject; one
    whose reads are all answered makes it resolve. *)
Lemma eachValidator_outcome eraRewardPointsMap acc validator w :
  (answered validator /\
   exists acc' w',
     eachValidator polkadotConnector params eraRewardPointsMap acc validator w
       = (Resolved acc', w')) \/
  (~ answered validator /\
   exists e w',
     eachValidator polkadotConnector params eraRewardPointsMap acc validator w
       = (Rejected e, w')).
Proof.
  unfold StakingTerms.answered.
  destruct (erasStakers polkadotConnector (blockHash params) (eraId params) validator)
    as [stakers|e1] eqn:Hs.
  2: { right. split; [intros ((x & Hx) & _); discriminate|].
       unfold eachValidator, Promise_all2, bind, await. rewrite Hs. eauto. }
  destruct (erasStakersClipped polkadotConnector (blockHash params) (eraId params) validator)
    as [clipped|e2] eqn:Hc.
  2: { right. split; [intros (_ & (x & Hx) & _); discriminate|].
       unfold eachValidator, Promise_all2, bind, await. rewrite Hs, Hc. eauto. }
  pose proof (StakingSpec.processValidator_cases polkadotConnector params eraRewardPointsMap
                acc validator stakers clipped w) as Hcases.
  destruct (erasValidatorPrefs polkadotConnector (blockHash params) (eraId params) validator)
    as [pf|e3] eqn:Hp.
  2: { right. split; [intros (_ & _ & (x & Hx) & _); discriminate|].
       unfold eachValidator, Promise_all2, bind at 1, await. rewrite Hs, Hc, Hcases. eauto. }
  destruct (payee polkadotConnector (blockHash params) validator) as [vp|e4] eqn:Hv.
  2: { right. split; [intros (_ & _ & _ & (x & Hx)); discriminate|].
       destruct Hcases as (w' & Hcases).
       unfold eachValidator, Promise_all2, bind at 1, await. rewrite Hs, Hc, Hcases. eauto. }
  left. split; [repeat split; eauto|].
  destruct Hcases as (acc' & tail & Hcases & _).
  unfold eachValidator, Promise_all2, bind at 1, await. rewrite Hs, Hc, Hcases. eauto.
Qed.

Lemma validators_loop_rejects eraRewardPointsMap ids acc w :
  Exists (fun validator => ~ answered validator) ids ->
  exists e w',
    for_of ids (eachValidator polkadotConnector params eraRewardPointsMap) acc w
      = (Rejected e, w').
Proof.
  revert acc w. induction ids as [|validator ids IH]; intros acc w Hex.
  - inversion Hex.
  - cbn [for_of].
    destruct (eachValidator_outcome eraRewardPointsMap acc validator w)
      as [(Hans & acc' & w' & Hrun)|(_ & e & w' & Hrun)].
    + rewrite (bind_Resolved _ _ _ _ _ Hrun). apply IH.
      inversion Hex; subst; [contradiction|assumption].
    + unfold bind. rewrite Hrun. eauto.
Qed.

Lemma validators_loop_settles eraRewardPointsMap ids acc w :
  (for_of ids (eachValidator polkadotConnector params eraRewardPointsMap) acc w).1 <> Pending.
Proof.
  revert acc w. induction ids as [|validator ids IH]; intros acc w.
  - cbn. discriminate.
  - cbn [for_of].
    destruct (eachValidator_outcome eraRewardPointsMap acc validator w)
      as [(_ & acc' & w' & Hrun)|(_ & e & w' & Hrun)].
    + rewrite (bind_Resolved _ _ _ _ _ Hrun). apply IH.
    + unfold bind. rewrite Hrun. cbn. discriminate.
Qed.

Lemma getValidatorsAndNominatorsData_settles w :
  (getValidatorsAndNominatorsData polkadotConnector params w).1 <> Pending.
Proof.
  unfold getValidatorsAndNominatorsData, bind at 1, await.
  destruct (erasRewardPoints polkadotConnector (blockHash params) (eraId params))
    as [points|e]; [|cbn; discriminate].
  destruct (collectRewardPoints (individual points)) as [ids eraRewardPointsMap].
  apply validators_loop_settles.
Qed.

(** Unlike a staker, a validator cannot be skipped: if for one validator of
    the set an exposure, the preferences or its payee cannot be read, the
    whole call rejects and no record of any validator is returned. *)
Theorem failing_validator_fails_the_call w points :
  erasRewardPoints polkadotConnector (blockHash params) (eraId params) = Returns points ->
  Exists (fun validator => ~ answered validator) (collectRewardPoints (individual points)).1 ->
  exists e w',
    getValidatorsAndNominatorsData polkadotConnector params w = (Rejected e, w').
Proof.
  intros Hpoints Hex.
  unfold getValidatorsAndNominatorsData.
  erewrite bind_Resolved by (unfold await; rewrite Hpoints; reflexivity).
  destruct (collectRewardPoints (individual points)) as [ids eraRewardPointsMap].
  now apply validators_loop_rejects.
Qed.

(** The Validator records of a call that resolves: one for each distinct
    account of the reward points, each with reward points the chain recorded
    for that account (never the default of a missing entry). *)
Theorem validators_carry_their_points w res w' points :
  erasRewardPoints polkadotConnector (blockHash params) (eraId params) = Returns points ->
  getValidatorsAndNominatorsData polkadotConnector params w = (Resolved res, w') ->
  NoDup (List.map v_account_id (validators res)) /\
  (forall a, a ∈ List.map v_account_id (validators res) <-> a ∈ (individual points).*1) /\
  Forall (fun v => (v_account_id v, reward_points v) ∈ individual points) (validators res).
Proof.
  intros Hpoints.
  unfold getValidatorsAndNominatorsData.
  erewrite bind_Resolved by (unfold await; rewrite Hpoints; reflexivity).
  pose proof (collect_from (individual points) [] ∅) as Hset.
  unfold collectRewardPoints.
  destruct (fold_left _ (individual points) _) as [ids eraRewardPointsMap].
  destruct Hset as (Hnd & Hids & Hdom & Hlook).
  intros Hrun.
  apply StakingSpec.validators_loop in Hrun
    as (added & vs & logged & _ & _ & Hv & Hvs & _).
  cbn [validators app] in Hv. rewrite Hv.
  assert (Hnames : List.map v_account_id vs = ids).
  { clear -Hvs. induction Hvs as [|validator v ids vs [Hid _] _ IH]; [reflexivity|].
    cbn [List.map]. now rewrite Hid, IH. }
  rewrite Hnames.
  split; [apply Hnd; constructor|].
  split.
  - intros a. rewrite Hids. split; [intros [H|H]; [inversion H|exact H]|auto].
  - assert (Hin : forall validator, validator ∈ ids ->
                    is_Some (eraRewardPointsMap !! validator)).
    { intros validator Hv0. apply Hdom. right. apply Hids in Hv0 as [H|H]; [inversion H|exact H]. }
    clear -Hvs Hin Hlook.
    induction Hvs as [|validator v ids vs [Hid Hp] _ IH]; constructor.
    + destruct (Hin validator) as [p Hp0]; [now left|].
      rewrite Hid, Hp, Hp0. cbn.
      apply Hlook in Hp0 as [Hp0|Hp0]; [|exact Hp0].
      rewrite lookup_empty in Hp0. discriminate.
    + apply IH. intros validator' Hv'. apply Hin. now right.
Qed.

End Failures.

Lemma failing_validator_fails_the_call_witness :
  erasRewardPoints Examples.Era.lost_prefs "0xabc" 42
    = Returns {| total_points := 150; individual := [("V1", 100); ("V2", 50)] |} /\
  exists e w',
    getValidatorsAndNominatorsData Examples.Era.lost_prefs Examples.Era.era42 []
      = (Rejected e, w').
Proof.
  split; [reflexivity|].
  apply (failing_validator_fails_the_call Examples.Era.lost_prefs Examples.Era.era42 []
           {| total_points := 150; individual := [("V1", 100); ("V2", 50)] |});
    [reflexivity|].
  apply Exists_cons_tl, Exists_cons_hd.
  intros (_ & _ & (x & Hx) & _). discriminate.
Defined.

Lemma validators_carry_their_points_witness :
  exists res w',
    getValidatorsAndNominatorsData Examples.Era.connector Examples.Era.era42 []
      = (Resolved res, w') /\
    NoDup (List.map v_account_id (validators res)) /\
    (forall a, a ∈ List.map v_account_id (validators res) <-> a ∈ ["V1"; "V2"]) /\
    Forall (fun v => (v_account_id v, reward_points v) ∈ [("V1", 100); ("V2", 50)])
           (validators res).
Proof.
  destruct (getValidatorsAndNominatorsData Examples.Era.connector Examples.Era.era42 [])
    as [r w] eqn:Hrun.
  pose proof Hrun as Hval. vm_compute in Hval. injection Hval as <- <-.
  eexists. eexists. split; [reflexivity|].
  eapply (validators_carry_their_points Examples.Era.connector Examples.Era.era42 [] _ _
            {| total_points := 150; individual := [("V1", 100); ("V2", 50)] |});
    [reflexivity|exact Hrun].
Defined.
End StakingMore.

(* ===================================================================== *)
(** ** The era payout job: what is published, and when the queue hears back *)
(* ===================================================================== *)

Module PayoutMore.
Import Staking Payout AsyncFacts PayoutTerms.

Lemma sent_in_app es es' : sent_in (es ++ es') = sent_in es ++ sent_in es'.
Proof. apply flat_map_app. Qed.

Lemma callbacks_in_app es es' : callbacks_in (es ++ es') = (callbacks_in es + callbacks_in es')%nat.
Proof. unfold callbacks_in. now rewrite flat_map_app, length_app. Qed.

Lemma staking_lines_sent l : sent_in (List.map Staking_log l) = [].
Proof. induction l as [|x l IH]; [reflexivity|exact IH]. Qed.

Lemma staking_lines_callbacks l : callbacks_in (List.map Staking_log l) = 0%nat.
Proof. induction l as [|x l IH]; [reflexivity|exact IH]. Qed.

Section Job.
Variable KAFKA_PREFIX : string.
Variable polkadotConnector : PolkadotConnector.
Variable queries : EraQueries.
Variable kafkaProducer : Producer.

Local Abbreviation getEraData := (Payout.getEraData polkadotConnector queries) (only parsing).
Local Abbreviation processEraPayout :=
  (Payout.processEraPayout KAFKA_PREFIX polkadotConnector queries kafkaProducer) (only parsing).
Local Abbreviation era_record := (PayoutTerms.era_record KAFKA_PREFIX) (only parsing).
Local Abbreviation session_record := (PayoutTerms.session_record KAFKA_PREFIX) (only parsing).

(** The era totals are read without a trace. *)
Lemma getEraData_frame params w :
  getEraData params w = ((getEraData params []).1, w).
Proof.
  unfold Payout.getEraData, bind, Promise_all4, await, unwrap, ret, throw.
  destruct (erasValidatorReward queries _ _), (erasRewardPoints polkadotConnector _ _),
    (erasTotalStake queries _ _), (erasStartSessionIndex queries _ _) as [[s|]|];
    reflexivity.
Qed.

(** The era totals are returned exactly when the four queries are answered
    and the start session of the era is recorded; the totals are then the
    answers, unchanged.  A missing start session makes the call reject even
    though every query was answered. *)
Theorem getEraData_result params w d w' :
  getEraData params w = (Resolved d, w') <->
  w' = w /\
  exists reward points stake start,
    erasValidatorReward queries (blockHash params) (eraId params) = Returns reward /\
    erasRewardPoints polkadotConnector (blockHash params) (eraId params) = Returns points /\
    erasTotalStake queries (blockHash params) (eraId params) = Returns stake /\
    erasStartSessionIndex queries (blockHash params) (eraId params) = Returns (Some start) /\
    d = {| era := eraId params;
           total_reward := reward;
           total_stake := stake;
           total_reward_points := total_points points;
           session_start := start |}.
Proof.
  unfold Payout.getEraData, bind, Promise_all4, await, unwrap, ret, throw.
  destruct (erasValidatorReward queries _ _) as [reward|e1],
    (erasRewardPoints polkadotConnector _ _) as [points|e2],
    (erasTotalStake queries _ _) as [stake|e3],
    (erasStartSessionIndex queries _ _) as [[start|]|e4]; cbn;
    (split;
     [ intros H;
       first [ discriminate H
             | injection H as <- <-; split; [reflexivity|];
               do 4 eexists; repeat split; reflexivity ]
     | intros (-> & reward' & points' & stake' & start' & H1 & H2 & H3 & H4 & ->);
       first [ discriminate | congruence ] ]).
Qed.

(** The job from the point where its reads are done. *)
Lemma after_reads payload w blockTime eraData result logged :
  timestamp_now queries (p_blockHash payload) = Returns blockTime ->
  getEraData (params_of payload) [] = (Resolved eraData, []) ->
  getValidatorsAndNominatorsData polkadotConnector (params_of payload) []
    = (Resolved result, logged) ->
  processEraPayout payload w =
    let w1 := w ++ [started payload] ++ List.map Staking_log logged in
    match send kafkaProducer (era_record eraData) with
    | Throws e =>
        (Rejected cannot_push, w1 ++ [Log_error "failed to push era data: " e])
    | Returns _ =>
        match send kafkaProducer
                (session_record (era_index (eraPayoutEvent payload)) result blockTime) with
        | Throws e =>
            (Rejected cannot_push,
             w1 ++ [Sent (era_record eraData); Log_error "failed to push session data: " e])
        | Returns _ =>
            (Resolved tt,
             w1 ++ [Sent (era_record eraData);
                    Sent (session_record (era_index (eraPayoutEvent payload)) result blockTime)]
                ++ finished)
        end
    end.
Proof.
  intros Htime Hera Hres.
  unfold Payout.processEraPayout.
  erewrite bind_Resolved by reflexivity.
  erewrite bind_Resolved by (unfold await; rewrite Htime; reflexivity).
  erewrite bind_Resolved
    by (rewrite getEraData_frame; unfold params_of in Hera; rewrite Hera; reflexivity).
  erewrite bind_Resolved
    by (unfold in_staking; unfold params_of in Hres; rewrite Hres; reflexivity).
  unfold bind, catch, kafkaProducer_send, bind, await, emit, modify, throw,
    PayoutTerms.era_record, PayoutTerms.session_record, started, finished, cannot_push.
  cbv zeta.
  destruct (send kafkaProducer _) as [[]|e]; cbn.
  - destruct (send kafkaProducer _) as [[]|e']; cbn; rewrite <- ?app_assoc; reflexivity.
  - rewrite <- ?app_assoc. reflexivity.
Qed.

Lemma getEraData_settles params w : (getEraData params w).1 <> Pending.
Proof.
  unfold Payout.getEraData, bind, Promise_all4, await, unwrap, ret, throw.
  destruct (erasValidatorReward queries _ _), (erasRewardPoints polkadotConnector _ _),
    (erasTotalStake queries _ _), (erasStartSessionIndex queries _ _) as [[s|]|];
    cbn; discriminate.
Qed.

(** When the chain answers every read and the broker accepts both records,
    the job resolves, having published first the era totals, keyed by the
    era, and then the validators and nominators of the era, each stamped
    with the time of the block, and having called the callback of the queue
    once, as the last thing it does. *)
Theorem payout_published payload w blockTime eraData result logged :
  timestamp_now queries (p_blockHash payload) = Returns blockTime ->
  getEraData (params_of payload) [] = (Resolved eraData, []) ->
  getValidatorsAndNominatorsData polkadotConnector (params_of payload) []
    = (Resolved result, logged) ->
  send kafkaProducer (era_record eraData) = Returns tt ->
  send kafkaProducer (session_record (era_index (eraPayoutEvent payload)) result blockTime)
    = Returns tt ->
  processEraPayout payload w =
    (Resolved tt,
     w ++ [started payload] ++ List.map Staking_log logged
       ++ [Sent (era_record eraData);
           Sent (session_record (era_index (eraPayoutEvent payload)) result blockTime);
           Console_log "ERA STAKING FINISHED ----------------------";
           Callback_null]).
Proof.
  intros Htime Hera Hres Hsend1 Hsend2.
  rewrite (after_reads payload w blockTime eraData result logged Htime Hera Hres).
  cbv zeta. rewrite Hsend1, Hsend2. unfold finished.
  rewrite <- !app_assoc. reflexivity.
Qed.

(** When the broker refuses the era totals, the job rejects with the fixed
    error that names the session data, whatever the broker's own error was
    (it is only logged); the session record is not offered to the broker
    and the callback of the queue is not called. *)
Theorem refused_era_totals payload w blockTime eraData result logged e :
  timestamp_now queries (p_blockHash payload) = Returns blockTime ->
  getEraData (params_of payload) [] = (Resolved eraData, []) ->
  getValidatorsAndNominatorsData polkadotConnector (params_of payload) []
    = (Resolved result, logged) ->
  send kafkaProducer (era_record eraData) = Throws e ->
  processEraPayout payload w =
    (Rejected (MkError "cannot push session data to Kafka"),
     w ++ [started payload] ++ List.map Staking_log logged
       ++ [Log_error "failed to push era data: " e]).
Proof.
  intros Htime Hera Hres Hsend1.
  rewrite (after_reads payload w blockTime eraData result logged Htime Hera Hres).
  cbv zeta. rewrite Hsend1. unfold cannot_push.
  rewrite <- !app_assoc. reflexivity.
Qed.

(** The two records are not published together: when the broker accepts
    the era totals and refuses the session record, the job rejects with the
    era totals already published, and the callback of the queue is not
    called. *)
Theorem refused_session_record payload w blockTime eraData result logged e :
  timestamp_now queries (p_blockHash payload) = Returns blockTime ->
  getEraData (params_of payload) [] = (Resolved eraData, []) ->
  getValidatorsAndNominatorsData polkadotConnector (params_of payload) []
    = (Resolved result, logged) ->
  send kafkaProducer (era_record eraData) = Returns tt ->
  send kafkaProducer (session_record (era_index (eraPayoutEvent payload)) result blockTime)
    = Throws e ->
  processEraPayout payload w =
    (Rejected (MkError "cannot push session data to Kafka"),
     w ++ [started payload] ++ List.map Staking_log logged
       ++ [Sent (era_record eraData); Log_error "failed to push session data: " e]).
Proof.
  intros Htime Hera Hres Hsend1 Hsend2.
  rewrite (after_reads payload w blockTime eraData result logged Htime Hera Hres).
  cbv zeta. rewrite Hsend1, Hsend2. unfold cannot_push.
  rewrite <- !app_assoc. reflexivity.
Qed.

(** Whatever the chain and the broker answer, the job settles.  It calls
    the callback of the queue once when it resolves and never when it
    rejects.  A job that resolves has published the era totals and then the
    session record; one that rejects has published nothing, or the era
    totals alone. *)
Theorem payout_outcome payload w :
  exists es,
    (processEraPayout payload w).2 = w ++ es /\
    match (processEraPayout payload w).1 with
    | Resolved _ =>
        callbacks_in es = 1%nat /\
        exists eraData result blockTime,
          sent_in es = [era_record eraData;
                        session_record (era_index (eraPayoutEvent payload)) result blockTime]
    | Rejected _ =>
        callbacks_in es = 0%nat /\
        (sent_in es = [] \/ exists eraData, sent_in es = [era_record eraData])
    | Pending => False
    end.
Proof.
  destruct (timestamp_now queries (p_blockHash payload)) as [blockTime|e] eqn:Htime.
  2: { assert (Hrun : processEraPayout payload w = (Rejected e, w ++ [started payload])).
       { unfold Payout.processEraPayout.
         erewrite bind_Resolved by reflexivity.
         unfold bind at 1, await. rewrite Htime. reflexivity. }
       rewrite Hrun. exists [started payload]. cbn. auto. }
  pose proof (getEraData_frame (params_of payload) []) as Hera.
  pose proof (getEraData_settles (params_of payload) []) as Hera'.
  destruct ((getEraData (params_of payload) []).1) as [eraData|e|] eqn:Hera1;
    [| |contradiction].
  2: { assert (Hrun : processEraPayout payload w = (Rejected e, w ++ [started payload])).
       { unfold Payout.processEraPayout.
         erewrite bind_Resolved by reflexivity.
         erewrite bind_Resolved by (unfold await; rewrite Htime; reflexivity).
         unfold bind at 1. rewrite getEraData_frame.
         unfold params_of in Hera1. rewrite Hera1. reflexivity. }
       rewrite Hrun. exists [started payload]. cbn. auto. }
  pose proof (StakingMore.getValidatorsAndNominatorsData_settles
                polkadotConnector (params_of payload) []) as Hres'.
  destruct (getValidatorsAndNominatorsData polkadotConnector (params_of payload) [])
    as [[result|e|] logged] eqn:Hres; [| |now contradiction Hres'].
  2: { assert (Hrun : processEraPayout payload w
                      = (Rejected e, w ++ [started payload] ++ List.map Staking_log logged)).
       { unfold Payout.processEraPayout.
         erewrite bind_Resolved by reflexivity.
         erewrite bind_Resolved by (unfold await; rewrite Htime; reflexivity).
         erewrite bind_Resolved
           by (rewrite getEraData_frame; unfold params_of in Hera1; rewrite Hera1; reflexivity).
         unfold bind at 1, in_staking. unfold params_of in Hres. rewrite Hres.
         now rewrite <- app_assoc. }
       rewrite Hrun. eexists. split; [reflexivity|]. cbn [fst].
       rewrite callbacks_in_app, sent_in_app, staking_lines_callbacks, staking_lines_sent.
       cbn. auto. }
  rewrite (after_reads payload w blockTime eraData result logged Htime Hera Hres).
  cbv zeta.
  destruct (send kafkaProducer (era_record eraData)) as [[]|e].
  - destruct (send kafkaProducer _) as [[]|e'].
    + eexists. split; [cbn [snd]; rewrite <- app_assoc; reflexivity|]. cbn [fst].
      rewrite !callbacks_in_app, !sent_in_app, staking_lines_callbacks, staking_lines_sent.
      split; [reflexivity|]. do 3 eexists. reflexivity.
    + eexists. split; [cbn [snd]; rewrite <- app_assoc; reflexivity|]. cbn [fst].
      rewrite !callbacks_in_app, !sent_in_app, staking_lines_callbacks, staking_lines_sent.
      split; [reflexivity|]. right. eexists. reflexivity.
  - eexists. split; [cbn [snd]; rewrite <- app_assoc; reflexivity|]. cbn [fst].
    rewrite !callbacks_in_app, !sent_in_app, staking_lines_callbacks, staking_lines_sent.
    split; [reflexivity|]. left. reflexivity.
Qed.

End Job.

Lemma payout_published_witness :
  exists result logged,
    getValidatorsAndNominatorsData Examples.Era.connector (params_of Examples.Job.payout42) []
      = (Resolved result, logged) /\
    Payout.processEraPayout "KSM" Examples.Era.connector Examples.Job.queries
        (Examples.Job.broker) Examples.Job.payout42 []
      = (Resolved tt,
         [] ++ [started Examples.Job.payout42] ++ List.map Staking_log logged
            ++ [Sent (PayoutTerms.era_record "KSM"
                  {| era := 42; total_reward := "1000"; total_stake := "76";
                     total_reward_points := 150; session_start := 250 |});
                Sent (PayoutTerms.session_record "KSM" 42 result 1600000000);
                Console_log "ERA STAKING FINISHED ----------------------";
                Callback_null]).
Proof.
  destruct (getValidatorsAndNominatorsData Examples.Era.connector
              (params_of Examples.Job.payout42) []) as [r logged] eqn:Hres.
  pose proof Hres as Hval. vm_compute in Hval. injection Hval as <- <-.
  eexists. eexists. split; [exact Hres|].
  eapply (payout_published "KSM" Examples.Era.connector Examples.Job.queries
           (Examples.Job.broker) Examples.Job.payout42 [] 1600000000
           {| era := 42; total_reward := "1000"; total_stake := "76";
              total_reward_points := 150; session_start := 250 |});
    [reflexivity|reflexivity|exact Hres|reflexivity|reflexivity].
Defined.

Lemma refused_era_totals_witness :
  exists result logged,
    getValidatorsAndNominatorsData Examples.Era.connector (params_of Examples.Job.payout42) []
      = (Resolved result, logged) /\
    Payout.processEraPayout "KSM" Examples.Era.connector Examples.Job.queries
        (Examples.Job.broker_without "KSM_STAKING_ERAS_DATA") Examples.Job.payout42 []
      = (Rejected (MkError "cannot push session data to Kafka"),
         [] ++ [started Examples.Job.payout42] ++ List.map Staking_log logged
            ++ [Log_error "failed to push era data: " (MkError "broker unreachable")]).
Proof.
  destruct (getValidatorsAndNominatorsData Examples.Era.connector
              (params_of Examples.Job.payout42) []) as [r logged] eqn:Hres.
  pose proof Hres as Hval. vm_compute in Hval. injection Hval as <- <-.
  eexists. eexists. split; [exact Hres|].
  eapply (refused_era_totals "KSM" Examples.Era.connector Examples.Job.queries
           (Examples.Job.broker_without "KSM_STAKING_ERAS_DATA") Examples.Job.payout42 [] 1600000000
           {| era := 42; total_reward := "1000"; total_stake := "76";
              total_reward_points := 150; session_start := 250 |});
    [reflexivity|reflexivity|exact Hres|reflexivity].
Defined.

Lemma refused_session_record_witness :
  exists result logged,
    getValidatorsAndNominatorsData Examples.Era.connector (params_of Examples.Job.payout42) []
      = (Resolved result, logged) /\
    Payout.processEraPayout "KSM" Examples.Era.connector Examples.Job.queries
        (Examples.Job.broker_without "KSM_SESSION_DATA") Examples.Job.payout42 []
      = (Rejected (MkError "cannot push session data to Kafka"),
         [] ++ [started Examples.Job.payout42] ++ List.map Staking_log logged
            ++ [Sent (PayoutTerms.era_record "KSM"
                  {| era := 42; total_reward := "1000"; total_stake := "76";
                     total_reward_points := 150; session_start := 250 |});
                Log_error "failed to push session data: " (MkError "broker unreachable")]).
Proof.
  destruct (getValidatorsAndNominatorsData Examples.Era.connector
              (params_of Examples.Job.payout42) []) as [r logged] eqn:Hres.
  pose proof Hres as Hval. vm_compute in Hval. injection Hval as <- <-.
  eexists. eexists. split; [exact Hres|].
  eapply (refused_session_record "KSM" Examples.Era.connector Examples.Job.queries
           (Examples.Job.broker_without "KSM_SESSION_DATA") Examples.Job.payout42 [] 1600000000
           {| era := 42; total_reward := "1000"; total_stake := "76";
              total_reward_points := 150; session_start := 250 |});
    [reflexivity|reflexivity|exact Hres|reflexivity|reflexivity].
Defined.
End PayoutMore.

(* ===================================================================== *)
(** ** The settings of the main application *)
(* ===================================================================== *)

Module MainEnvironmentFacts.
Import MainEnvironment.

Section Numbers.
Variable number : Type.
Variable Number : option string -> number.
Variable truthy : number -> bool.
Variable n3000 : number.

Local Abbreviation environment :=
  (MainEnvironment.environment number Number truthy n3000) (only parsing).

(** Extrinsic processing cannot be switched off: the flag is on whatever the
    variable holds.  Event processing is on exactly when its variable is set
    to a non-empty text, whatever the text says. *)
Theorem flags_from_variables (env : ProcessEnv) :
  PROCESS_EXTRINSICS number (environment env) = true /\
  (PROCESS_EVENTS number (environment env) = true <->
   exists v, env !! "PROCESS_EVENTS" = Some v /\ v <> "").
Proof.
  cbn. split; [apply orb_true_r|].
  rewrite orb_false_r. unfold Boolean.
  destruct (env !! "PROCESS_EVENTS") as [s|].
  - case_bool_decide as Hs; cbn.
    + split; [discriminate|]. intros (v & Hv & Hne). congruence.
    + split; [|reflexivity]. intros _. eauto.
  - split; [discriminate|]. intros (v & Hv & _). discriminate.
Qed.

(** The log level is the variable when that is a non-empty text and "info"
    when it is not set or empty, so it is never empty.  The port is the
    number the variable converts to when that number is truthy and 3000
    otherwise, so it is always truthy.  The password falls back to its
    default only when the variable is not set: an empty password is kept. *)
Theorem settings_are_filled_in (env : ProcessEnv) :
  truthy n3000 = true ->
  (LOG_LEVEL number (environment env) <> "" /\
   (forall s, env !! "LOG_LEVEL" = Some s -> s <> "" ->
      LOG_LEVEL number (environment env) = s) /\
   (env !! "LOG_LEVEL" = None \/ env !! "LOG_LEVEL" = Some "" ->
      LOG_LEVEL number (environment env) = "info")) /\
  (truthy (REST_API_PORT number (environment env)) = true /\
   (truthy (Number (env !! "REST_API_PORT")) = true ->
      REST_API_PORT number (environment env) = Number (env !! "REST_API_PORT")) /\
   (truthy (Number (env !! "REST_API_PORT")) = false ->
      REST_API_PORT number (environment env) = n3000)) /\
  REST_API_BASIC_AUTH_PASSWORD number (environment env)
    = default "password" (env !! "REST_API_BASIC_AUTH_PASSWORD").
Proof.
  intros H3000. cbn. unfold or_else.
  split; [|split].
  - split; [|split].
    + destruct (env !! "LOG_LEVEL") as [s|]; [|discriminate].
      case_bool_decide; [discriminate|assumption].
    + intros s -> Hs. now rewrite bool_decide_eq_false_2.
    + intros [->| ->]; reflexivity.
  - destruct (truthy (Number (env !! "REST_API_PORT"))) eqn:Hport.
    + now repeat split.
    + split; [exact H3000|]. split; [discriminate|reflexivity].
  - now destruct (env !! "REST_API_BASIC_AUTH_PASSWORD").
Qed.

End Numbers.

(** A number conversion that reads the text 8080, and settings with a
    level, a port and an empty password. *)
Lemma settings_are_filled_in_witness :
  let Number := fun a : option string =>
                  match a with Some "8080" => 8080 | _ => 0 end in
  let env : ProcessEnv :=
    <["REST_API_BASIC_AUTH_PASSWORD" := ""]>
      (<["REST_API_PORT" := "8080"]> (<["LOG_LEVEL" := "debug"]> ∅)) in
  let e := MainEnvironment.environment Z Number (fun n => negb (n =? 0)) 3000 env in
  LOG_LEVEL Z e = "debug" /\ REST_API_PORT Z e = 8080 /\
  REST_API_BASIC_AUTH_PASSWORD Z e = "".
Proof.
  cbv zeta.
  destruct (settings_are_filled_in Z
              (fun a : option string => match a with Some "8080" => 8080 | _ => 0 end)
              (fun n => negb (n =? 0)) 3000
              (<["REST_API_BASIC_AUTH_PASSWORD" := ""]>
                 (<["REST_API_PORT" := "8080"]> (<["LOG_LEVEL" := "debug"]> ∅)))
              eq_refl)
    as ((_ & Hlevel & _) & (_ & Hport & _) & Hpassword).
  split; [apply Hlevel; [reflexivity|discriminate]|].
  split; [apply Hport; reflexivity|].
  rewrite Hpassword. reflexivity.
Defined.
End MainEnvironmentFacts.
